(** * Rate limiters of the URL-shortener service

    A shallow embedding of the four admission controllers of the repository:
    - [Solution]       : [solution.py], a sliding window over a deque per key
                         ([defaultdict(deque)], pruned from the left);
    - [FixedWindow]    : [reference/fixed_window.py], a counter per aligned window;
    - [SlidingWindow]  : [reference/sliding_window.py], a filtered list per key;
    - [TokenBucket]    : [reference/token_bucket.py], tokens refilled continuously.

    Conventions.  The clock reading [time.time()] is an explicit argument [now]
    of every call.  Timestamps, windows and token counts are exact rationals
    ([Q]); capacities and counters are Python integers ([Z]).  The source
    computes on binary64 floats: exact arithmetic is what it computes where
    no operation rounds, and the theorems that depend on this say for which
    windows and clock readings ([whole_seconds], [clock_reading]); beyond
    the range of a float a conversion or [int()] raises, which
    [FixedWindow64] and [overflows] account for.  The lock is held for the
    whole body of every method, so each method is one atomic transition of
    the controller state.  Python exceptions are values of [result]:
    [ZeroDivisionError] and [OverflowError]. *)

From Stdlib Require Import QArith Qminmax Qround Qabs Lqa ZArith Lia.
From Stdlib Require Import PrimFloat.
From stdpp Require Import gmap strings list fin_maps.
From stdpp Require Import pretty.

(** ** Python values and operators *)

Inductive exn : Type :=
| ZeroDivisionError
| OverflowError.

Inductive result (A : Type) : Type :=
| Ok (a : A)
| Raise (e : exn).
Arguments Ok {A} a.
Arguments Raise {A} e.

#[global] Instance result_bind : MBind result :=
  fun A B (f : A -> result B) (r : result A) =>
    match r with
    | Ok a => f a
    | Raise e => Raise e
    end.

(** [a <= b], [a < b] and [a > b] on numbers. *)
Definition Qleb (a b : Q) : bool := Qle_bool a b.
Definition Qltb (a b : Q) : bool := negb (Qle_bool b a).
Definition Qgtb (a b : Q) : bool := Qltb b a.

(** [a / b]: true division raises on a zero divisor. *)
Definition py_div (a b : Q) : result Q :=
  if Qeq_bool b 0 then Raise ZeroDivisionError else Ok (a / b)%Q.

(** [int(x)] truncates toward zero. *)
Definition py_int (x : Q) : Z := Z.quot (Qnum x) (Zpos (Qden x)).

(** [min(a, b)] returns [b] only when [b < a]. *)
Definition py_min (a b : Q) : Q := Qmin a b.

(** [len(l)] as a Python integer. *)
Definition len {A : Type} (l : list A) : Z := Z.of_nat (length l).

(** ** The range of a float

    The clock and the windows are binary64 floats, or integers that float
    arithmetic converts.  A number rounds to a finite float exactly when its
    magnitude is below [2^1024 - 2^970], half a step above the largest
    float; from there on a float result is an infinity and the conversion of
    an [int] raises [OverflowError]. *)
Definition float_limit : Q := inject_Z (2 ^ 1024 - 2 ^ 970).

Definition overflows (x : Q) : bool := Qleb float_limit (Qabs x).

(** The operand of a float operation: an [int] beyond the range cannot be
    converted; a float is in range already. *)
Definition py_float (x : Q) : result Q :=
  if overflows x then Raise OverflowError else Ok x.

Inductive float_value : Type :=
| Finite (q : Q)
| Infinity.

(** [a / b] on floats: a zero divisor raises, a quotient beyond the range
    is an infinity and no error. *)
Definition float_div (a b : Q) : result float_value :=
  if Qeq_bool b 0 then Raise ZeroDivisionError
  else Ok (if overflows (a / b) then Infinity else Finite (a / b)%Q).

(** [int(x)] of a float raises [OverflowError] on an infinity. *)
Definition int_of_float (x : float_value) : result Z :=
  match x with
  | Finite q => Ok (py_int q)
  | Infinity => Raise OverflowError
  end.

(** A window of a whole number of seconds, fewer than [2^31].  For such a
    window, and a clock reading that [time.time()] can return, the float
    difference [now - window] and the truncated float quotient
    [int(now / window)] are the exact ones. *)
Definition whole_seconds (w : Q) : bool :=
  (Z.pos (Qden w) =? 1)%Z && (1 <=? Qnum w)%Z && (Qnum w <? 2 ^ 31)%Z.

(** A reading of [time.time()]: seconds since the epoch, not negative and
    below [2^52]. *)
Definition clock_reading (t : Q) : bool :=
  Qleb 0 t && Qltb t (inject_Z (2 ^ 52)).

(** ** solution.py *)

Module Solution.

Record RateLimiter : Type := mkRateLimiter {
  max_requests : Z;
  time_window : Q;
  requests : gmap string (list Q)   (* key -> deque of timestamps *)
}.

(** [__init__]: stores its arguments unchecked. *)
Definition new (max_requests : Z) (time_window : Q) : RateLimiter :=
  mkRateLimiter max_requests time_window ∅.

(** [self.requests[key]] on a [defaultdict(deque)]: a missing key is
    inserted with an empty deque. *)
Definition getitem (key : string) (reqs : gmap string (list Q))
  : gmap string (list Q) * list Q :=
  match reqs !! key with
  | Some d => (reqs, d)
  | None => (<[key := []]> reqs, [])
  end.

(** [while request_times and request_times[0] <= cutoff_time:
       request_times.popleft()] *)
Fixpoint popleft_while (cutoff_time : Q) (request_times : list Q) : list Q :=
  match request_times with
  | [] => []
  | t0 :: rest =>
      if Qleb t0 cutoff_time then popleft_while cutoff_time rest
      else request_times
  end.

(** [is_allowed].  The deque is mutated in place, so the pruned deque is
    what the mapping holds afterwards on both branches. *)
Definition is_allowed (current_time : Q) (key : string) (self : RateLimiter)
  : bool * RateLimiter :=
  let '(reqs, request_times) := getitem key (requests self) in
  let cutoff_time := (current_time - time_window self)%Q in
  let request_times := popleft_while cutoff_time request_times in
  if (len request_times <? max_requests self)%Z then
    (true,
     mkRateLimiter (max_requests self) (time_window self)
       (<[key := request_times ++ [current_time]]> reqs))
  else
    (false,
     mkRateLimiter (max_requests self) (time_window self)
       (<[key := request_times]> reqs)).

(** [reset(key=None)]: without a key the mapping is cleared; with a key,
    that key's deque is emptied in place (the key stays in the mapping). *)
Definition reset (key : option string) (self : RateLimiter) : RateLimiter :=
  match key with
  | None => mkRateLimiter (max_requests self) (time_window self) ∅
  | Some k =>
      match requests self !! k with
      | Some _ =>
          mkRateLimiter (max_requests self) (time_window self)
            (<[k := []]> (requests self))
      | None => self
      end
  end.

(** The deque a lookup of [key] would see. *)
Definition deque_of (self : RateLimiter) (key : string) : list Q :=
  default [] (requests self !! key).

(** The controller with [key] absent from its mapping, as before the
    first call for that key. *)
Definition never_seen (key : string) (self : RateLimiter) : RateLimiter :=
  mkRateLimiter (max_requests self) (time_window self)
    (delete key (requests self)).

(** Two controllers that no sequence of lookups can tell apart: same
    configuration, same deque under every key (a missing key reads as an
    empty deque). *)
Definition same_view (s1 s2 : RateLimiter) : Prop :=
  max_requests s1 = max_requests s2 /\
  time_window s1 = time_window s2 /\
  forall key, deque_of s1 key = deque_of s2 key.

(** A client's operations, and the answers to a sequence of them. *)
Inductive op : Type :=
| IsAllowed (now : Q) (key : string)
| Reset (key : option string).

Fixpoint exec (ops : list op) (self : RateLimiter) : list bool * RateLimiter :=
  match ops with
  | [] => ([], self)
  | IsAllowed now key :: ops' =>
      let r := is_allowed now key self in
      let rest := exec ops' (snd r) in
      (fst r :: fst rest, snd rest)
  | Reset key :: ops' => exec ops' (reset key self)
  end.

End Solution.

(** ** reference/fixed_window.py *)

Module FixedWindow.

Record Window : Type := mkWindow {
  window_start : Q;
  count : Z
}.

Record RateLimiter : Type := mkRateLimiter {
  limit : Z;
  window : Q;
  windows : gmap string Window
}.

Definition new (limit : Z) (window : Q) : RateLimiter :=
  mkRateLimiter limit window ∅.

(** [allow_request]: [now / self.window] raises when the window is zero. *)
Definition allow_request (now : Q) (user_id : string) (self : RateLimiter)
  : result (bool * RateLimiter) :=
  q ← py_div now (window self);
  let window_start := (inject_Z (py_int q) * window self)%Q in
  let user_window :=
    match windows self !! user_id with
    | Some uw => uw
    | None => mkWindow window_start 0
    end in
  let user_window :=
    if Qgtb window_start (FixedWindow.window_start user_window)
    then mkWindow window_start 0
    else user_window in
  if (count user_window <? limit self)%Z then
    Ok (true,
        mkRateLimiter (limit self) (window self)
          (<[user_id := mkWindow (FixedWindow.window_start user_window)
                          (count user_window + 1)]> (windows self)))
  else
    Ok (false,
        mkRateLimiter (limit self) (window self)
          (<[user_id := user_window]> (windows self))).

(** [reset(user_id)]: the key is required; its entry is deleted. *)
Definition reset (user_id : string) (self : RateLimiter) : RateLimiter :=
  match windows self !! user_id with
  | Some _ =>
      mkRateLimiter (limit self) (window self) (delete user_id (windows self))
  | None => self
  end.

(** Start of the aligned window that contains [now], given the quotient
    [q = now / window]. *)
Definition aligned (self : RateLimiter) (q : Q) : Q :=
  (inject_Z (py_int q) * window self)%Q.

(** The key's record after the roll-over check and before the limit
    check: a missing record is created in the current window, a record of
    an older window is replaced by an empty one. *)
Definition rolled (ws : Q) (ow : option Window) : Window :=
  let user_window := default (mkWindow ws 0) ow in
  if Qgtb ws (window_start user_window) then mkWindow ws 0 else user_window.

End FixedWindow.

(** [allow_request] of [reference/fixed_window.py] with the range of a float
    taken into account: [now / self.window] converts an [int] window, and
    [int(...)] of an infinite quotient raises, both before anything is
    stored.  Where neither happens this is [FixedWindow.allow_request]. *)
Module FixedWindow64.

Definition allow_request (now : Q) (user_id : string)
    (self : FixedWindow.RateLimiter)
  : result (bool * FixedWindow.RateLimiter) :=
  w ← py_float (FixedWindow.window self);
  q ← float_div now w;
  z ← int_of_float q;
  let window_start := (inject_Z z * FixedWindow.window self)%Q in
  let user_window :=
    match FixedWindow.windows self !! user_id with
    | Some uw => uw
    | None => FixedWindow.mkWindow window_start 0
    end in
  let user_window :=
    if Qgtb window_start (FixedWindow.window_start user_window)
    then FixedWindow.mkWindow window_start 0
    else user_window in
  if (FixedWindow.count user_window <? FixedWindow.limit self)%Z then
    Ok (true,
        FixedWindow.mkRateLimiter (FixedWindow.limit self) (FixedWindow.window self)
          (<[user_id := FixedWindow.mkWindow
                          (FixedWindow.window_start user_window)
                          (FixedWindow.count user_window + 1)]>
             (FixedWindow.windows self)))
  else
    Ok (false,
        FixedWindow.mkRateLimiter (FixedWindow.limit self) (FixedWindow.window self)
          (<[user_id := user_window]> (FixedWindow.windows self))).

End FixedWindow64.

(** ** reference/sliding_window.py *)

Module SlidingWindow.

Record RateLimiter : Type := mkRateLimiter {
  limit : Z;
  window : Q;
  requests : gmap string (list Q)
}.

Definition new (limit : Z) (window : Q) : RateLimiter :=
  mkRateLimiter limit window ∅.

(** [[ts for ts in l if ts > cutoff]] *)
Definition keep_after (cutoff : Q) (l : list Q) : list Q :=
  List.filter (fun ts => Qgtb ts cutoff) l.

Definition allow_request (now : Q) (user_id : string) (self : RateLimiter)
  : bool * RateLimiter :=
  let reqs :=
    match requests self !! user_id with
    | Some _ => requests self
    | None => <[user_id := []]> (requests self)
    end in
  let cutoff := (now - window self)%Q in
  let kept := keep_after cutoff (default [] (reqs !! user_id)) in
  if (len kept <? limit self)%Z then
    (true,
     mkRateLimiter (limit self) (window self) (<[user_id := kept ++ [now]]> reqs))
  else
    (false,
     mkRateLimiter (limit self) (window self) (<[user_id := kept]> reqs)).

Definition reset (user_id : string) (self : RateLimiter) : RateLimiter :=
  match requests self !! user_id with
  | Some _ =>
      mkRateLimiter (limit self) (window self) (delete user_id (requests self))
  | None => self
  end.

Definition timestamps_of (self : RateLimiter) (user_id : string) : list Q :=
  default [] (requests self !! user_id).

End SlidingWindow.

(** ** reference/token_bucket.py *)

Module TokenBucket.

Record Bucket : Type := mkBucket {
  tokens : Q;
  last_update : Q
}.

Record RateLimiter : Type := mkRateLimiter {
  limit : Z;
  window : Q;
  rate : Q;                        (* tokens per second *)
  buckets : gmap string Bucket
}.

(** [__init__]: [limit / window] raises when the window is zero. *)
Definition new (limit : Z) (window : Q) : result RateLimiter :=
  rate ← py_div (inject_Z limit) window;
  Ok (mkRateLimiter limit window rate ∅).

(** The token count after the refill step of a call at [now]; a key not
    yet seen gets a full bucket stamped [now]. *)
Definition refill (self : RateLimiter) (now : Q) (ob : option Bucket) : Q :=
  let bucket := default (mkBucket (inject_Z (limit self)) now) ob in
  py_min (inject_Z (limit self))
         (tokens bucket + (now - last_update bucket) * rate self)%Q.

Definition allow_request (now : Q) (user_id : string) (self : RateLimiter)
  : bool * RateLimiter :=
  let bucket :=
    match buckets self !! user_id with
    | Some b => b
    | None => mkBucket (inject_Z (limit self)) now
    end in
  let elapsed := (now - last_update bucket)%Q in
  let tokens := py_min (inject_Z (limit self))
                       (TokenBucket.tokens bucket + elapsed * rate self)%Q in
  if Qleb 1 tokens then
    (true,
     mkRateLimiter (limit self) (window self) (rate self)
       (<[user_id := mkBucket (tokens - 1)%Q now]> (buckets self)))
  else
    (false,
     mkRateLimiter (limit self) (window self) (rate self)
       (<[user_id := mkBucket tokens now]> (buckets self))).

(** The controller has capacity [c] and refill rate [r]. *)
Definition configured (c : Z) (r : Q) (self : RateLimiter) : Prop :=
  limit self = c /\ rate self = r.

(** Answers to [n] calls at one instant that starts with [x] tokens, and
    the tokens left afterwards: nothing is refilled in between. *)
Fixpoint drain (x : Q) (n : nat) : list bool :=
  match n with
  | O => []
  | S n' => if Qleb 1 x then true :: drain (x - 1)%Q n' else false :: drain x n'
  end.

Fixpoint drained (x : Q) (n : nat) : Q :=
  match n with
  | O => x
  | S n' => if Qleb 1 x then drained (x - 1)%Q n' else drained x n'
  end.

Definition reset (user_id : string) (self : RateLimiter) : RateLimiter :=
  match buckets self !! user_id with
  | Some _ =>
      mkRateLimiter (limit self) (window self) (rate self)
        (delete user_id (buckets self))
  | None => self
  end.

End TokenBucket.

(** ** Call sequences *)

Section Runs.
Context {St : Type}.
Variable call : Q -> string -> St -> result (bool * St).

(** The answers to a sequence of calls [(now, key)], issued in order. *)
Fixpoint run (cs : list (Q * string)) (s : St) : result (list bool * St) :=
  match cs with
  | [] => Ok ([], s)
  | (now, key) :: cs' =>
      r ← call now key s;
      rest ← run cs' (snd r);
      Ok (fst r :: fst rest, snd rest)
  end.
End Runs.

(** States a client can bring the controller to from [init]. *)
Inductive reachable {St R : Type}
    (call : Q -> string -> St -> result (bool * St))
    (reset : R -> St -> St) (init : St) : St -> Prop :=
| reach_init : reachable call reset init init
| reach_call s now key b s' :
    reachable call reset init s ->
    call now key s = Ok (b, s') ->
    reachable call reset init s'
| reach_reset s r :
    reachable call reset init s ->
    reachable call reset init (reset r s).

(** Fixed window: no stored counter is negative. *)
Definition fixed_counts_nonneg (s : FixedWindow.RateLimiter) : Prop :=
  forall k uw, FixedWindow.windows s !! k = Some uw -> (0 <= FixedWindow.count uw)%Z.

(** A computation that ends in an exception. *)
Definition raises {A : Type} (r : result A) : Prop :=
  exists e, r = Raise e.

(** A call that cannot raise. *)
Definition total {St : Type} (call : Q -> string -> St -> bool * St)
  : Q -> string -> St -> result (bool * St) :=
  fun now key s => Ok (call now key s).

(** [n] calls for [key] at the instant [now]. *)
Definition burst (n : nat) (now : Q) (key : string) : list (Q * string) :=
  replicate n (now, key).

(** Number of calls for [key] answered [true] whose time lies in
    the interval (lo, hi]. *)
Definition admitted_in (key : string) (lo hi : Q)
    (cs : list (Q * string)) (answers : list bool) : nat :=
  length (List.filter
            (fun ca : (Q * string) * bool =>
               snd ca && bool_decide (snd (fst ca) = key)
               && Qltb lo (fst (fst ca)) && Qleb (fst (fst ca)) hi)
            (combine cs answers)).

(** Call times never go back. *)
Fixpoint nondecreasing (ts : list Q) : Prop :=
  match ts with
  | [] => True
  | t :: rest =>
      match rest with
      | [] => True
      | t' :: _ => (t <= t')%Q
      end /\ nondecreasing rest
  end.

(** Every call is made at a reading of the clock. *)
Definition clock_readings (cs : list (Q * string)) : bool :=
  forallb (fun c => clock_reading (fst c)) cs.

(** Timestamps of [l] strictly later than [lo]. *)
Definition count_after (lo : Q) (l : list Q) : nat :=
  length (List.filter (fun ts => Qgtb ts lo) l).

(** ** The URL-shortener service

    [app.py] is the service without rate limiting;
    [reference/app_with_fixed_window.py], [app_with_sliding_window.py] and
    [app_with_token_bucket.py] are the same handlers behind two limiters, one
    per endpoint.  A handler takes the clock reading, what Flask hands it
    (the parsed JSON body, the path parameter, the query argument) and the
    module's globals, and returns its response and the globals afterwards.
    JSON bodies are objects with string values, or absent.  The hash
    [md5(url).hexdigest()[:8]] is a parameter. *)

Module App.

Inductive json : Type :=
| JStr (s : string)
| JInt (n : Z).

(** [jsonify(body), status] and [redirect(location)]. *)
Inductive response : Type :=
| Jsonify (status : Z) (body : list (string * json))
| Redirect (location : string).

Definition status_of (r : response) : Z :=
  match r with
  | Jsonify status _ => status
  | Redirect _ => 302
  end.

Inductive app_exn : Type :=
| LimiterError (e : exn)
| KeyError (key : string).

(** The module's globals. *)
Record state (L : Type) : Type := mkState {
  url_store : gmap string string;
  url_stats : gmap string Z;
  shorten_limiter : L;
  redirect_limiter : L
}.
Arguments mkState {L} _ _ _ _.
Arguments url_store {L} _.
Arguments url_stats {L} _.
Arguments shorten_limiter {L} _.
Arguments redirect_limiter {L} _.

(** A handler returns a response or raises; the globals are as the handler
    left them either way. *)
Inductive outcome (L : Type) : Type :=
| Returned (r : response) (st : state L)
| Raised (e : app_exn) (st : state L).
Arguments Returned {L} r st.
Arguments Raised {L} e st.

Definition final_state {L : Type} (o : outcome L) : state L :=
  match o with
  | Returned _ st => st
  | Raised _ st => st
  end.

(** [not data]: [None] and the empty object are falsy. *)
Definition falsy (data : option (gmap string string)) : bool :=
  match data with
  | None => true
  | Some d => bool_decide (d = ∅)
  end.

(** ["url" not in data] *)
Definition lacks (key : string) (data : option (gmap string string)) : bool :=
  match data with
  | None => true
  | Some d => bool_decide (d !! key = None)
  end.

Inductive request : Type :=
| PostShorten (data : option (gmap string string))
| GetRedirect (short_code : string) (user_id : option string)
| GetStats (short_code : string)
| GetHealth.

Section Handlers.
Context {L : Type}.
Variable allow_request : Q -> string -> L -> result (bool * L).
Variable shorten_url : string -> string.

Definition create_short_url (now : Q) (data : option (gmap string string))
    (st : state L) : outcome L :=
  if falsy data || lacks "url" data then
    Returned (Jsonify 400 [("error", JStr "Missing 'url' in request")]) st
  else
    let d := default ∅ data in
    let long_url := default String.EmptyString (d !! "url") in
    let user_id := default "anonymous" (d !! "user_id") in
    match allow_request now user_id (shorten_limiter st) with
    | Raise e => Raised (LimiterError e) st
    | Ok (false, lim) =>
        Returned
          (Jsonify 429
             [("error", JStr "Rate limit exceeded. Max 10 requests per minute.")])
          (mkState (url_store st) (url_stats st) lim (redirect_limiter st))
    | Ok (true, lim) =>
        let short_code := shorten_url long_url in
        Returned
          (Jsonify 200
             [("short_url", JStr (String.append "http://short.url/" short_code));
              ("long_url", JStr long_url)])
          (mkState (<[short_code := long_url]> (url_store st))
                   (<[short_code := 0%Z]> (url_stats st))
                   lim (redirect_limiter st))
    end.

Definition redirect_to_url (now : Q) (short_code : string)
    (user_id_arg : option string) (st : state L) : outcome L :=
  let user_id := default "anonymous" user_id_arg in
  match allow_request now user_id (redirect_limiter st) with
  | Raise e => Raised (LimiterError e) st
  | Ok (false, lim) =>
      Returned
        (Jsonify 429
           [("error", JStr "Rate limit exceeded. Max 100 requests per minute.")])
        (mkState (url_store st) (url_stats st) (shorten_limiter st) lim)
  | Ok (true, lim) =>
      let st1 := mkState (url_store st) (url_stats st) (shorten_limiter st) lim in
      match url_store st !! short_code with
      | None => Returned (Jsonify 404 [("error", JStr "URL not found")]) st1
      | Some long_url =>
          match url_stats st !! short_code with
          | None => Raised (KeyError short_code) st1
          | Some clicks =>
              Returned (Redirect long_url)
                (mkState (url_store st)
                         (<[short_code := (clicks + 1)%Z]> (url_stats st))
                         (shorten_limiter st) lim)
          end
      end
  end.

Definition get_stats (short_code : string) (st : state L) : outcome L :=
  match url_store st !! short_code with
  | None => Returned (Jsonify 404 [("error", JStr "URL not found")]) st
  | Some long_url =>
      match url_stats st !! short_code with
      | None => Raised (KeyError short_code) st
      | Some clicks =>
          Returned
            (Jsonify 200
               [("short_code", JStr short_code); ("long_url", JStr long_url);
                ("clicks", JInt clicks)])
            st
      end
  end.

Definition health_check (st : state L) : outcome L :=
  Returned
    (Jsonify 200
       [("status", JStr "healthy");
        ("urls_stored", JInt (Z.of_nat (size (url_store st))))])
    st.

Definition handle (now : Q) (req : request) (st : state L) : outcome L :=
  match req with
  | PostShorten data => create_short_url now data st
  | GetRedirect short_code user_id => redirect_to_url now short_code user_id st
  | GetStats short_code => get_stats short_code st
  | GetHealth => health_check st
  end.

(** Requests served one after the other; the first exception ends the run. *)
Fixpoint serve (reqs : list (Q * request)) (st : state L)
  : list response * option app_exn * state L :=
  match reqs with
  | [] => ([], None, st)
  | (now, req) :: reqs' =>
      match handle now req st with
      | Raised e st' => ([], Some e, st')
      | Returned r st' =>
          let '(rs, e, st'') := serve reqs' st' in (r :: rs, e, st'')
      end
  end.

End Handlers.

(** [app.py]: the same handlers with the limiter checks still to be added. *)
Definition plain_create_short_url (shorten_url : string -> string)
    (data : option (gmap string string)) (st : state unit) : outcome unit :=
  if falsy data || lacks "url" data then
    Returned (Jsonify 400 [("error", JStr "Missing 'url' in request")]) st
  else
    let d := default ∅ data in
    let long_url := default String.EmptyString (d !! "url") in
    let short_code := shorten_url long_url in
    Returned
      (Jsonify 200
         [("short_url", JStr (String.append "http://short.url/" short_code));
          ("long_url", JStr long_url)])
      (mkState (<[short_code := long_url]> (url_store st))
               (<[short_code := 0%Z]> (url_stats st)) tt tt).

Definition plain_redirect_to_url (short_code : string) (st : state unit)
  : outcome unit :=
  match url_store st !! short_code with
  | None => Returned (Jsonify 404 [("error", JStr "URL not found")]) st
  | Some long_url =>
      match url_stats st !! short_code with
      | None => Raised (KeyError short_code) st
      | Some clicks =>
          Returned (Redirect long_url)
            (mkState (url_store st)
                     (<[short_code := (clicks + 1)%Z]> (url_stats st)) tt tt)
      end
  end.

(** The globals of the three rate-limited services at start-up. *)
Definition fixed_window_app : state FixedWindow.RateLimiter :=
  mkState ∅ ∅ (FixedWindow.new 10 60) (FixedWindow.new 100 60).

Definition sliding_window_app : state SlidingWindow.RateLimiter :=
  mkState ∅ ∅ (SlidingWindow.new 10 60) (SlidingWindow.new 100 60).

Definition token_bucket_app : result (state TokenBucket.RateLimiter) :=
  shorten ← TokenBucket.new 10 60;
  redirect ← TokenBucket.new 100 60;
  Ok (mkState ∅ ∅ shorten redirect).

(** The globals [app.py] has: the store and the counters, no limiters. *)
Definition without_limiters {L : Type} (st : state L) : state unit :=
  mkState (url_store st) (url_stats st) tt tt.

Definition plain_outcome {L : Type} (o : outcome L) : outcome unit :=
  match o with
  | Returned r st => Returned r (without_limiters st)
  | Raised e st => Raised e (without_limiters st)
  end.

(** The body of a well-formed POST /shorten. *)
Definition shorten_body (long_url : string) (user_id : option string)
  : gmap string string :=
  match user_id with
  | Some u => <["user_id" := u]> {["url" := long_url]}
  | None => {["url" := long_url]}
  end.

(** The status a limiter's answer turns into. *)
Definition status_for (admitted : bool) : Z := if admitted then 200 else 429.

(** The store and the click counters have the same keys. *)
Definition consistent {L : Type} (st : state L) : Prop :=
  forall short_code,
    is_Some (url_store st !! short_code) <-> is_Some (url_stats st !! short_code).

End App.

(** ** The evaluation script (eval.py)

    The scoring arithmetic of [run_tests] and its five functional tests of
    [solution.py].  A test makes its calls one after the other; each call
    reads the clock once, so a test is a function of those readings.  The
    stress test (threads, wall-clock duration) and the syntax-tree walk of
    [calculate_cyclomatic_complexity] are not modelled: the duration, the
    line count and the complexity are inputs of the scores. *)

Module Eval.

(** [max(a, b)] returns [b] only when [b > a]. *)
Definition py_max (a b : Q) : Q := Qmax a b.

(** [sum(test_results)]: [True] counts 1. *)
Definition passed_count (test_results : list bool) : Z :=
  len (List.filter (fun b : bool => b) test_results).

(** [sum(test_results) / len(test_results)] *)
Definition correctness_score (test_results : list bool) : result Q :=
  py_div (inject_Z (passed_count test_results)) (inject_Z (len test_results)).

(** [all(test_results)] *)
Definition success (test_results : list bool) : bool :=
  forallb (fun b : bool => b) test_results.

(** [0 if results["success"] else 1] *)
Definition exit_code (test_results : list bool) : Z :=
  if success test_results then 0 else 1.

(** [max(0.0, min(1.0, (100 - loc) / 100)) if loc <= 200 else 0.0] *)
Definition loc_score (loc : Z) : Q :=
  if (loc <=? 200)%Z
  then py_max 0 (py_min 1 (inject_Z (100 - loc) / 100))
  else 0.

(** [max(0.0, min(1.0, (50 - complexity) / 50)) if complexity <= 100 else 0.0] *)
Definition complexity_score (complexity : Z) : Q :=
  if (complexity <=? 100)%Z
  then py_max 0 (py_min 1 (inject_Z (50 - complexity) / 50))
  else 0.

Definition simplicity_score (loc complexity : Z) : Q :=
  ((loc_score loc + complexity_score complexity) / 2)%Q.

(** [max(0.0, min(1.0, (1.0 - duration) / 1.0)) if duration <= 2.0 else 0.0] *)
Definition perf_score (duration : Q) : Q :=
  if Qleb duration 2
  then py_max 0 (py_min 1 ((1 - duration) / 1))
  else 0.

(** The stress test passes when [duration < 1.0]. *)
Definition performance_passed (duration : Q) : bool := Qltb duration 1.

(** [eval_example.py]'s line score has no cut-off at 200 lines. *)
Definition example_simplicity_score (lines : Z) : Q :=
  py_max 0 (py_min 1 (inject_Z (100 - lines) / 100)).

(** Test 1, basic allow/reject: three calls must be admitted (the loop
    stops at the first rejection), the fourth rejected. *)
Definition test_basic_allow_reject (t1 t2 t3 t4 : Q) : bool :=
  let limiter := Solution.new 3 1 in
  let r1 := Solution.is_allowed t1 "user1" limiter in
  if negb (fst r1) then false else
  let r2 := Solution.is_allowed t2 "user1" (snd r1) in
  if negb (fst r2) then false else
  let r3 := Solution.is_allowed t3 "user1" (snd r2) in
  if negb (fst r3) then false else
  let r4 := Solution.is_allowed t4 "user1" (snd r3) in
  negb (fst r4).

(** Test 2, independent keys. *)
Definition test_multiple_keys (t1 t2 t3 t4 : Q) : bool :=
  let limiter := Solution.new 2 1 in
  let r1 := Solution.is_allowed t1 "user1" limiter in
  let r2 := Solution.is_allowed t2 "user1" (snd r1) in
  let r3 := Solution.is_allowed t3 "user2" (snd r2) in
  if negb (fst r3) then false else
  let r4 := Solution.is_allowed t4 "user1" (snd r3) in
  negb (fst r4).

(** Test 3, the window runs out: [t4] is read after [time.sleep(0.6)]. *)
Definition test_time_window_reset (t1 t2 t3 t4 : Q) : bool :=
  let limiter := Solution.new 2 (1 # 2) in
  let r1 := Solution.is_allowed t1 "user1" limiter in
  let r2 := Solution.is_allowed t2 "user1" (snd r1) in
  let r3 := Solution.is_allowed t3 "user1" (snd r2) in
  if fst r3 then false else
  let r4 := Solution.is_allowed t4 "user1" (snd r3) in
  fst r4.

(** Test 4, edge cases: a zero limit, then the empty key. *)
Definition test_edge_cases (t1 t2 : Q) : bool :=
  let limiter := Solution.new 0 1 in
  let r1 := Solution.is_allowed t1 "user1" limiter in
  if fst r1 then false else
  let limiter := Solution.new 1 1 in
  let r2 := Solution.is_allowed t2 String.EmptyString limiter in
  fst r2.

(** Test 5, reset of one key and of all keys. *)
Definition test_reset_functionality (t1 t2 t3 t4 t5 : Q) : bool :=
  let limiter := Solution.new 1 1 in
  let r1 := Solution.is_allowed t1 "user1" limiter in
  let r2 := Solution.is_allowed t2 "user2" (snd r1) in
  let limiter := Solution.reset (Some "user1") (snd r2) in
  let r3 := Solution.is_allowed t3 "user1" limiter in
  if negb (fst r3) then false else
  let r4 := Solution.is_allowed t4 "user2" (snd r3) in
  if fst r4 then false else
  let limiter := Solution.reset None (snd r4) in
  let r5 := Solution.is_allowed t5 "user2" limiter in
  fst r5.

End Eval.

(** ** The integration tests (eval/eval_integrated.py)

    [run_tests] posts to /shorten through Flask's test client, one request
    after the other on the same application.  [clock i] is what the clock
    reads while the [i]-th request of a test is handled; the
    [time.sleep(1.5)] of test 4 shows in these readings only.  A test's
    result is [None] when a handler raised: what the client sees then
    depends on Flask's configuration, which is not modelled.  Test 5 reads
    the source text of the application and is not modelled. *)

Module Integrated.

(** [client.post("/shorten", json={"url": url, "user_id": user_id})] *)
Definition post_shorten (now : Q) (url user_id : string) : Q * App.request :=
  (now, App.PostShorten (Some (App.shorten_body url (Some user_id)))).

(** [for i in range(10)]: the requests number [first] to [first + 9] of a
    test, the [i]-th of them for the URL [prefix + str(i)]. *)
Definition round (clock : nat -> Q) (first : nat) (prefix user_id : string)
  : list (Q * App.request) :=
  map (fun i : nat =>
         post_shorten (clock (first + i)%nat) (prefix +:+ pretty i) user_id)
      (seq 0 10).

(** Number of responses with status 200. *)
Definition allowed (rs : list App.response) : Z :=
  len (List.filter (fun r => (App.status_of r =? 200)%Z) rs).

(** ["short_url" in response.get_json()] *)
Definition has_key (key : string) (r : App.response) : bool :=
  match r with
  | App.Jsonify _ body => bool_decide (key ∈ map fst body)
  | App.Redirect _ => false
  end.

Section Tests.
Context {L : Type}.
Variable allow_request : Q -> string -> L -> result (bool * L).
Variable shorten_url : string -> string.

(** A loop that raises [AssertionError] at the first response that is not
    a 200: the requests after it are not made. *)
Fixpoint expect_200 (reqs : list (Q * App.request)) (st : App.state L)
  : option (bool * App.state L) :=
  match reqs with
  | [] => Some (true, st)
  | (now, req) :: reqs' =>
      match App.handle allow_request shorten_url now req st with
      | App.Raised _ _ => None
      | App.Returned r st' =>
          if (App.status_of r =? 200)%Z then expect_200 reqs' st'
          else Some (false, st')
      end
  end.

(** Test 1: one request, which must be answered 200 with a short URL. *)
Definition test_basic_functionality (clock : nat -> Q) (st : App.state L)
  : option bool :=
  let '(now, req) := post_shorten (clock 0%nat) "https://example.com" "test_user_1" in
  match App.handle allow_request shorten_url now req st with
  | App.Raised _ _ => None
  | App.Returned r _ =>
      Some ((App.status_of r =? 200)%Z && has_key "short_url" r)
  end.

(** Test 2: ten requests of one user must be answered 200 and the
    eleventh 429. *)
Definition test_rate_limit_enforced (clock : nat -> Q) (st : App.state L)
  : option bool :=
  match expect_200 (round clock 0 "https://example.com/" "test_user_2") st with
  | None => None
  | Some (false, _) => Some false
  | Some (true, st1) =>
      let '(now, req) :=
        post_shorten (clock 10%nat) "https://example.com/11" "test_user_2" in
      match App.handle allow_request shorten_url now req st1 with
      | App.Raised _ _ => None
      | App.Returned r _ => Some (App.status_of r =? 429)%Z
      end
  end.

(** Test 3: after ten requests of user A, whatever their answers, the
    eleventh must be answered 429 and a request of user B 200. *)
Definition test_per_user_isolation (clock : nat -> Q) (st : App.state L)
  : option bool :=
  match App.serve allow_request shorten_url
          (round clock 0 "https://example.com/a" "user_a") st with
  | (_, Some _, _) => None
  | (_, None, st1) =>
      let '(now, req) :=
        post_shorten (clock 10%nat) "https://example.com/a_extra" "user_a" in
      match App.handle allow_request shorten_url now req st1 with
      | App.Raised _ _ => None
      | App.Returned response_a st2 =>
          if negb (App.status_of response_a =? 429)%Z then Some false
          else
            let '(now, req) :=
              post_shorten (clock 11%nat) "https://example.com/b1" "user_b" in
            match App.handle allow_request shorten_url now req st2 with
            | App.Raised _ _ => None
            | App.Returned response_b _ =>
                Some (App.status_of response_b =? 200)%Z
            end
      end
  end.

(** Test 4: ten requests of one user, a pause, ten more; the test fails
    when all of the second ten are answered 200. *)
Definition test_boundary_handling (clock : nat -> Q) (st : App.state L)
  : option bool :=
  match App.serve allow_request shorten_url
          (round clock 0 "https://example.com/boundary" "boundary_test_user")
          st with
  | (_, Some _, _) => None
  | (_, None, st1) =>
      match App.serve allow_request shorten_url
              (round clock 10 "https://example.com/boundary2_"
                 "boundary_test_user") st1 with
      | (_, Some _, _) => None
      | (rs, None, _) => Some (negb (10 <=? allowed rs)%Z)
      end
  end.

End Tests.

(** The minute, counted from the epoch, in which the [i]-th request falls:
    [int(now / 60)]. *)
Definition minute (clock : nat -> Q) (i : nat) : Z := py_int (clock i / 60).

End Integrated.

(** ** Observers for whole runs *)

(** The time of the last call of [cs], or [t0] when there is none. *)
Definition last_time (t0 : Q) (cs : list (Q * string)) : Q :=
  List.last (map fst cs) t0.

(** Every key's timestamps are in time order and none is later than [tl]. *)
Definition time_ordered (stamps : string -> list Q) (tl : Q) : Prop :=
  forall key, nondecreasing (stamps key) /\ Forall (fun ts => ts <= tl)%Q (stamps key).

(** Times of the calls of [log] made for [key]. *)
Definition times_of (key : string) (log : list (Q * string)) : list Q :=
  map fst (List.filter (fun c : Q * string => bool_decide (snd c = key)) log).

(** Number of calls of [log] made for [key] later than [lo]. *)
Definition recent (key : string) (lo : Q) (log : list (Q * string)) : nat :=
  length (List.filter
            (fun c : Q * string => bool_decide (snd c = key) && Qltb lo (fst c))
            log).

(** The sliding-window rule stated on the log of admitted calls: a call is
    admitted when fewer than [limit] calls of its key were admitted less than
    [window] ago, and is then logged. *)
Fixpoint window_log (limit : Z) (window : Q) (log cs : list (Q * string))
  : list bool :=
  match cs with
  | [] => []
  | (now, key) :: cs' =>
      if (Z.of_nat (recent key (now - window) log) <? limit)%Z
      then true :: window_log limit window (log ++ [(now, key)]) cs'
      else false :: window_log limit window log cs'
  end.

(** Token bucket: every bucket holds between 0 and [c] tokens and was last
    updated no later than [tl]. *)
Definition token_buckets_in_range (c : Z) (tl : Q) (s : TokenBucket.RateLimiter)
  : Prop :=
  forall key b, TokenBucket.buckets s !! key = Some b ->
    (0 <= TokenBucket.tokens b)%Q /\ (TokenBucket.tokens b <= inject_Z c)%Q /\
    (TokenBucket.last_update b <= tl)%Q.

(** Number of calls for [key] answered [true] that fall in the aligned
    window number [z], the one made of the times [t] with [int(t / w) = z]. *)
Definition admitted_in_window (key : string) (z : Z) (w : Q)
    (cs : list (Q * string)) (answers : list bool) : nat :=
  length (List.filter
            (fun ca : (Q * string) * bool =>
               snd ca && bool_decide (snd (fst ca) = key)
               && (py_int (fst (fst ca) / w) =? z)%Z)
            (combine cs answers)).

(** Fixed window: what the key's stored count contributes to window [z]. *)
Definition carried (z : Z) (w : Q) (ow : option FixedWindow.Window) : Z :=
  match ow with
  | Some uw =>
      if Qeq_bool (FixedWindow.window_start uw) (inject_Z z * w)
      then FixedWindow.count uw else 0
  | None => 0
  end.

(** Fixed window: the key's record, if any, is aligned to a window no later
    than that of [tl] and counts between 0 and [c]. *)
Definition fixed_record_ok (c : Z) (w tl : Q) (ow : option FixedWindow.Window)
  : Prop :=
  match ow with
  | Some uw =>
      exists zs, FixedWindow.window_start uw = (inject_Z zs * w)%Q /\
                 (zs <= py_int (tl / w))%Z /\
                 (0 <= FixedWindow.count uw <= c)%Z
  | None => True
  end.

(** ** Comparisons *)

Lemma Qleb_true a b : Qleb a b = true <-> (a <= b)%Q.
Proof. apply Qle_bool_iff. Qed.

Lemma Qleb_false a b : Qleb a b = false <-> (b < a)%Q.
Proof.
  unfold Qleb. split; intros H.
  - apply Qnot_le_lt. intros Hle. apply Qle_bool_iff in Hle. congruence.
  - destruct (Qle_bool a b) eqn:E; [|reflexivity].
    apply Qle_bool_iff in E. lra.
Qed.

Lemma Qltb_true a b : Qltb a b = true <-> (a < b)%Q.
Proof. unfold Qltb. rewrite negb_true_iff. apply Qleb_false. Qed.

Lemma Qltb_false a b : Qltb a b = false <-> (b <= a)%Q.
Proof. unfold Qltb. rewrite negb_false_iff. apply Qleb_true. Qed.

Lemma Qgtb_true a b : Qgtb a b = true <-> (b < a)%Q.
Proof. apply Qltb_true. Qed.

Lemma Qgtb_false a b : Qgtb a b = false <-> (a <= b)%Q.
Proof. apply Qltb_false. Qed.

Lemma Qleb_spec a b : reflect (a <= b)%Q (Qleb a b).
Proof.
  destruct (Qleb a b) eqn:E; constructor.
  - by apply Qleb_true.
  - apply Qleb_false in E. lra.
Qed.

Lemma Qltb_spec a b : reflect (a < b)%Q (Qltb a b).
Proof.
  destruct (Qltb a b) eqn:E; constructor.
  - by apply Qltb_true.
  - apply Qltb_false in E. lra.
Qed.

(** ** Pruning *)

Lemma count_after_le lo l : (count_after lo l <= length l)%nat.
Proof. apply filter_length_le. Qed.

Lemma count_after_app lo l1 l2 :
  count_after lo (l1 ++ l2) = (count_after lo l1 + count_after lo l2)%nat.
Proof. unfold count_after. by rewrite List.filter_app, length_app. Qed.

Lemma count_after_old lo hi l :
  (hi <= lo)%Q -> Forall (fun ts => ts <= hi)%Q l -> count_after lo l = 0%nat.
Proof.
  intros Hle. unfold count_after. induction 1 as [|x l Hx _ IH]; simpl; [done|].
  destruct (Qltb_spec lo x) as [Hlt|_]; [lra|].
  unfold Qgtb. destruct (Qltb lo x) eqn:E; [apply Qltb_true in E; lra | exact IH].
Qed.

Lemma popleft_while_sublist cutoff l :
  Solution.popleft_while cutoff l `sublist_of` l.
Proof.
  induction l as [|x l IH]; simpl; [done|].
  destruct (Qleb x cutoff); [by apply sublist_cons | done].
Qed.

Lemma popleft_while_count cutoff lo l :
  (cutoff <= lo)%Q ->
  count_after lo (Solution.popleft_while cutoff l) = count_after lo l.
Proof.
  intros Hle. induction l as [|x l IH]; simpl; [done|].
  destruct (Qleb_spec x cutoff) as [Hx|_]; [|done].
  rewrite IH. unfold count_after. simpl.
  unfold Qgtb. destruct (Qltb_spec lo x); [lra | done].
Qed.

(** On a deque in time order, pruning from the left is filtering. *)
Lemma popleft_while_filter cutoff l :
  nondecreasing l ->
  Solution.popleft_while cutoff l = SlidingWindow.keep_after cutoff l.
Proof.
  unfold SlidingWindow.keep_after.
  induction l as [|x l IH]; simpl; [done|]. intros [Hx Hl].
  unfold Qgtb. destruct (Qleb_spec x cutoff) as [Hle|Hgt].
  - destruct (Qltb_spec cutoff x); [lra | by apply IH].
  - destruct (Qltb_spec cutoff x) as [Hlt|]; [|lra]. f_equal.
    clear IH. revert x Hx Hlt Hgt. induction l as [|y l IH]; intros x Hx Hlt _; simpl; [done|].
    destruct Hl as [Hy Hl]. destruct (Qltb_spec cutoff y) as [_|Hn]; [|lra].
    f_equal. apply (IH Hl y); [done | lra | lra].
Qed.

Lemma keep_after_sublist cutoff l :
  SlidingWindow.keep_after cutoff l `sublist_of` l.
Proof.
  unfold SlidingWindow.keep_after.
  induction l as [|x l IH]; simpl; [done|].
  destruct (Qgtb x cutoff); [by apply sublist_skip | by apply sublist_cons].
Qed.

Lemma keep_after_count cutoff lo l :
  (cutoff <= lo)%Q ->
  count_after lo (SlidingWindow.keep_after cutoff l) = count_after lo l.
Proof.
  intros Hle. unfold SlidingWindow.keep_after, count_after.
  induction l as [|x l IH]; simpl; [done|].
  unfold Qgtb in *. destruct (Qltb_spec cutoff x) as [Hx|Hx]; simpl.
  - destruct (Qltb lo x); simpl; by rewrite IH.
  - destruct (Qltb_spec lo x); [lra | done].
Qed.

(** ** What one call does to its key and to the others *)

Lemma solution_is_allowed_fst now key self :
  fst (Solution.is_allowed now key self) =
  (len (Solution.popleft_while (now - Solution.time_window self)
          (Solution.deque_of self key)) <? Solution.max_requests self)%Z.
Proof.
  unfold Solution.is_allowed, Solution.getitem, Solution.deque_of.
  destruct (Solution.requests self !! key); simpl;
    by destruct (_ <? _)%Z.
Qed.

Lemma solution_is_allowed_deque now key self :
  let kept := Solution.popleft_while (now - Solution.time_window self)
                (Solution.deque_of self key) in
  Solution.deque_of (snd (Solution.is_allowed now key self)) key =
  if (len kept <? Solution.max_requests self)%Z then kept ++ [now] else kept.
Proof.
  unfold Solution.is_allowed, Solution.getitem, Solution.deque_of.
  destruct (Solution.requests self !! key); simpl;
    destruct (_ <? _)%Z; simpl; by rewrite lookup_insert_eq.
Qed.

Lemma solution_is_allowed_other now key key' self :
  key <> key' ->
  Solution.requests (snd (Solution.is_allowed now key self)) !! key' =
  Solution.requests self !! key'.
Proof.
  intros Hne. unfold Solution.is_allowed, Solution.getitem.
  destruct (Solution.requests self !! key); simpl;
    destruct (_ <? _)%Z; simpl; by rewrite !lookup_insert_ne.
Qed.

Lemma solution_is_allowed_config now key self :
  Solution.max_requests (snd (Solution.is_allowed now key self))
  = Solution.max_requests self /\
  Solution.time_window (snd (Solution.is_allowed now key self))
  = Solution.time_window self.
Proof.
  unfold Solution.is_allowed, Solution.getitem.
  destruct (Solution.requests self !! key); simpl; by destruct (_ <? _)%Z.
Qed.

Lemma sliding_allow_request_fst now key self :
  fst (SlidingWindow.allow_request now key self) =
  (len (SlidingWindow.keep_after (now - SlidingWindow.window self)
          (SlidingWindow.timestamps_of self key)) <? SlidingWindow.limit self)%Z.
Proof.
  unfold SlidingWindow.allow_request, SlidingWindow.timestamps_of.
  destruct (SlidingWindow.requests self !! key) eqn:E; simpl.
  - rewrite E. simpl. by destruct (_ <? _)%Z.
  - rewrite lookup_insert_eq. simpl. by destruct (_ <? _)%Z.
Qed.

Lemma sliding_allow_request_timestamps now key self :
  let kept := SlidingWindow.keep_after (now - SlidingWindow.window self)
                (SlidingWindow.timestamps_of self key) in
  SlidingWindow.timestamps_of (snd (SlidingWindow.allow_request now key self)) key =
  if (len kept <? SlidingWindow.limit self)%Z then kept ++ [now] else kept.
Proof.
  unfold SlidingWindow.allow_request, SlidingWindow.timestamps_of.
  destruct (SlidingWindow.requests self !! key) eqn:E; simpl.
  - rewrite E. simpl. destruct (_ <? _)%Z; simpl; by rewrite lookup_insert_eq.
  - rewrite lookup_insert_eq. simpl.
    destruct (_ <? _)%Z; simpl; by rewrite lookup_insert_eq.
Qed.

Lemma sliding_allow_request_other now key key' self :
  key <> key' ->
  SlidingWindow.requests (snd (SlidingWindow.allow_request now key self)) !! key' =
  SlidingWindow.requests self !! key'.
Proof.
  intros Hne. unfold SlidingWindow.allow_request.
  destruct (SlidingWindow.requests self !! key); simpl;
    destruct (_ <? _)%Z; simpl; by rewrite !lookup_insert_ne.
Qed.

Lemma sliding_allow_request_config now key self :
  SlidingWindow.limit (snd (SlidingWindow.allow_request now key self))
  = SlidingWindow.limit self /\
  SlidingWindow.window (snd (SlidingWindow.allow_request now key self))
  = SlidingWindow.window self.
Proof.
  unfold SlidingWindow.allow_request.
  destruct (SlidingWindow.requests self !! key); simpl; by destruct (_ <? _)%Z.
Qed.

(** ** Counting admissions *)

Lemma admitted_in_nil key lo hi answers : admitted_in key lo hi [] answers = 0%nat.
Proof. reflexivity. Qed.

Lemma admitted_in_cons key lo hi now key' cs b answers :
  admitted_in key lo hi ((now, key') :: cs) (b :: answers) =
  ((if b && bool_decide (key' = key) && Qltb lo now && Qleb now hi
    then 1 else 0) + admitted_in key lo hi cs answers)%nat.
Proof.
  unfold admitted_in. simpl.
  by destruct (b && bool_decide (key' = key) && Qltb lo now && Qleb now hi).
Qed.

Lemma admitted_in_late key lo hi tl cs answers :
  (hi < tl)%Q -> nondecreasing (tl :: map fst cs) ->
  admitted_in key lo hi cs answers = 0%nat.
Proof.
  revert tl answers. induction cs as [|[now key'] cs IH]; intros tl answers Hlt Hnd.
  - reflexivity.
  - destruct answers as [|b answers]; [by destruct cs|].
    simpl in Hnd. destruct Hnd as [Hle Hnd].
    rewrite admitted_in_cons, (IH now); [| lra | exact Hnd].
    destruct (Qleb_spec now hi); [lra|]. by rewrite andb_false_r.
Qed.

Lemma Forall_sublist {A : Type} (P : A -> Prop) (l1 l2 : list A) :
  l1 `sublist_of` l2 -> Forall P l2 -> Forall P l1.
Proof.
  intros Hsub Hall. apply list.Forall_forall. intros x Hx.
  eapply list.Forall_forall; [exact Hall|]. by eapply elem_of_sublist.
Qed.

Lemma run_total_cons {St : Type} (call : Q -> string -> St -> bool * St)
    now key cs s answers s' :
  run (total call) cs (snd (call now key s)) = Ok (answers, s') ->
  run (total call) ((now, key) :: cs) s = Ok (fst (call now key s) :: answers, s').
Proof. intros H. simpl. rewrite H. reflexivity. Qed.

(** ** The sliding-window bound

    Both sliding-window controllers prune the key's timestamps, compare the
    number left with the capacity and append [now] on admission; they differ
    in how they prune.  The bound is proved once for any such controller. *)

Section SlidingBound.
Context {St : Type}.
Variable call : Q -> string -> St -> bool * St.
Variable stamps : St -> string -> list Q.
Variable prune : Q -> list Q -> list Q.
Variable cap : Z.
Variable w : Q.
Variable good : St -> Prop.

Hypothesis prune_sublist : forall c l, prune c l `sublist_of` l.
Hypothesis prune_count : forall c lo l,
  (c <= lo)%Q -> count_after lo (prune c l) = count_after lo l.
Hypothesis call_good : forall now k s, good s -> good (snd (call now k s)).
Hypothesis call_fst : forall now k s, good s ->
  fst (call now k s) = (len (prune (now - w) (stamps s k)) <? cap)%Z.
Hypothesis call_stamps : forall now k s, good s ->
  stamps (snd (call now k s)) k =
  if (len (prune (now - w) (stamps s k)) <? cap)%Z
  then prune (now - w) (stamps s k) ++ [now]
  else prune (now - w) (stamps s k).
Hypothesis call_other : forall now k k' s,
  k <> k' -> stamps (snd (call now k s)) k' = stamps s k'.

Variable key : string.
Variable T : Q.

Lemma sliding_bound_from cs : forall s tl,
  good s ->
  (len (stamps s key) <= cap)%Z ->
  Forall (fun ts => ts <= tl)%Q (stamps s key) ->
  nondecreasing (tl :: map fst cs) ->
  exists answers s',
    run (total call) cs s = Ok (answers, s') /\
    (Z.of_nat (admitted_in key (T - w) T cs answers
               + count_after (T - w) (stamps s key)) <= cap)%Z.
Proof.
  induction cs as [|[now k] cs IH]; intros s tl Hgood Hlen Hold Hnd.
  - exists [], s. split; [reflexivity|].
    rewrite admitted_in_nil. pose proof (count_after_le (T - w) (stamps s key)).
    unfold len in Hlen. lia.
  - simpl in Hnd. destruct Hnd as [Hle Hnd].
    set (p := prune (now - w) (stamps s k)).
    pose proof (call_fst now k s Hgood) as Hfst.
    pose proof (call_stamps now k s Hgood) as Hst.
    fold p in Hfst, Hst.
    assert (Hold' : Forall (fun ts => ts <= now)%Q (stamps s key)).
    { eapply Forall_impl; [exact Hold|]. simpl. intros; lra. }
    destruct (decide (k = key)) as [->|Hne].
    + (* a call for the key under observation *)
      assert (Hp_len : (length p <= length (stamps s key))%nat)
        by (apply sublist_length, prune_sublist).
      assert (Hp_old : Forall (fun ts => ts <= now)%Q p)
        by (eapply Forall_sublist; [apply prune_sublist | exact Hold']).
      destruct (IH (snd (call now key s)) now) as (answers & s' & Hrun & Hb).
      { by apply call_good. }
      { rewrite Hst. destruct (Z.ltb_spec (len p) cap) as [Hlt|Hge].
        - unfold len in *. rewrite length_app. simpl. lia.
        - unfold len in *. lia. }
      { rewrite Hst. destruct (len p <? cap)%Z; [|exact Hp_old].
        apply Forall_app. split; [exact Hp_old|].
        constructor; [lra | constructor]. }
      { exact Hnd. }
      exists (fst (call now key s) :: answers), s'.
      split; [by apply run_total_cons|].
      rewrite admitted_in_cons, Hfst. rewrite Hst in Hb.
      rewrite bool_decide_eq_true_2 by reflexivity. rewrite andb_true_r.
      destruct (Qltb_spec (T - w) now) as [Hin|Hout].
      * destruct (Qleb_spec now T) as [HnT|HnT].
        -- assert (Hc : count_after (T - w) p = count_after (T - w) (stamps s key))
             by (apply prune_count; lra).
           destruct (len p <? cap)%Z; simpl.
           ++ rewrite count_after_app, Hc in Hb.
              assert (count_after (T - w) [now] = 1%nat) as Hone.
              { unfold count_after. simpl. unfold Qgtb.
                destruct (Qltb_spec (T - w) now); [done | lra]. }
              rewrite Hone in Hb. lia.
           ++ rewrite Hc in Hb. lia.
        -- rewrite andb_false_r. simpl.
           rewrite (admitted_in_late key (T - w) T now); [| lra | exact Hnd].
           pose proof (count_after_le (T - w) (stamps s key)).
           unfold len in Hlen. lia.
      * rewrite andb_false_r. simpl.
        rewrite (count_after_old (T - w) now); [lia | lra | exact Hold'].
    + (* a call for another key *)
      destruct (IH (snd (call now k s)) now) as (answers & s' & Hrun & Hb).
      { by apply call_good. }
      { by rewrite call_other. }
      { by rewrite call_other. }
      { exact Hnd. }
      exists (fst (call now k s) :: answers), s'.
      split; [by apply run_total_cons|].
      rewrite admitted_in_cons. rewrite call_other in Hb by done.
      rewrite bool_decide_eq_false_2 by done.
      rewrite andb_false_r. simpl. lia.
Qed.

End SlidingBound.

Lemma nondecreasing_head t ts :
  nondecreasing ts -> nondecreasing (default t (head ts) :: ts).
Proof. destruct ts as [|t' ts]; simpl; [done|]. intros H. split; [lra | exact H]. Qed.

Lemma solution_window_bound c w cs key T :
  (0 <= c)%Z -> nondecreasing (map fst cs) ->
  exists answers s',
    run (total Solution.is_allowed) cs (Solution.new c w) = Ok (answers, s') /\
    (Z.of_nat (admitted_in key (T - w) T cs answers) <= c)%Z.
Proof.
  intros Hc Hnd.
  destruct (sliding_bound_from Solution.is_allowed Solution.deque_of
              Solution.popleft_while c w
              (fun s => Solution.max_requests s = c /\ Solution.time_window s = w)
              popleft_while_sublist popleft_while_count) with
    (key := key) (T := T) (cs := cs) (s := Solution.new c w)
    (tl := default 0%Q (head (map fst cs)))
    as (answers & s' & Hrun & Hb).
  - intros now k s [H1 H2].
    destruct (solution_is_allowed_config now k s) as [-> ->]. done.
  - intros now k s [<- <-]. apply solution_is_allowed_fst.
  - intros now k s [<- <-]. apply solution_is_allowed_deque.
  - intros now k k' s Hne. unfold Solution.deque_of.
    by rewrite solution_is_allowed_other.
  - done.
  - unfold Solution.deque_of. simpl. rewrite lookup_empty. simpl. unfold len. simpl. lia.
  - unfold Solution.deque_of. simpl. rewrite lookup_empty. constructor.
  - by apply nondecreasing_head.
  - exists answers, s'. split; [done|]. lia.
Qed.

Lemma sliding_window_bound c w cs key T :
  (0 <= c)%Z -> nondecreasing (map fst cs) ->
  exists answers s',
    run (total SlidingWindow.allow_request) cs (SlidingWindow.new c w)
    = Ok (answers, s') /\
    (Z.of_nat (admitted_in key (T - w) T cs answers) <= c)%Z.
Proof.
  intros Hc Hnd.
  destruct (sliding_bound_from SlidingWindow.allow_request SlidingWindow.timestamps_of
              SlidingWindow.keep_after c w
              (fun s => SlidingWindow.limit s = c /\ SlidingWindow.window s = w)
              keep_after_sublist keep_after_count) with
    (key := key) (T := T) (cs := cs) (s := SlidingWindow.new c w)
    (tl := default 0%Q (head (map fst cs)))
    as (answers & s' & Hrun & Hb).
  - intros now k s [H1 H2].
    destruct (sliding_allow_request_config now k s) as [-> ->]. done.
  - intros now k s [<- <-]. apply sliding_allow_request_fst.
  - intros now k s [<- <-]. apply sliding_allow_request_timestamps.
  - intros now k k' s Hne. unfold SlidingWindow.timestamps_of.
    by rewrite sliding_allow_request_other.
  - done.
  - unfold SlidingWindow.timestamps_of. simpl. rewrite lookup_empty. simpl.
    unfold len. simpl. lia.
  - unfold SlidingWindow.timestamps_of. simpl. rewrite lookup_empty. constructor.
  - by apply nondecreasing_head.
  - exists answers, s'. split; [done|]. lia.
Qed.

(** ** Token bucket: one call *)

Lemma token_allow_request_fst now key self :
  fst (TokenBucket.allow_request now key self) =
  Qleb 1 (TokenBucket.refill self now (TokenBucket.buckets self !! key)).
Proof.
  unfold TokenBucket.allow_request, TokenBucket.refill.
  destruct (TokenBucket.buckets self !! key); simpl; by destruct (Qleb 1 _).
Qed.

Lemma token_allow_request_bucket now key self :
  let tk := TokenBucket.refill self now (TokenBucket.buckets self !! key) in
  TokenBucket.buckets (snd (TokenBucket.allow_request now key self)) !! key =
  Some (TokenBucket.mkBucket (if Qleb 1 tk then tk - 1 else tk)%Q now).
Proof.
  unfold TokenBucket.allow_request, TokenBucket.refill.
  destruct (TokenBucket.buckets self !! key); simpl;
    destruct (Qleb 1 _); simpl; by rewrite lookup_insert_eq.
Qed.

Lemma token_allow_request_other now key key' self :
  key <> key' ->
  TokenBucket.buckets (snd (TokenBucket.allow_request now key self)) !! key' =
  TokenBucket.buckets self !! key'.
Proof.
  intros Hne. unfold TokenBucket.allow_request.
  destruct (Qleb 1 _); simpl; by rewrite lookup_insert_ne.
Qed.

Lemma token_allow_request_config now key self :
  TokenBucket.limit (snd (TokenBucket.allow_request now key self))
  = TokenBucket.limit self /\
  TokenBucket.rate (snd (TokenBucket.allow_request now key self))
  = TokenBucket.rate self /\
  TokenBucket.window (snd (TokenBucket.allow_request now key self))
  = TokenBucket.window self.
Proof. unfold TokenBucket.allow_request. by destruct (Qleb 1 _). Qed.

Lemma py_min_le_l a b : (py_min a b <= a)%Q.
Proof. apply Q.le_min_l. Qed.

Lemma py_min_le_r a b : (py_min a b <= b)%Q.
Proof. apply Q.le_min_r. Qed.

Lemma py_min_glb a b c : (c <= a)%Q -> (c <= b)%Q -> (c <= py_min a b)%Q.
Proof. apply Q.min_glb. Qed.

Lemma run_total_ok {St : Type} (call : Q -> string -> St -> bool * St) cs :
  forall s, exists answers s', run (total call) cs s = Ok (answers, s').
Proof.
  induction cs as [|[now key] cs IH]; intros s.
  - by exists [], s.
  - destruct (IH (snd (call now key s))) as (answers & s' & H).
    eexists _, _. by apply run_total_cons.
Qed.

Lemma run_total_cons_inv {St : Type} (call : Q -> string -> St -> bool * St)
    now key cs s answers s' :
  run (total call) ((now, key) :: cs) s = Ok (answers, s') ->
  exists rest,
    answers = fst (call now key s) :: rest /\
    run (total call) cs (snd (call now key s)) = Ok (rest, s').
Proof.
  simpl. destruct (run_total_ok call cs (snd (call now key s))) as (rest & s1 & H).
  rewrite H. simpl. intros [= <- <-]. by exists rest.
Qed.

(** ** Token bucket: the refill step *)

Section TokenBound.
Variable c : Z.
Variable r : Q.
Hypothesis c_nonneg : (0 <= c)%Z.
Hypothesis r_nonneg : (0 <= r)%Q.

Local Abbreviation good := (TokenBucket.configured c r).

Lemma token_refill_bounds s now ob :
  good s ->
  match ob with
  | Some b => (0 <= TokenBucket.tokens b)%Q /\ (TokenBucket.last_update b <= now)%Q
  | None => True
  end ->
  let tk := TokenBucket.refill s now ob in
  (0 <= tk)%Q /\ (tk <= inject_Z c)%Q /\
  match ob with
  | Some b =>
      (tk <= TokenBucket.tokens b + (now - TokenBucket.last_update b) * r)%Q
  | None => True
  end.
Proof.
  intros [Hc Hr] Hb. unfold TokenBucket.refill. rewrite Hc, Hr.
  assert (0 <= inject_Z c)%Q as H0.
  { change 0%Q with (inject_Z 0). by rewrite <- Zle_Qle. }
  split; [|split].
  - apply py_min_glb; [done|]. destruct ob as [b|]; simpl.
    + destruct Hb as [Ht Hl]. nra.
    + nra.
  - apply py_min_le_l.
  - destruct ob as [b|]; [|done]. apply py_min_le_r.
Qed.

End TokenBound.

Lemma token_new_ok c w :
  ~ (w == 0)%Q ->
  TokenBucket.new c w
  = Ok (TokenBucket.mkRateLimiter c w (inject_Z c / w)%Q ∅).
Proof.
  intros Hw. unfold TokenBucket.new, py_div.
  destruct (Qeq_bool w 0) eqn:E; [|reflexivity].
  apply Qeq_bool_eq in E. contradiction.
Qed.

(** ** Fixed window: one call *)

Lemma py_div_ok a b : ~ (b == 0)%Q -> py_div a b = Ok (a / b)%Q.
Proof.
  intros Hb. unfold py_div. destruct (Qeq_bool b 0) eqn:E; [|reflexivity].
  apply Qeq_bool_eq in E. contradiction.
Qed.

Lemma py_div_zero a b : (b == 0)%Q -> py_div a b = Raise ZeroDivisionError.
Proof. intros Hb. unfold py_div. by rewrite (Qeq_eq_bool _ _ Hb). Qed.

Lemma fixed_allow_request_ok now key self :
  ~ (FixedWindow.window self == 0)%Q ->
  let uw := FixedWindow.rolled
              (FixedWindow.aligned self (now / FixedWindow.window self))
              (FixedWindow.windows self !! key) in
  let admits := (FixedWindow.count uw <? FixedWindow.limit self)%Z in
  FixedWindow.allow_request now key self =
  Ok (admits,
      FixedWindow.mkRateLimiter (FixedWindow.limit self) (FixedWindow.window self)
        (<[key := FixedWindow.mkWindow (FixedWindow.window_start uw)
                    (if admits then FixedWindow.count uw + 1
                     else FixedWindow.count uw)]>
           (FixedWindow.windows self))).
Proof.
  intros Hw. unfold FixedWindow.allow_request.
  rewrite (py_div_ok _ _ Hw). simpl.
  unfold FixedWindow.rolled, FixedWindow.aligned.
  destruct (FixedWindow.windows self !! key) as [uw|]; simpl;
    destruct (Qgtb _ _); simpl; destruct (_ <? _)%Z; try reflexivity.
  by destruct uw.
Qed.

Lemma fixed_allow_request_inv now key self b s' :
  FixedWindow.allow_request now key self = Ok (b, s') ->
  ~ (FixedWindow.window self == 0)%Q.
Proof.
  intros H Hw. unfold FixedWindow.allow_request in H.
  rewrite (py_div_zero _ _ Hw) in H. discriminate.
Qed.

(** ** Controllers with a capacity of zero or less *)

Lemma total_inv {St : Type} (call : Q -> string -> St -> bool * St)
    now key s b s' :
  total call now key s = Ok (b, s') ->
  b = fst (call now key s) /\ s' = snd (call now key s).
Proof. unfold total. intros [= H]. by rewrite H. Qed.

Lemma len_nonneg {A : Type} (l : list A) : (0 <= len l)%Z.
Proof. unfold len. lia. Qed.

Lemma solution_reachable_config c w s :
  reachable (total Solution.is_allowed) Solution.reset (Solution.new c w) s ->
  Solution.max_requests s = c /\ Solution.time_window s = w.
Proof.
  induction 1 as [|s now key b s' _ IH Hcall|s r _ IH].
  - done.
  - apply total_inv in Hcall as [_ ->].
    destruct (solution_is_allowed_config now key s) as [-> ->]. done.
  - destruct r as [k|]; simpl; [|done].
    by destruct (Solution.requests s !! k).
Qed.

Lemma solution_nonpositive_rejects c w s now key :
  (c <= 0)%Z ->
  reachable (total Solution.is_allowed) Solution.reset (Solution.new c w) s ->
  exists s', total Solution.is_allowed now key s = Ok (false, s').
Proof.
  intros Hc Hs. apply solution_reachable_config in Hs as [Hcap _].
  exists (snd (Solution.is_allowed now key s)). unfold total.
  rewrite (surjective_pairing (Solution.is_allowed now key s)) at 1.
  rewrite solution_is_allowed_fst, Hcap.
  set (p := Solution.popleft_while _ _). pose proof (len_nonneg p).
  by destruct (Z.ltb_spec (len p) c); [lia|].
Qed.

Lemma sliding_reachable_config c w s :
  reachable (total SlidingWindow.allow_request) SlidingWindow.reset
    (SlidingWindow.new c w) s ->
  SlidingWindow.limit s = c /\ SlidingWindow.window s = w.
Proof.
  induction 1 as [|s now key b s' _ IH Hcall|s r _ IH].
  - done.
  - apply total_inv in Hcall as [_ ->].
    destruct (sliding_allow_request_config now key s) as [-> ->]. done.
  - unfold SlidingWindow.reset. by destruct (SlidingWindow.requests s !! r).
Qed.

Lemma sliding_nonpositive_rejects c w s now key :
  (c <= 0)%Z ->
  reachable (total SlidingWindow.allow_request) SlidingWindow.reset
    (SlidingWindow.new c w) s ->
  exists s', total SlidingWindow.allow_request now key s = Ok (false, s').
Proof.
  intros Hc Hs. apply sliding_reachable_config in Hs as [Hcap _].
  exists (snd (SlidingWindow.allow_request now key s)). unfold total.
  rewrite (surjective_pairing (SlidingWindow.allow_request now key s)) at 1.
  rewrite sliding_allow_request_fst, Hcap.
  set (p := SlidingWindow.keep_after _ _). pose proof (len_nonneg p).
  by destruct (Z.ltb_spec (len p) c); [lia|].
Qed.

Lemma token_reachable_config rl s :
  reachable (total TokenBucket.allow_request) TokenBucket.reset rl s ->
  TokenBucket.limit s = TokenBucket.limit rl /\
  TokenBucket.rate s = TokenBucket.rate rl.
Proof.
  induction 1 as [|s now key b s' _ IH Hcall|s r _ IH].
  - done.
  - apply total_inv in Hcall as [_ ->].
    destruct (token_allow_request_config now key s) as (-> & -> & _). done.
  - unfold TokenBucket.reset. by destruct (TokenBucket.buckets s !! r).
Qed.

Lemma token_nonpositive_rejects c w :
  (c <= 0)%Z -> ~ (w == 0)%Q ->
  exists rl, TokenBucket.new c w = Ok rl /\
    forall s now key,
      reachable (total TokenBucket.allow_request) TokenBucket.reset rl s ->
      exists s', total TokenBucket.allow_request now key s = Ok (false, s').
Proof.
  intros Hc Hw. eexists. split; [by apply token_new_ok|].
  intros s now key Hs. apply token_reachable_config in Hs as [Hcap _].
  simpl in Hcap.
  exists (snd (TokenBucket.allow_request now key s)). unfold total.
  rewrite (surjective_pairing (TokenBucket.allow_request now key s)) at 1.
  rewrite token_allow_request_fst.
  set (tk := TokenBucket.refill _ _ _).
  assert (tk <= inject_Z c)%Q as Htk.
  { unfold tk, TokenBucket.refill. rewrite Hcap. apply py_min_le_l. }
  assert (inject_Z c <= 0)%Q as Hc0.
  { change 0%Q with (inject_Z 0). by rewrite <- Zle_Qle. }
  destruct (Qleb_spec 1 tk); [lra | done].
Qed.

Lemma fixed_rolled_nonneg ws ow :
  match ow with Some uw => (0 <= FixedWindow.count uw)%Z | None => True end ->
  (0 <= FixedWindow.count (FixedWindow.rolled ws ow))%Z.
Proof.
  unfold FixedWindow.rolled. destruct ow as [uw|]; simpl; intros H;
    destruct (Qgtb _ _); simpl; lia.
Qed.

Lemma fixed_reachable_inv c w s :
  reachable FixedWindow.allow_request FixedWindow.reset (FixedWindow.new c w) s ->
  FixedWindow.limit s = c /\ FixedWindow.window s = w /\ fixed_counts_nonneg s.
Proof.
  induction 1 as [|s now key b s' _ (IHc & IHw & IHn) Hcall|s r _ (IHc & IHw & IHn)].
  - repeat split. intros k uw. simpl. by rewrite lookup_empty.
  - pose proof (fixed_allow_request_inv _ _ _ _ _ Hcall) as Hw.
    rewrite (fixed_allow_request_ok now key s Hw) in Hcall.
    injection Hcall as _ <-. simpl. repeat split; [done | done |].
    intros k uw. simpl. destruct (decide (key = k)) as [->|Hne].
    + rewrite lookup_insert_eq. intros [= <-]. simpl.
      pose proof (fixed_rolled_nonneg
                    (FixedWindow.aligned s (now / FixedWindow.window s))
                    (FixedWindow.windows s !! k)) as Hr.
      destruct (_ <? _)%Z; (etrans; [apply Hr|]);
        try lia; destruct (FixedWindow.windows s !! k) eqn:E; eauto.
    + rewrite lookup_insert_ne by done. apply IHn.
  - unfold FixedWindow.reset. destruct (FixedWindow.windows s !! r) eqn:E; [|done].
    simpl. repeat split; [done | done |]. intros k uw. simpl.
    destruct (decide (r = k)) as [->|Hne].
    + by rewrite lookup_delete_eq.
    + rewrite lookup_delete_ne by done. apply IHn.
Qed.

Lemma fixed_nonpositive_rejects c w s now key :
  (c <= 0)%Z -> ~ (w == 0)%Q ->
  reachable FixedWindow.allow_request FixedWindow.reset (FixedWindow.new c w) s ->
  exists s', FixedWindow.allow_request now key s = Ok (false, s').
Proof.
  intros Hc Hw Hs. apply fixed_reachable_inv in Hs as (Hcap & Hwin & Hn).
  rewrite <- Hwin in Hw. rewrite (fixed_allow_request_ok now key s Hw).
  pose proof (fixed_rolled_nonneg
                (FixedWindow.aligned s (now / FixedWindow.window s))
                (FixedWindow.windows s !! key)) as Hr.
  assert (0 <= FixedWindow.count
                 (FixedWindow.rolled
                    (FixedWindow.aligned s (now / FixedWindow.window s))
                    (FixedWindow.windows s !! key)))%Z as H0.
  { apply Hr. destruct (FixedWindow.windows s !! key) eqn:E; eauto. }
  destruct (Z.ltb_spec
              (FixedWindow.count
                 (FixedWindow.rolled
                    (FixedWindow.aligned s (now / FixedWindow.window s))
                    (FixedWindow.windows s !! key)))
              (FixedWindow.limit s)); [lia|].
  eexists. reflexivity.
Qed.

(** ** solution.py: keys and resets *)

Lemma solution_deque_other now key key' self :
  key <> key' ->
  Solution.deque_of (snd (Solution.is_allowed now key self)) key' =
  Solution.deque_of self key'.
Proof.
  intros Hne. unfold Solution.deque_of. by rewrite solution_is_allowed_other.
Qed.

Lemma solution_is_allowed_same_view now key s1 s2 :
  Solution.same_view s1 s2 ->
  fst (Solution.is_allowed now key s1) = fst (Solution.is_allowed now key s2) /\
  Solution.same_view (snd (Solution.is_allowed now key s1))
                     (snd (Solution.is_allowed now key s2)).
Proof.
  intros (Hc & Hw & Hv). split.
  - by rewrite !solution_is_allowed_fst, Hc, Hw, Hv.
  - destruct (solution_is_allowed_config now key s1) as [Hc1 Hw1].
    destruct (solution_is_allowed_config now key s2) as [Hc2 Hw2].
    repeat split; [congruence | congruence |]. intros k.
    destruct (decide (key = k)) as [<-|Hne].
    + pose proof (solution_is_allowed_deque now key s1) as H1.
      pose proof (solution_is_allowed_deque now key s2) as H2.
      simpl in H1, H2. by rewrite H1, H2, Hc, Hw, Hv.
    + by rewrite !solution_deque_other.
Qed.

Lemma solution_reset_deque key self k :
  Solution.deque_of (Solution.reset (Some key) self) k =
  if decide (key = k) then [] else Solution.deque_of self k.
Proof.
  unfold Solution.reset, Solution.deque_of.
  destruct (Solution.requests self !! key) eqn:E; simpl.
  - destruct (decide (key = k)) as [<-|Hne].
    + by rewrite lookup_insert_eq.
    + by rewrite lookup_insert_ne.
  - destruct (decide (key = k)) as [<-|Hne]; [by rewrite E | done].
Qed.

Lemma solution_reset_config r self :
  Solution.max_requests (Solution.reset r self) = Solution.max_requests self /\
  Solution.time_window (Solution.reset r self) = Solution.time_window self.
Proof.
  destruct r as [k|]; simpl; [|done].
  by destruct (Solution.requests self !! k).
Qed.

Lemma solution_reset_same_view r s1 s2 :
  Solution.same_view s1 s2 ->
  Solution.same_view (Solution.reset r s1) (Solution.reset r s2).
Proof.
  intros (Hc & Hw & Hv).
  destruct (solution_reset_config r s1) as [Hc1 Hw1].
  destruct (solution_reset_config r s2) as [Hc2 Hw2].
  repeat split; [congruence | congruence |]. intros k.
  destruct r as [key|].
  - rewrite !solution_reset_deque. by destruct (decide (key = k)).
  - unfold Solution.deque_of. simpl. by rewrite !lookup_empty.
Qed.

Lemma solution_exec_same_view ops : forall s1 s2,
  Solution.same_view s1 s2 ->
  fst (Solution.exec ops s1) = fst (Solution.exec ops s2).
Proof.
  induction ops as [|[now key|r] ops IH]; intros s1 s2 Hv; simpl.
  - done.
  - destruct (solution_is_allowed_same_view now key s1 s2 Hv) as [-> Hv'].
    f_equal. by apply IH.
  - apply IH. by apply solution_reset_same_view.
Qed.

Lemma solution_reset_never_seen key self :
  Solution.same_view (Solution.reset (Some key) self)
                     (Solution.never_seen key self).
Proof.
  destruct (solution_reset_config (Some key) self) as [Hc Hw].
  repeat split; [done | done |]. intros k.
  rewrite solution_reset_deque. unfold Solution.deque_of, Solution.never_seen. simpl.
  destruct (decide (key = k)) as [<-|Hne].
  - by rewrite lookup_delete_eq.
  - by rewrite lookup_delete_ne.
Qed.

Lemma solution_reset_other key key' self :
  key <> key' ->
  Solution.requests (Solution.reset (Some key) self) !! key' =
  Solution.requests self !! key'.
Proof.
  intros Hne. unfold Solution.reset.
  destruct (Solution.requests self !! key); simpl; [|done].
  by rewrite lookup_insert_ne.
Qed.

Lemma solution_reset_unknown key self :
  Solution.requests self !! key = None ->
  Solution.reset (Some key) self = self.
Proof. intros H. unfold Solution.reset. by rewrite H. Qed.

Lemma sliding_reset_delete key self :
  SlidingWindow.reset key self =
  SlidingWindow.mkRateLimiter (SlidingWindow.limit self) (SlidingWindow.window self)
    (delete key (SlidingWindow.requests self)).
Proof.
  unfold SlidingWindow.reset.
  destruct (SlidingWindow.requests self !! key) eqn:E; [done|].
  rewrite delete_id by done. by destruct self.
Qed.

Lemma sliding_reset_unknown key self :
  SlidingWindow.requests self !! key = None ->
  SlidingWindow.reset key self = self.
Proof. intros H. unfold SlidingWindow.reset. by rewrite H. Qed.

(** ** Bursts: several calls for one key at one instant *)

Lemma run_app {St : Type} (call : Q -> string -> St -> result (bool * St))
    cs1 cs2 s a1 s1 a2 s2 :
  run call cs1 s = Ok (a1, s1) ->
  run call cs2 s1 = Ok (a2, s2) ->
  run call (cs1 ++ cs2) s = Ok (a1 ++ a2, s2).
Proof.
  revert s a1. induction cs1 as [|[now key] cs1 IH]; intros s a1 H1 H2.
  - injection H1 as <- <-. exact H2.
  - simpl in H1 |- *. destruct (call now key s) as [[b s0]|e]; [|discriminate].
    simpl in H1 |- *. destruct (run call cs1 s0) as [[a s']|e] eqn:E; [|discriminate].
    simpl in H1. injection H1 as <- <-.
    by rewrite (IH s0 a E H2).
Qed.

Lemma popleft_while_later cutoff l :
  Forall (fun ts => cutoff < ts)%Q l -> Solution.popleft_while cutoff l = l.
Proof.
  destruct 1 as [|x l Hx _]; simpl; [done|].
  destruct (Qleb_spec x cutoff); [lra | done].
Qed.

Lemma keep_after_later cutoff l :
  Forall (fun ts => cutoff < ts)%Q l -> SlidingWindow.keep_after cutoff l = l.
Proof.
  unfold SlidingWindow.keep_after. induction 1 as [|x l Hx _ IH]; simpl; [done|].
  change (Qgtb x cutoff) with (Qltb cutoff x).
  destruct (Qltb_spec cutoff x); [by rewrite IH | lra].
Qed.

Section SlidingBurst.
Context {St : Type}.
Variable call : Q -> string -> St -> bool * St.
Variable stamps : St -> string -> list Q.
Variable prune : Q -> list Q -> list Q.
Variable cap : Z.
Variable w : Q.
Variable good : St -> Prop.

Hypothesis prune_later : forall c l,
  Forall (fun ts => c < ts)%Q l -> prune c l = l.
Hypothesis call_good : forall now k s, good s -> good (snd (call now k s)).
Hypothesis call_fst : forall now k s, good s ->
  fst (call now k s) = (len (prune (now - w) (stamps s k)) <? cap)%Z.
Hypothesis call_stamps : forall now k s, good s ->
  stamps (snd (call now k s)) k =
  if (len (prune (now - w) (stamps s k)) <? cap)%Z
  then prune (now - w) (stamps s k) ++ [now]
  else prune (now - w) (stamps s k).
Hypothesis call_other : forall now k k' s,
  k <> k' -> stamps (snd (call now k s)) k' = stamps s k'.

Variable key : string.
Variable now : Q.

(** While there is room, every call of the burst is admitted and stamped. *)
Lemma burst_admitted n : forall s,
  good s -> (0 < w)%Q ->
  Forall (fun ts => now - w < ts)%Q (stamps s key) ->
  (len (stamps s key) + Z.of_nat n <= cap)%Z ->
  exists s',
    run (total call) (burst n now key) s = Ok (replicate n true, s') /\
    good s' /\
    stamps s' key = stamps s key ++ replicate n now /\
    forall k', key <> k' -> stamps s' k' = stamps s k'.
Proof.
  induction n as [|n IH]; intros s Hgood Hw Hl Hroom.
  - exists s. by rewrite app_nil_r.
  - pose proof (call_fst now key s Hgood) as Hfst.
    pose proof (call_stamps now key s Hgood) as Hst.
    rewrite (prune_later _ _ Hl) in Hfst, Hst.
    assert ((len (stamps s key) <? cap)%Z = true) as Hadm
      by (apply Z.ltb_lt; lia).
    rewrite Hadm in Hfst, Hst.
    destruct (IH (snd (call now key s))) as (s' & Hrun & Hgood' & Hst' & Hoth).
    + by apply call_good.
    + done.
    + rewrite Hst. apply Forall_app. split; [done|].
      constructor; [lra | constructor].
    + rewrite Hst. unfold len in *. rewrite length_app. simpl. lia.
    + exists s'. split; [|split; [done|split]].
      * change (burst (S n) now key) with ((now, key) :: burst n now key).
        rewrite (run_total_cons call now key _ s _ s' Hrun). by rewrite Hfst.
      * rewrite Hst', Hst, <- app_assoc. reflexivity.
      * intros k' Hne. rewrite Hoth by done. by apply call_other.
Qed.

(** Once the key is at capacity, every call of the burst is rejected and
    nothing is recorded. *)
Lemma burst_rejected n : forall s,
  good s ->
  Forall (fun ts => now - w < ts)%Q (stamps s key) ->
  (cap <= len (stamps s key))%Z ->
  exists s',
    run (total call) (burst n now key) s = Ok (replicate n false, s') /\
    good s' /\
    stamps s' key = stamps s key /\
    forall k', key <> k' -> stamps s' k' = stamps s k'.
Proof.
  induction n as [|n IH]; intros s Hgood Hl Hfull.
  - by exists s.
  - pose proof (call_fst now key s Hgood) as Hfst.
    pose proof (call_stamps now key s Hgood) as Hst.
    rewrite (prune_later _ _ Hl) in Hfst, Hst.
    assert ((len (stamps s key) <? cap)%Z = false) as Hrej
      by (apply Z.ltb_ge; lia).
    rewrite Hrej in Hfst, Hst.
    destruct (IH (snd (call now key s))) as (s' & Hrun & Hgood' & Hst' & Hoth).
    + by apply call_good.
    + by rewrite Hst.
    + by rewrite Hst.
    + exists s'. split; [|split; [done|split]].
      * change (burst (S n) now key) with ((now, key) :: burst n now key).
        rewrite (run_total_cons call now key _ s _ s' Hrun). by rewrite Hfst.
      * by rewrite Hst', Hst.
      * intros k' Hne. rewrite Hoth by done. by apply call_other.
Qed.

End SlidingBurst.

Lemma solution_burst_admitted now key n s :
  (0 < Solution.time_window s)%Q ->
  Forall (fun ts => now - Solution.time_window s < ts)%Q (Solution.deque_of s key) ->
  (len (Solution.deque_of s key) + Z.of_nat n <= Solution.max_requests s)%Z ->
  exists s',
    run (total Solution.is_allowed) (burst n now key) s = Ok (replicate n true, s') /\
    (Solution.max_requests s' = Solution.max_requests s /\
     Solution.time_window s' = Solution.time_window s) /\
    Solution.deque_of s' key = Solution.deque_of s key ++ replicate n now /\
    forall k', key <> k' -> Solution.deque_of s' k' = Solution.deque_of s k'.
Proof.
  intros Hw Hl Hroom.
  apply (burst_admitted Solution.is_allowed Solution.deque_of
           Solution.popleft_while (Solution.max_requests s) (Solution.time_window s)
           (fun x => Solution.max_requests x = Solution.max_requests s /\
                     Solution.time_window x = Solution.time_window s));
    try done.
  - apply popleft_while_later.
  - intros t k x [H1 H2].
    destruct (solution_is_allowed_config t k x) as [-> ->]. done.
  - intros t k x [<- <-]. apply solution_is_allowed_fst.
  - intros t k x [<- <-]. apply solution_is_allowed_deque.
  - intros t k k' x Hne. by apply solution_deque_other.
Qed.

Lemma solution_burst_rejected now key n s :
  Forall (fun ts => now - Solution.time_window s < ts)%Q (Solution.deque_of s key) ->
  (Solution.max_requests s <= len (Solution.deque_of s key))%Z ->
  exists s',
    run (total Solution.is_allowed) (burst n now key) s = Ok (replicate n false, s') /\
    (Solution.max_requests s' = Solution.max_requests s /\
     Solution.time_window s' = Solution.time_window s) /\
    Solution.deque_of s' key = Solution.deque_of s key /\
    forall k', key <> k' -> Solution.deque_of s' k' = Solution.deque_of s k'.
Proof.
  intros Hl Hfull.
  apply (burst_rejected Solution.is_allowed Solution.deque_of
           Solution.popleft_while (Solution.max_requests s) (Solution.time_window s)
           (fun x => Solution.max_requests x = Solution.max_requests s /\
                     Solution.time_window x = Solution.time_window s));
    try done.
  - apply popleft_while_later.
  - intros t k x [H1 H2].
    destruct (solution_is_allowed_config t k x) as [-> ->]. done.
  - intros t k x [<- <-]. apply solution_is_allowed_fst.
  - intros t k x [<- <-]. apply solution_is_allowed_deque.
  - intros t k k' x Hne. by apply solution_deque_other.
Qed.

Lemma sliding_timestamps_other now key key' self :
  key <> key' ->
  SlidingWindow.timestamps_of (snd (SlidingWindow.allow_request now key self)) key' =
  SlidingWindow.timestamps_of self key'.
Proof.
  intros Hne. unfold SlidingWindow.timestamps_of.
  by rewrite sliding_allow_request_other.
Qed.

Lemma sliding_burst_admitted now key n s :
  (0 < SlidingWindow.window s)%Q ->
  Forall (fun ts => now - SlidingWindow.window s < ts)%Q
         (SlidingWindow.timestamps_of s key) ->
  (len (SlidingWindow.timestamps_of s key) + Z.of_nat n <= SlidingWindow.limit s)%Z ->
  exists s',
    run (total SlidingWindow.allow_request) (burst n now key) s
    = Ok (replicate n true, s') /\
    (SlidingWindow.limit s' = SlidingWindow.limit s /\
     SlidingWindow.window s' = SlidingWindow.window s) /\
    SlidingWindow.timestamps_of s' key
    = SlidingWindow.timestamps_of s key ++ replicate n now /\
    forall k', key <> k' ->
      SlidingWindow.timestamps_of s' k' = SlidingWindow.timestamps_of s k'.
Proof.
  intros Hw Hl Hroom.
  apply (burst_admitted SlidingWindow.allow_request SlidingWindow.timestamps_of
           SlidingWindow.keep_after (SlidingWindow.limit s) (SlidingWindow.window s)
           (fun x => SlidingWindow.limit x = SlidingWindow.limit s /\
                     SlidingWindow.window x = SlidingWindow.window s));
    try done.
  - apply keep_after_later.
  - intros t k x [H1 H2].
    destruct (sliding_allow_request_config t k x) as [-> ->]. done.
  - intros t k x [<- <-]. apply sliding_allow_request_fst.
  - intros t k x [<- <-]. apply sliding_allow_request_timestamps.
  - intros t k k' x Hne. by apply sliding_timestamps_other.
Qed.

Lemma sliding_burst_rejected now key n s :
  Forall (fun ts => now - SlidingWindow.window s < ts)%Q
         (SlidingWindow.timestamps_of s key) ->
  (SlidingWindow.limit s <= len (SlidingWindow.timestamps_of s key))%Z ->
  exists s',
    run (total SlidingWindow.allow_request) (burst n now key) s
    = Ok (replicate n false, s') /\
    (SlidingWindow.limit s' = SlidingWindow.limit s /\
     SlidingWindow.window s' = SlidingWindow.window s) /\
    SlidingWindow.timestamps_of s' key = SlidingWindow.timestamps_of s key /\
    forall k', key <> k' ->
      SlidingWindow.timestamps_of s' k' = SlidingWindow.timestamps_of s k'.
Proof.
  intros Hl Hfull.
  apply (burst_rejected SlidingWindow.allow_request SlidingWindow.timestamps_of
           SlidingWindow.keep_after (SlidingWindow.limit s) (SlidingWindow.window s)
           (fun x => SlidingWindow.limit x = SlidingWindow.limit s /\
                     SlidingWindow.window x = SlidingWindow.window s));
    try done.
  - apply keep_after_later.
  - intros t k x [H1 H2].
    destruct (sliding_allow_request_config t k x) as [-> ->]. done.
  - intros t k x [<- <-]. apply sliding_allow_request_fst.
  - intros t k x [<- <-]. apply sliding_allow_request_timestamps.
  - intros t k k' x Hne. by apply sliding_timestamps_other.
Qed.

(** Scenario D on the two sliding windows: a full burst, then another one
    three quarters of a window later. *)
Lemma solution_scenario_D t0 key :
  exists s',
    run (total Solution.is_allowed)
        (burst 5 t0 key ++ burst 5 (t0 + (3 # 2)) key) (Solution.new 5 2)
    = Ok (replicate 5 true ++ replicate 5 false, s').
Proof.
  destruct (solution_burst_admitted t0 key 5 (Solution.new 5 2))
    as (s1 & Hrun1 & [Hc1 Hw1] & Hd1 & _); [done | constructor | done |].
  destruct (solution_burst_rejected (t0 + (3 # 2)) key 5 s1)
    as (s2 & Hrun2 & _).
  - rewrite Hd1, Hw1. simpl. repeat constructor; lra.
  - rewrite Hd1, Hc1. done.
  - exists s2. by apply (run_app _ _ _ _ _ s1).
Qed.

Lemma sliding_scenario_D t0 key :
  exists s',
    run (total SlidingWindow.allow_request)
        (burst 5 t0 key ++ burst 5 (t0 + (3 # 2)) key) (SlidingWindow.new 5 2)
    = Ok (replicate 5 true ++ replicate 5 false, s').
Proof.
  destruct (sliding_burst_admitted t0 key 5 (SlidingWindow.new 5 2))
    as (s1 & Hrun1 & [Hc1 Hw1] & Hd1 & _); [done | constructor | done |].
  destruct (sliding_burst_rejected (t0 + (3 # 2)) key 5 s1)
    as (s2 & Hrun2 & _).
  - rewrite Hd1, Hw1. simpl. repeat constructor; lra.
  - rewrite Hd1, Hc1. done.
  - exists s2. by apply (run_app _ _ _ _ _ s1).
Qed.

(** ** Fixed window: bursts *)

Lemma py_int_small q : (0 <= q)%Q -> (q < 1)%Q -> py_int q = 0%Z.
Proof.
  unfold Qle, Qlt, py_int. simpl. intros H0 H1.
  apply Z.quot_small. lia.
Qed.

Lemma py_int_one q : (q == 1)%Q -> py_int q = 1%Z.
Proof.
  unfold Qeq, py_int. simpl. intros H.
  replace (Qnum q) with (Z.pos (Qden q)) by lia.
  by apply Z.quot_same.
Qed.

Lemma fixed_rolled_again ws ow cnt :
  FixedWindow.rolled ws
    (Some (FixedWindow.mkWindow
             (FixedWindow.window_start (FixedWindow.rolled ws ow)) cnt))
  = FixedWindow.mkWindow (FixedWindow.window_start (FixedWindow.rolled ws ow)) cnt.
Proof.
  unfold FixedWindow.rolled at 1. simpl.
  assert (Qgtb ws (FixedWindow.window_start (FixedWindow.rolled ws ow)) = false)
    as ->; [|done].
  unfold FixedWindow.rolled.
  destruct (Qgtb ws (FixedWindow.window_start
                       (default (FixedWindow.mkWindow ws 0) ow))) eqn:E; simpl.
  - apply Qgtb_false. lra.
  - exact E.
Qed.

Lemma fixed_rolled_idem ws ow :
  FixedWindow.rolled ws (Some (FixedWindow.rolled ws ow)) = FixedWindow.rolled ws ow.
Proof.
  pose proof (fixed_rolled_again ws ow (FixedWindow.count (FixedWindow.rolled ws ow)))
    as H.
  by destruct (FixedWindow.rolled ws ow).
Qed.

Lemma fixed_burst_admitted now key n : forall s uw,
  ~ (FixedWindow.window s == 0)%Q ->
  FixedWindow.rolled (FixedWindow.aligned s (now / FixedWindow.window s))
    (FixedWindow.windows s !! key) = uw ->
  (FixedWindow.count uw + Z.of_nat n <= FixedWindow.limit s)%Z ->
  exists s',
    run FixedWindow.allow_request (burst n now key) s = Ok (replicate n true, s') /\
    (FixedWindow.limit s' = FixedWindow.limit s /\
     FixedWindow.window s' = FixedWindow.window s) /\
    FixedWindow.windows s' !! key =
    match n with
    | O => FixedWindow.windows s !! key
    | S _ => Some (FixedWindow.mkWindow (FixedWindow.window_start uw)
                     (FixedWindow.count uw + Z.of_nat n))
    end.
Proof.
  induction n as [|n IH]; intros s uw Hw Huw Hroom.
  - by exists s.
  - pose proof (fixed_allow_request_ok now key s Hw) as Hcall. simpl in Hcall.
    rewrite Huw in Hcall.
    assert ((FixedWindow.count uw <? FixedWindow.limit s)%Z = true) as Hadm
      by (apply Z.ltb_lt; lia).
    rewrite Hadm in Hcall.
    set (s1 := FixedWindow.mkRateLimiter _ _ _) in Hcall.
    destruct (IH s1 (FixedWindow.mkWindow (FixedWindow.window_start uw)
                       (FixedWindow.count uw + 1)))
      as (s' & Hrun & [Hc Hwin] & Hlook).
    + done.
    + unfold s1 at 2. simpl. rewrite lookup_insert_eq.
      unfold FixedWindow.aligned. simpl. rewrite <- Huw.
      apply fixed_rolled_again.
    + simpl. lia.
    + exists s'. split; [|split; [done|]].
      * change (burst (S n) now key) with ((now, key) :: burst n now key).
        simpl. rewrite Hcall. simpl. by rewrite Hrun.
      * rewrite Hlook. destruct n; simpl.
        -- by rewrite lookup_insert_eq.
        -- do 2 f_equal. lia.
Qed.

Lemma fixed_burst_rejected now key n : forall s uw,
  ~ (FixedWindow.window s == 0)%Q ->
  FixedWindow.rolled (FixedWindow.aligned s (now / FixedWindow.window s))
    (FixedWindow.windows s !! key) = uw ->
  (FixedWindow.limit s <= FixedWindow.count uw)%Z ->
  exists s',
    run FixedWindow.allow_request (burst n now key) s = Ok (replicate n false, s') /\
    (FixedWindow.limit s' = FixedWindow.limit s /\
     FixedWindow.window s' = FixedWindow.window s) /\
    FixedWindow.windows s' !! key =
    match n with
    | O => FixedWindow.windows s !! key
    | S _ => Some uw
    end.
Proof.
  induction n as [|n IH]; intros s uw Hw Huw Hfull.
  - by exists s.
  - pose proof (fixed_allow_request_ok now key s Hw) as Hcall. simpl in Hcall.
    rewrite Huw in Hcall.
    assert ((FixedWindow.count uw <? FixedWindow.limit s)%Z = false) as Hrej
      by (apply Z.ltb_ge; lia).
    rewrite Hrej in Hcall.
    set (s1 := FixedWindow.mkRateLimiter _ _ _) in Hcall.
    assert (FixedWindow.mkWindow (FixedWindow.window_start uw) (FixedWindow.count uw)
            = uw) as Heta by (by destruct uw).
    destruct (IH s1 uw) as (s' & Hrun & [Hc Hwin] & Hlook).
    + done.
    + unfold s1 at 2. simpl. rewrite lookup_insert_eq, Heta.
      rewrite <- Huw. apply fixed_rolled_idem.
    + done.
    + exists s'. split; [|split; [done|]].
      * change (burst (S n) now key) with ((now, key) :: burst n now key).
        simpl. rewrite Hcall. simpl. by rewrite Hrun.
      * rewrite Hlook. destruct n; simpl; [|done].
        by rewrite lookup_insert_eq, Heta.
Qed.

Lemma fixed_rolled_none ws :
  FixedWindow.rolled ws None = FixedWindow.mkWindow ws 0.
Proof. unfold FixedWindow.rolled. simpl. by destruct (Qgtb ws ws). Qed.

Lemma Qgtb_scaled a b w :
  (0 < w)%Q -> Qgtb (inject_Z a * w) (inject_Z b * w) = (b <? a)%Z.
Proof.
  intros Hw. destruct (Z.ltb_spec b a) as [Hlt|Hge].
  - apply Qgtb_true. apply Qmult_lt_compat_r; [done|]. by rewrite <- Zlt_Qlt.
  - apply Qgtb_false. apply Qmult_le_compat_r; [|lra]. by rewrite <- Zle_Qle.
Qed.

(** Scenario D on the fixed window: the second burst is admitted in full
    exactly when it falls in a later aligned window than the first. *)
Lemma fixed_scenario_D t0 key :
  exists s',
    run FixedWindow.allow_request
        (burst 5 t0 key ++ burst 5 (t0 + (3 # 2)) key) (FixedWindow.new 5 2)
    = Ok (replicate 5 true
          ++ replicate 5 (py_int (t0 / 2) <? py_int ((t0 + (3 # 2)) / 2))%Z, s').
Proof.
  assert (Hw : ~ (2 == 0)%Q) by done.
  destruct (fixed_burst_admitted t0 key 5 (FixedWindow.new 5 2) _ Hw eq_refl)
    as (s1 & Hrun1 & [Hc1 Hw1] & Hl1).
  { cbn [FixedWindow.new FixedWindow.windows]. rewrite lookup_empty, fixed_rolled_none. simpl. lia. }
  cbn [FixedWindow.new FixedWindow.windows] in Hl1.
  rewrite lookup_empty, fixed_rolled_none in Hl1.
  unfold FixedWindow.aligned in Hl1.
  cbn [FixedWindow.window_start FixedWindow.count FixedWindow.new
       FixedWindow.window FixedWindow.limit] in Hl1, Hc1, Hw1.
  assert (Hw' : ~ (FixedWindow.window s1 == 0)%Q) by (by rewrite Hw1).
  pose proof (Qgtb_scaled (py_int ((t0 + (3 # 2)) / 2)) (py_int (t0 / 2)) 2 eq_refl)
    as Hcmp.
  destruct (py_int (t0 / 2) <? py_int ((t0 + (3 # 2)) / 2))%Z eqn:E.
  - destruct (fixed_burst_admitted (t0 + (3 # 2)) key 5 s1 _ Hw' eq_refl)
      as (s2 & Hrun2 & _).
    { rewrite Hl1. unfold FixedWindow.rolled, FixedWindow.aligned.
      cbn [from_option id FixedWindow.window_start]. rewrite !Hw1, Hc1, Hcmp. simpl. lia. }
    exists s2. by apply (run_app _ _ _ _ _ s1).
  - destruct (fixed_burst_rejected (t0 + (3 # 2)) key 5 s1 _ Hw' eq_refl)
      as (s2 & Hrun2 & _).
    { rewrite Hl1. unfold FixedWindow.rolled, FixedWindow.aligned.
      cbn [from_option id FixedWindow.window_start]. rewrite !Hw1, Hc1, Hcmp. simpl. lia. }
    exists s2. by apply (run_app _ _ _ _ _ s1).
Qed.

(** The boundary burst: [c] calls just before a window boundary and [c]
    calls on it are all admitted, however close together they are. *)
Lemma fixed_boundary_burst (c : nat) (w eps : Q) key :
  (0 < eps)%Q -> (eps <= w)%Q ->
  exists s',
    run FixedWindow.allow_request
        (burst c (w - eps) key ++ burst c w key) (FixedWindow.new (Z.of_nat c) w)
    = Ok (replicate (c + c) true, s').
Proof.
  intros Heps Hle.
  assert (Hpos : (0 < w)%Q) by lra.
  assert (Hw : ~ (w == 0)%Q) by (intros E; rewrite E in Hpos; lra).
  destruct c as [|c]; [by eexists|].
  assert (H0 : py_int ((w - eps) / w) = 0%Z).
  { apply py_int_small.
    - apply Qle_shift_div_l; [done | lra].
    - apply Qlt_shift_div_r; [done | lra]. }
  assert (H1 : py_int (w / w) = 1%Z).
  { apply py_int_one. by field. }
  destruct (fixed_burst_admitted (w - eps) key (S c)
              (FixedWindow.new (Z.of_nat (S c)) w) _ Hw eq_refl)
    as (s1 & Hrun1 & [Hc1 Hw1] & Hl1).
  { cbn [FixedWindow.new FixedWindow.windows]. rewrite lookup_empty, fixed_rolled_none. simpl. lia. }
  cbn [FixedWindow.new FixedWindow.windows] in Hl1.
  rewrite lookup_empty, fixed_rolled_none in Hl1.
  unfold FixedWindow.aligned in Hl1.
  cbn [FixedWindow.window_start FixedWindow.count FixedWindow.new
       FixedWindow.window FixedWindow.limit] in Hl1, Hc1, Hw1.
  rewrite H0 in Hl1.
  assert (Hw' : ~ (FixedWindow.window s1 == 0)%Q) by (by rewrite Hw1).
  destruct (fixed_burst_admitted w key (S c) s1 _ Hw' eq_refl)
    as (s2 & Hrun2 & _).
  { rewrite Hl1. unfold FixedWindow.rolled, FixedWindow.aligned.
    cbn [from_option id FixedWindow.window_start].
    rewrite !Hw1, Hc1, H1, (Qgtb_scaled 1 0 w Hpos). simpl. lia. }
  exists s2. rewrite replicate_add. by apply (run_app _ _ _ _ _ s1).
Qed.

(** ** Token bucket: bursts *)

Lemma Qleb_compat a b c d : (a == b)%Q -> (c == d)%Q -> Qleb a c = Qleb b d.
Proof. intros H1 H2. unfold Qleb. by rewrite H1, H2. Qed.

Lemma token_refill_same_instant s now x b :
  (TokenBucket.tokens b == x)%Q -> TokenBucket.last_update b = now ->
  (x <= inject_Z (TokenBucket.limit s))%Q ->
  (TokenBucket.refill s now (Some b) == x)%Q.
Proof.
  intros Hx Hl Hle. unfold TokenBucket.refill, py_min. simpl. rewrite Hl.
  rewrite Q.min_r.
  - rewrite Hx. ring.
  - rewrite Hx. ring_simplify. lra.
Qed.

Lemma token_burst now key n : forall s y,
  (TokenBucket.refill s now (TokenBucket.buckets s !! key) == y)%Q ->
  (y <= inject_Z (TokenBucket.limit s))%Q ->
  exists s',
    run (total TokenBucket.allow_request) (burst n now key) s
    = Ok (TokenBucket.drain y n, s') /\
    (TokenBucket.limit s' = TokenBucket.limit s /\
     TokenBucket.rate s' = TokenBucket.rate s) /\
    match n with
    | O => TokenBucket.buckets s' !! key = TokenBucket.buckets s !! key
    | S _ => exists b',
        TokenBucket.buckets s' !! key = Some b' /\
        (TokenBucket.tokens b' == TokenBucket.drained y n)%Q /\
        TokenBucket.last_update b' = now
    end.
Proof.
  induction n as [|n IH]; intros s y Hy Hle.
  - by exists s.
  - pose proof (token_allow_request_fst now key s) as Hfst.
    pose proof (token_allow_request_bucket now key s) as Hb. simpl in Hb.
    destruct (token_allow_request_config now key s) as (Hc & Hr & _).
    set (tk := TokenBucket.refill s now (TokenBucket.buckets s !! key)) in *.
    set (s1 := snd (TokenBucket.allow_request now key s)) in *.
    rewrite (Qleb_compat 1 1 tk y) in Hfst, Hb by done.
    set (y1 := (if Qleb 1 y then y - 1 else y)%Q).
    destruct (IH s1 y1) as (s' & Hrun & [Hc' Hr'] & Hfin).
    + rewrite Hb. apply token_refill_same_instant; [| done |].
      * unfold y1. simpl. destruct (Qleb 1 y); by rewrite Hy.
      * rewrite Hc. unfold y1. destruct (Qleb 1 y); lra.
    + rewrite Hc. unfold y1. destruct (Qleb 1 y); lra.
    + exists s'. split; [|split; [split; congruence|]].
      * change (burst (S n) now key) with ((now, key) :: burst n now key).
        rewrite (run_total_cons TokenBucket.allow_request now key _ s _ s' Hrun).
        rewrite Hfst. simpl. unfold y1. by destruct (Qleb 1 y).
      * destruct n as [|n].
        -- rewrite Hfin, Hb. eexists. split; [done|]. simpl. split; [|done].
           destruct (Qleb 1 y); by rewrite Hy.
        -- destruct Hfin as (b' & Hb' & Ht & Hl). exists b'.
           split; [done|]. split; [|done]. rewrite Ht. unfold y1.
           change (TokenBucket.drained y (S (S n))) with
             (if Qleb 1 y then TokenBucket.drained (y - 1) (S n)
              else TokenBucket.drained y (S n)).
           destruct (Qleb 1 y); reflexivity.
Qed.

(** Scenario D on the token bucket: the first burst empties the bucket,
    3.75 tokens accrue in 1.5 s, and three calls of the second burst are
    admitted. *)
Lemma token_scenario_D t0 key :
  exists rl s',
    TokenBucket.new 5 2 = Ok rl /\
    run (total TokenBucket.allow_request)
        (burst 5 t0 key ++ burst 5 (t0 + (3 # 2)) key) rl
    = Ok (replicate 5 true ++ [true; true; true; false; false], s').
Proof.
  set (rl := TokenBucket.mkRateLimiter 5 2 (inject_Z 5 / 2) ∅).
  destruct (token_burst t0 key 5 rl 5) as (s1 & Hrun1 & [Hc1 Hr1] & b1 & Hb1 & Ht1 & Hl1).
  { unfold TokenBucket.refill, py_min. simpl. rewrite lookup_empty. simpl.
    rewrite Q.min_l; [reflexivity|]. ring_simplify. lra. }
  { done. }
  assert (Ht0 : (TokenBucket.tokens b1 == 0)%Q) by (by rewrite Ht1).
  destruct (token_burst (t0 + (3 # 2)) key 5 s1 (15 # 4)) as (s2 & Hrun2 & _).
  { rewrite Hb1. unfold TokenBucket.refill, py_min. simpl.
    rewrite Hc1, Hr1, Hl1, Ht0. simpl.
    assert ((0 + (t0 + (3 # 2) - t0) * (inject_Z 5 / 2) == 15 # 4)%Q) as ->
      by (change (inject_Z 5 / 2)%Q with (5 * / 2)%Q; field).
    by apply Q.min_r. }
  { rewrite Hc1. done. }
  exists rl, s2. split; [by apply token_new_ok|].
  rewrite (run_app _ _ _ _ _ _ _ _ Hrun1 Hrun2). reflexivity.
Qed.

Lemma nondecreasing_burst n now key : nondecreasing (map fst (burst n now key)).
Proof.
  induction n as [|n IH]; [done|].
  change (burst (S n) now key) with ((now, key) :: burst n now key).
  simpl. split; [|exact IH]. destruct n; simpl; [done | lra].
Qed.

Lemma nondecreasing_two_bursts n m t1 t2 key :
  (t1 <= t2)%Q ->
  nondecreasing (map fst (burst n t1 key ++ burst m t2 key)).
Proof.
  intros Hle. induction n as [|n IH]; [apply nondecreasing_burst|].
  change (burst (S n) t1 key) with ((t1, key) :: burst n t1 key).
  simpl. split; [|exact IH].
  destruct n; simpl; [|lra]. destruct m; simpl; [done | lra].
Qed.

Lemma solution_is_allowed_lookup now key self :
  let kept := Solution.popleft_while (now - Solution.time_window self)
                (default [] (Solution.requests self !! key)) in
  Solution.requests (snd (Solution.is_allowed now key self)) !! key =
  Some (if (len kept <? Solution.max_requests self)%Z then kept ++ [now] else kept).
Proof.
  unfold Solution.is_allowed, Solution.getitem.
  destruct (Solution.requests self !! key); simpl;
    destruct (_ <? _)%Z; simpl; by rewrite lookup_insert_eq.
Qed.

(** * The claims *)

(** ** Where binary64 rounds

    Two computations of the source, on the machine's floats, that exact
    arithmetic does not reproduce; they are why the theorems below on the
    sliding and fixed windows ask for a window of a whole number of
    seconds, and why no bound is stated for the token bucket's refill.

    With the window 0.1 (the float [0x1.999999999999ap-4]) and a call at
    1700000000.1 (the float [0x1.954fc40066666p+30]), the cut-off
    [now - window] is rounded up to 1700000000: a timestamp recorded at
    1700000000, less than a window earlier, is at the cut-off and so counts as
    expired. *)
Lemma binary64_cutoff_rounds :
  let now := 0x1.954fc40066666p+30%float in
  let window := 0x1.999999999999ap-4%float in
  let ts := 1700000000%float in
  PrimFloat.leb ts (now - window)%float = true /\
  PrimFloat.ltb (now - ts)%float window = true.
Proof. vm_compute. by split. Qed.

(** With limit 1 and window 49 the rate [1 / 49] is rounded down, and a full
    window of it refills less than one token. *)
Lemma binary64_refill_rounds :
  let rate := (1 / 49)%float in
  PrimFloat.ltb (49 * rate)%float 1%float = true.
Proof. vm_compute. reflexivity. Qed.

(** A whole number of seconds is a positive window. *)
Lemma whole_seconds_positive (w : Q) : whole_seconds w = true -> (0 < w)%Q.
Proof.
  unfold whole_seconds. destruct w as [n d]. simpl.
  rewrite !andb_true_iff, Z.leb_le. intros [[_ Hn] _].
  unfold Qlt. simpl. lia.
Qed.

(** C1, as amended.  For a window of a whole number of seconds, clock readings
    in [0, 2^52) that never go back and a capacity [c >= 0], the calls of
    one key admitted in any interval (T - w, T] number at most [c] under
    both sliding windows ([solution.py] and [reference/sliding_window.py]).
    For such windows and readings the cut-off [now - window] that the source
    computes in binary64 is the exact difference; for a fractional window
    (0.1 s) it is rounded and the bound is not claimed.  The token bucket is
    not bounded by its capacity at all, as the lemma after this one shows. *)
Theorem C1_admitted_per_window (c : Z) (w : Q) (cs : list (Q * string))
    (key : string) (T : Q) :
  (0 <= c)%Z -> whole_seconds w = true -> clock_readings cs = true ->
  nondecreasing (map fst cs) ->
  (exists answers s',
     run (total Solution.is_allowed) cs (Solution.new c w) = Ok (answers, s') /\
     (Z.of_nat (admitted_in key (T - w) T cs answers) <= c)%Z) /\
  (exists answers s',
     run (total SlidingWindow.allow_request) cs (SlidingWindow.new c w)
     = Ok (answers, s') /\
     (Z.of_nat (admitted_in key (T - w) T cs answers) <= c)%Z).
Proof.
  intros Hc Hw%whole_seconds_positive _ Hnd. split.
  - by apply solution_window_bound.
  - by apply sliding_window_bound.
Qed.

Lemma C1_admitted_per_window_witness :
  (exists answers s',
     run (total Solution.is_allowed) (burst 3 0 "a" ++ burst 3 (1 # 2) "a")
       (Solution.new 2 1) = Ok (answers, s') /\
     (Z.of_nat (admitted_in "a" (1 - 1) 1 (burst 3 0 "a" ++ burst 3 (1 # 2) "a")
                  answers) <= 2)%Z) /\
  (exists answers s',
     run (total SlidingWindow.allow_request) (burst 3 0 "a" ++ burst 3 (1 # 2) "a")
       (SlidingWindow.new 2 1) = Ok (answers, s') /\
     (Z.of_nat (admitted_in "a" (1 - 1) 1 (burst 3 0 "a" ++ burst 3 (1 # 2) "a")
                  answers) <= 2)%Z).
Proof.
  apply (C1_admitted_per_window 2 1 (burst 3 0 "a" ++ burst 3 (1 # 2) "a") "a" 1).
  - lia.
  - reflexivity.
  - reflexivity.
  - vm_compute. intuition discriminate.
Defined.

(** C1 as stated fails for the token bucket: with capacity 5 and window 2,
    five calls at t = 0 and three at t = 1.5 are all admitted, eight
    admissions inside the interval (-0.5, 1.5] of length 2. *)
Lemma C1_token_bucket_exceeds_capacity :
  nondecreasing (map fst (burst 5 0 "user1" ++ burst 3 (3 # 2) "user1")) /\
  exists rl answers s',
    TokenBucket.new 5 2 = Ok rl /\
    run (total TokenBucket.allow_request)
        (burst 5 0 "user1" ++ burst 3 (3 # 2) "user1") rl = Ok (answers, s') /\
    admitted_in "user1" ((3 # 2) - 2) (3 # 2)
      (burst 5 0 "user1" ++ burst 3 (3 # 2) "user1") answers = 8%nat /\
    ~ (Z.of_nat 8 <= 5)%Z.
Proof.
  split; [vm_compute; intuition discriminate|].
  eexists _, _, _. split; [reflexivity|]. split; [vm_compute; reflexivity|].
  split; [vm_compute; reflexivity | lia].
Qed.

(** C2.  Under the fixed window, for every capacity [c], every window
    [w > 0] and every gap [0 < eps < w]: [c] calls at [w - eps] (the end of
    the aligned window [0, w)) followed by [c] calls at [w] (the start of the
    next one) are all admitted, that is [2c] admissions within a span [eps]
    strictly shorter than the window. *)
Theorem C2_fixed_window_boundary (c : nat) (w eps : Q) (key : string) :
  (0 < eps)%Q -> (eps < w)%Q ->
  nondecreasing (map fst (burst c (w - eps) key ++ burst c w key)) /\
  length (burst c (w - eps) key ++ burst c w key) = (2 * c)%nat /\
  Forall (fun t => w - eps <= t /\ t <= w)%Q
         (map fst (burst c (w - eps) key ++ burst c w key)) /\
  (w - (w - eps) < w)%Q /\
  exists s',
    run FixedWindow.allow_request
        (burst c (w - eps) key ++ burst c w key) (FixedWindow.new (Z.of_nat c) w)
    = Ok (replicate (2 * c) true, s').
Proof.
  intros Heps Hlt. split; [|split; [|split; [|split]]].
  - apply nondecreasing_two_bursts. lra.
  - unfold burst. rewrite length_app, !length_replicate. lia.
  - rewrite map_app. apply Forall_app. unfold burst. split.
    + apply list.Forall_forall. intros t Ht.
      apply list_elem_of_fmap in Ht as ([t' k] & -> & Hin).
      apply elem_of_replicate in Hin as [[= -> ->] _]. simpl. lra.
    + apply list.Forall_forall. intros t Ht.
      apply list_elem_of_fmap in Ht as ([t' k] & -> & Hin).
      apply elem_of_replicate in Hin as [[= -> ->] _]. simpl. lra.
  - lra.
  - replace (2 * c)%nat with (c + c)%nat by lia.
    apply fixed_boundary_burst; lra.
Qed.

Lemma C2_fixed_window_boundary_witness :
  nondecreasing (map fst (burst 5 (2 - (1 # 10)) "user1" ++ burst 5 2 "user1")) /\
  length (burst 5 (2 - (1 # 10)) "user1" ++ burst 5 2 "user1") = (2 * 5)%nat /\
  Forall (fun t => 2 - (1 # 10) <= t /\ t <= 2)%Q
         (map fst (burst 5 (2 - (1 # 10)) "user1" ++ burst 5 2 "user1")) /\
  (2 - (2 - (1 # 10)) < 2)%Q /\
  exists s',
    run FixedWindow.allow_request
        (burst 5 (2 - (1 # 10)) "user1" ++ burst 5 2 "user1")
        (FixedWindow.new (Z.of_nat 5) 2)
    = Ok (replicate (2 * 5) true, s').
Proof.
  apply (C2_fixed_window_boundary 5 2 (1 # 10) "user1"); reflexivity.
Defined.

(** C3, as amended.  Scenario D (capacity 5, window 2 s) for any key and any
    time [t0] of the first burst: the five calls at [t0] are admitted by every
    variant; of the five calls at [t0 + 1.5] both sliding windows admit none
    and the token bucket admits exactly three; the fixed window admits all
    five when the second burst lies in a later aligned window than the first,
    [int(t0 / 2) < int((t0 + 1.5) / 2)], and none otherwise. *)
Theorem C3_scenario_D (t0 : Q) (key : string) :
  (exists s',
     run FixedWindow.allow_request
         (burst 5 t0 key ++ burst 5 (t0 + (3 # 2)) key) (FixedWindow.new 5 2)
     = Ok (replicate 5 true
           ++ replicate 5 (py_int (t0 / 2) <? py_int ((t0 + (3 # 2)) / 2))%Z, s')) /\
  (exists s',
     run (total SlidingWindow.allow_request)
         (burst 5 t0 key ++ burst 5 (t0 + (3 # 2)) key) (SlidingWindow.new 5 2)
     = Ok (replicate 5 true ++ replicate 5 false, s')) /\
  (exists s',
     run (total Solution.is_allowed)
         (burst 5 t0 key ++ burst 5 (t0 + (3 # 2)) key) (Solution.new 5 2)
     = Ok (replicate 5 true ++ replicate 5 false, s')) /\
  (exists rl s',
     TokenBucket.new 5 2 = Ok rl /\
     run (total TokenBucket.allow_request)
         (burst 5 t0 key ++ burst 5 (t0 + (3 # 2)) key) rl
     = Ok (replicate 5 true ++ [true; true; true; false; false], s')).
Proof.
  split; [|split; [|split]].
  - apply fixed_scenario_D.
  - apply sliding_scenario_D.
  - apply solution_scenario_D.
  - apply token_scenario_D.
Qed.

(** C3 as stated fails for the fixed window: with the first burst at
    t = 0, the second burst at t = 1.5 lies in the same aligned window
    [0, 2) and all five of its calls are rejected. *)
Lemma C3_fixed_window_same_window_rejects :
  (exists s',
     run FixedWindow.allow_request
         (burst 5 0 "user1" ++ burst 5 (3 # 2) "user1") (FixedWindow.new 5 2)
     = Ok (replicate 5 true ++ replicate 5 false, s')) /\
  ~ (exists s',
       run FixedWindow.allow_request
           (burst 5 0 "user1" ++ burst 5 (3 # 2) "user1") (FixedWindow.new 5 2)
       = Ok (replicate 5 true ++ replicate 5 true, s')).
Proof.
  split.
  - eexists. vm_compute. reflexivity.
  - intros (s2 & H2). vm_compute in H2. discriminate.
Qed.

(** ** The fixed window and the range of a float *)

Lemma fixed64_in_range now key s :
  overflows (FixedWindow.window s) = false ->
  overflows (now / FixedWindow.window s) = false ->
  FixedWindow64.allow_request now key s = FixedWindow.allow_request now key s.
Proof.
  intros Hw Hq. unfold FixedWindow64.allow_request, FixedWindow.allow_request.
  unfold py_float, float_div, py_div. rewrite Hw. cbn [mbind result_bind].
  destruct (Qeq_bool (FixedWindow.window s) 0); [reflexivity|].
  rewrite Hq. reflexivity.
Qed.

Lemma fixed64_overflow now key s :
  ~ (FixedWindow.window s == 0)%Q ->
  overflows (FixedWindow.window s) || overflows (now / FixedWindow.window s) = true ->
  FixedWindow64.allow_request now key s = Raise OverflowError.
Proof.
  intros Hw0 Hov. unfold FixedWindow64.allow_request, py_float, float_div.
  destruct (overflows (FixedWindow.window s)); [reflexivity|].
  cbn [mbind result_bind].
  destruct (Qeq_bool (FixedWindow.window s) 0) eqn:E;
    [apply Qeq_bool_eq in E; contradiction|].
  simpl in Hov. rewrite Hov. reflexivity.
Qed.

Lemma fixed64_returns now key s b s' :
  FixedWindow64.allow_request now key s = Ok (b, s') ->
  FixedWindow.allow_request now key s = Ok (b, s').
Proof.
  intros H.
  destruct (overflows (FixedWindow.window s)) eqn:Hw.
  - unfold FixedWindow64.allow_request, py_float in H. rewrite Hw in H. discriminate.
  - destruct (overflows (now / FixedWindow.window s)) eqn:Hq.
    + unfold FixedWindow64.allow_request, py_float, float_div in H.
      rewrite Hw in H. cbn [mbind result_bind] in H.
      destruct (Qeq_bool (FixedWindow.window s) 0); [discriminate|].
      rewrite Hq in H. discriminate.
    + by rewrite <- (fixed64_in_range now key s Hw Hq).
Qed.

Lemma fixed64_reachable init s :
  reachable FixedWindow64.allow_request FixedWindow.reset init s ->
  reachable FixedWindow.allow_request FixedWindow.reset init s.
Proof.
  induction 1 as [|s now key b s' _ IH Hcall|s r _ IH].
  - constructor.
  - eapply reach_call; [exact IH | by apply fixed64_returns].
  - by constructor.
Qed.

(** With a capacity of zero or less the fixed window never admits: a call
    returns [false], or raises [OverflowError] when the window or the
    quotient [now / window] is beyond the range of a float. *)
Lemma fixed64_nonpositive c w s now key :
  (c <= 0)%Z -> ~ (w == 0)%Q ->
  reachable FixedWindow64.allow_request FixedWindow.reset (FixedWindow.new c w) s ->
  (overflows w || overflows (now / w) = false ->
   exists s', FixedWindow64.allow_request now key s = Ok (false, s')) /\
  (overflows w || overflows (now / w) = true ->
   FixedWindow64.allow_request now key s = Raise OverflowError).
Proof.
  intros Hc Hw Hs. apply fixed64_reachable in Hs.
  pose proof (fixed_nonpositive_rejects c w s now key Hc Hw Hs) as Hrej.
  apply fixed_reachable_inv in Hs as (_ & Hwin & _). rewrite <- Hwin. split.
  - intros Hov. apply orb_false_elim in Hov as [Ho1 Ho2].
    by rewrite fixed64_in_range.
  - intros Hov. apply fixed64_overflow; [by rewrite Hwin | done].
Qed.

(** C4 as stated fails for the fixed window: with capacity 0 and the
    positive window 1e-300, a call at the clock reading 1700000000 computes
    [now / window] beyond the range of a float, and [int] of the infinite
    quotient raises [OverflowError]. *)
Lemma C4_fixed_window_raises :
  (0 < 1 # 10 ^ 300)%Q /\
  FixedWindow64.allow_request 1700000000 "user1" (FixedWindow.new 0 (1 # 10 ^ 300))
  = Raise OverflowError.
Proof. split; [reflexivity | vm_compute; reflexivity]. Qed.

(** C4, as amended.  A controller built with capacity 0 and a positive
    window admits no call, in any state a client can reach.  [solution.py]
    and the sliding window (the window within the range of a float) and the
    token bucket answer [false] without raising.  The fixed window answers
    [false] without raising when the window and [now / window] are within
    the range of a float, and raises [OverflowError] otherwise. *)
Theorem C4_capacity_zero_rejects (w : Q) :
  (0 < w)%Q ->
  ((w < float_limit)%Q ->
   forall s now key,
     reachable (total Solution.is_allowed) Solution.reset (Solution.new 0 w) s ->
     exists s', total Solution.is_allowed now key s = Ok (false, s')) /\
  (forall s now key,
     reachable FixedWindow64.allow_request FixedWindow.reset (FixedWindow.new 0 w) s ->
     (overflows w || overflows (now / w) = false ->
      exists s', FixedWindow64.allow_request now key s = Ok (false, s')) /\
     (overflows w || overflows (now / w) = true ->
      FixedWindow64.allow_request now key s = Raise OverflowError)) /\
  ((w < float_limit)%Q ->
   forall s now key,
     reachable (total SlidingWindow.allow_request) SlidingWindow.reset
       (SlidingWindow.new 0 w) s ->
     exists s', total SlidingWindow.allow_request now key s = Ok (false, s')) /\
  (exists rl,
     TokenBucket.new 0 w = Ok rl /\
     forall s now key,
       reachable (total TokenBucket.allow_request) TokenBucket.reset rl s ->
       exists s', total TokenBucket.allow_request now key s = Ok (false, s')).
Proof.
  intros Hw.
  assert (Hw0 : ~ (w == 0)%Q) by (intros E; rewrite E in Hw; lra).
  split; [|split; [|split]].
  - intros _ s now key Hs. by apply (solution_nonpositive_rejects 0 w).
  - intros s now key Hs. by apply (fixed64_nonpositive 0 w).
  - intros _ s now key Hs. by apply (sliding_nonpositive_rejects 0 w).
  - by apply token_nonpositive_rejects.
Qed.

Lemma C4_capacity_zero_rejects_witness :
  (exists s', total Solution.is_allowed 7 "user1" (Solution.new 0 1)
              = Ok (false, s')) /\
  (exists s', FixedWindow64.allow_request 7 "user1" (FixedWindow.new 0 1)
              = Ok (false, s')) /\
  FixedWindow64.allow_request 7 "user1" (FixedWindow.new 0 (1 # 10 ^ 310))
  = Raise OverflowError /\
  (exists s', total SlidingWindow.allow_request 7 "user1" (SlidingWindow.new 0 1)
              = Ok (false, s')) /\
  (exists rl, TokenBucket.new 0 1 = Ok rl /\
              exists s', total TokenBucket.allow_request 7 "user1" rl
                         = Ok (false, s')).
Proof.
  destruct (C4_capacity_zero_rejects 1) as (H1 & H2 & H3 & rl & H4 & H5);
    [reflexivity|].
  destruct (C4_capacity_zero_rejects (1 # 10 ^ 310)) as (_ & H2' & _);
    [reflexivity|].
  split; [|split; [|split; [|split]]].
  - apply H1; [reflexivity | constructor].
  - apply (H2 _ 7%Q "user1" (reach_init _ _ _)). vm_compute. reflexivity.
  - apply (H2' _ 7%Q "user1" (reach_init _ _ _)). vm_compute. reflexivity.
  - apply H3; [reflexivity | constructor].
  - exists rl. split; [exact H4|]. apply H5. constructor.
Defined.

(** C10 as stated fails for the fixed window: a negative capacity is
    accepted, but with the positive window 1e-300 a call at the clock
    reading 1700000000 raises [OverflowError] in [int(now / self.window)]. *)
Lemma C10_fixed_window_raises :
  FixedWindow.limit (FixedWindow.new (-1) (1 # 10 ^ 300)) = (-1)%Z /\
  (0 < 1 # 10 ^ 300)%Q /\
  FixedWindow64.allow_request 1700000000 "user1"
    (FixedWindow.new (-1) (1 # 10 ^ 300))
  = Raise OverflowError.
Proof. split; [reflexivity|]. split; [reflexivity | vm_compute; reflexivity]. Qed.

(** C10, as amended.  A negative capacity is accepted by every constructor
    (the token bucket's, which divides it by the window, for a capacity
    within the range of a float), and the controller then admits no call, in
    any reachable state.  [solution.py] and the sliding window (the window
    within the range of a float) and the token bucket answer [false]
    without raising; the fixed window answers [false] without raising when
    the window and [now / window] are within the range of a float, and
    raises [OverflowError] otherwise. *)
Theorem C10_negative_capacity_rejects (c : Z) (w : Q) :
  (c < 0)%Z -> (0 < w)%Q ->
  (Solution.max_requests (Solution.new c w) = c /\
   ((w < float_limit)%Q ->
    forall s now key,
      reachable (total Solution.is_allowed) Solution.reset (Solution.new c w) s ->
      exists s', total Solution.is_allowed now key s = Ok (false, s'))) /\
  (FixedWindow.limit (FixedWindow.new c w) = c /\
   forall s now key,
     reachable FixedWindow64.allow_request FixedWindow.reset (FixedWindow.new c w) s ->
     (overflows w || overflows (now / w) = false ->
      exists s', FixedWindow64.allow_request now key s = Ok (false, s')) /\
     (overflows w || overflows (now / w) = true ->
      FixedWindow64.allow_request now key s = Raise OverflowError)) /\
  (SlidingWindow.limit (SlidingWindow.new c w) = c /\
   ((w < float_limit)%Q ->
    forall s now key,
      reachable (total SlidingWindow.allow_request) SlidingWindow.reset
        (SlidingWindow.new c w) s ->
      exists s', total SlidingWindow.allow_request now key s = Ok (false, s'))) /\
  (overflows (inject_Z c) = false ->
   exists rl,
     TokenBucket.new c w = Ok rl /\ TokenBucket.limit rl = c /\
     forall s now key,
       reachable (total TokenBucket.allow_request) TokenBucket.reset rl s ->
       exists s', total TokenBucket.allow_request now key s = Ok (false, s')).
Proof.
  intros Hc Hw.
  assert (Hw0 : ~ (w == 0)%Q) by (intros E; rewrite E in Hw; lra).
  split; [|split; [|split]].
  - split; [done|]. intros _ s now key Hs.
    apply (solution_nonpositive_rejects c w); [lia | done].
  - split; [done|]. intros s now key Hs.
    apply (fixed64_nonpositive c w); [lia | done | done].
  - split; [done|]. intros _ s now key Hs.
    apply (sliding_nonpositive_rejects c w); [lia | done].
  - intros _. destruct (token_nonpositive_rejects c w) as (rl & Hnew & Hrej);
      [lia | done |].
    exists rl. split; [done|]. split; [|done].
    unfold TokenBucket.new in Hnew. rewrite py_div_ok in Hnew by done.
    by injection Hnew as <-.
Qed.

Lemma C10_negative_capacity_rejects_witness :
  (exists s', total Solution.is_allowed 7 "user1" (Solution.new (-3) 1)
              = Ok (false, s')) /\
  (exists s', FixedWindow64.allow_request 7 "user1" (FixedWindow.new (-3) 1)
              = Ok (false, s')) /\
  FixedWindow64.allow_request 7 "user1" (FixedWindow.new (-3) (1 # 10 ^ 310))
  = Raise OverflowError /\
  (exists s', total SlidingWindow.allow_request 7 "user1" (SlidingWindow.new (-3) 1)
              = Ok (false, s')) /\
  (exists rl, TokenBucket.new (-3) 1 = Ok rl /\
              exists s', total TokenBucket.allow_request 7 "user1" rl
                         = Ok (false, s')).
Proof.
  destruct (C10_negative_capacity_rejects (-3) 1)
    as ((_ & H1) & (_ & H2) & (_ & H3) & H4); [reflexivity | reflexivity |].
  destruct (C10_negative_capacity_rejects (-3) (1 # 10 ^ 310))
    as (_ & (_ & H2') & _); [reflexivity | reflexivity |].
  destruct H4 as (rl & H4 & _ & H5); [vm_compute; reflexivity|].
  split; [|split; [|split; [|split]]].
  - apply H1; [reflexivity | constructor].
  - apply (H2 _ 7%Q "user1" (reach_init _ _ _)). vm_compute. reflexivity.
  - apply (H2' _ 7%Q "user1" (reach_init _ _ _)). vm_compute. reflexivity.
  - apply H3; [reflexivity | constructor].
  - exists rl. split; [exact H4|]. apply H5. constructor.
Defined.

(** C5 as stated fails: no constructor rejects a negative capacity or a
    negative window.  The token bucket, whose constructor is the only one
    that can raise at all, accepts both; the other three store what they
    are given. *)
Lemma C5_malformed_configuration_accepted :
  ~ raises (TokenBucket.new (-1) 1) /\
  ~ raises (TokenBucket.new 1 (-1)) /\
  Solution.max_requests (Solution.new (-1) 1) = (-1)%Z /\
  Solution.time_window (Solution.new 1 (-1)) = (-1)%Q /\
  Solution.time_window (Solution.new 1 0) = 0%Q /\
  FixedWindow.limit (FixedWindow.new (-1) 1) = (-1)%Z /\
  FixedWindow.window (FixedWindow.new 1 0) = 0%Q.
Proof.
  repeat split; try reflexivity; intros [e He]; discriminate.
Qed.

(** C5, as amended.  Constructors do not validate: the capacity and the
    window are stored as given, negative or zero as they may be, and nothing
    is clamped.  The token bucket's constructor also computes the rate
    [limit / window]: for a capacity within the range of a float it raises
    [ZeroDivisionError] when the window is zero and otherwise constructs
    like the others. *)
Theorem C5_constructors_do_not_validate (c : Z) (w : Q) :
  (Solution.max_requests (Solution.new c w) = c /\
   Solution.time_window (Solution.new c w) = w) /\
  (FixedWindow.limit (FixedWindow.new c w) = c /\
   FixedWindow.window (FixedWindow.new c w) = w) /\
  (SlidingWindow.limit (SlidingWindow.new c w) = c /\
   SlidingWindow.window (SlidingWindow.new c w) = w) /\
  (~ (w == 0)%Q -> overflows (inject_Z c) = false ->
   exists rl, TokenBucket.new c w = Ok rl /\
              TokenBucket.limit rl = c /\ TokenBucket.window rl = w) /\
  ((w == 0)%Q -> overflows (inject_Z c) = false ->
   TokenBucket.new c w = Raise ZeroDivisionError).
Proof.
  repeat split.
  - intros Hw _. eexists. split; [by apply token_new_ok|]. by simpl.
  - intros Hw _. unfold TokenBucket.new. by rewrite (py_div_zero _ _ Hw).
Qed.

Lemma C5_constructors_do_not_validate_witness :
  (exists rl, TokenBucket.new (-1) (-2) = Ok rl /\
              TokenBucket.limit rl = (-1)%Z /\ TokenBucket.window rl = (-2)%Q) /\
  TokenBucket.new 3 0 = Raise ZeroDivisionError.
Proof.
  split.
  - apply (C5_constructors_do_not_validate (-1) (-2)).
    + vm_compute. discriminate.
    + vm_compute. reflexivity.
  - apply (C5_constructors_do_not_validate 3 0); reflexivity.
Defined.

(** C6.  In every state of [solution.py]'s controller, [reset(key)] leaves
    the configuration and every other key's deque unchanged, and afterwards
    every sequence of calls and resets is answered as in the state where
    [key] was never seen; on an unknown key it changes nothing; [reset()]
    empties the mapping.  The keyed [reset] of
    [reference/sliding_window.py] deletes the key's entry, leaves the other
    entries unchanged and is the identity on an unknown key. *)
Theorem C6_reset (s : Solution.RateLimiter) (r : SlidingWindow.RateLimiter)
    (key : string) :
  (forall key', key <> key' ->
     Solution.requests (Solution.reset (Some key) s) !! key'
     = Solution.requests s !! key') /\
  (Solution.max_requests (Solution.reset (Some key) s) = Solution.max_requests s /\
   Solution.time_window (Solution.reset (Some key) s) = Solution.time_window s) /\
  (forall ops,
     fst (Solution.exec ops (Solution.reset (Some key) s))
     = fst (Solution.exec ops (Solution.never_seen key s))) /\
  (Solution.requests s !! key = None -> Solution.reset (Some key) s = s) /\
  Solution.requests (Solution.reset None s) = ∅ /\
  (forall key', key <> key' ->
     SlidingWindow.requests (SlidingWindow.reset key r) !! key'
     = SlidingWindow.requests r !! key') /\
  SlidingWindow.requests (SlidingWindow.reset key r) !! key = None /\
  (SlidingWindow.limit (SlidingWindow.reset key r) = SlidingWindow.limit r /\
   SlidingWindow.window (SlidingWindow.reset key r) = SlidingWindow.window r) /\
  (SlidingWindow.requests r !! key = None -> SlidingWindow.reset key r = r).
Proof.
  split; [|split; [|split; [|split; [|split; [|split; [|split; [|split]]]]]]].
  - intros key' Hne. by apply solution_reset_other.
  - apply solution_reset_config.
  - intros ops. apply solution_exec_same_view, solution_reset_never_seen.
  - apply solution_reset_unknown.
  - reflexivity.
  - intros key' Hne. rewrite sliding_reset_delete. simpl.
    by rewrite lookup_delete_ne.
  - rewrite sliding_reset_delete. simpl. by rewrite lookup_delete_eq.
  - by rewrite sliding_reset_delete.
  - apply sliding_reset_unknown.
Qed.

Lemma C6_reset_witness :
  Solution.requests
    (Solution.reset (Some "user1")
       (snd (Solution.is_allowed 0 "user2" (Solution.new 1 1)))) !! "user2"
  = Solution.requests (snd (Solution.is_allowed 0 "user2" (Solution.new 1 1)))
      !! "user2" /\
  Solution.reset (Some "user1")
    (snd (Solution.is_allowed 0 "user2" (Solution.new 1 1)))
  = snd (Solution.is_allowed 0 "user2" (Solution.new 1 1)) /\
  SlidingWindow.requests
    (SlidingWindow.reset "user1"
       (snd (SlidingWindow.allow_request 0 "user2" (SlidingWindow.new 1 1))))
    !! "user2"
  = SlidingWindow.requests
      (snd (SlidingWindow.allow_request 0 "user2" (SlidingWindow.new 1 1)))
      !! "user2" /\
  SlidingWindow.reset "user1"
    (snd (SlidingWindow.allow_request 0 "user2" (SlidingWindow.new 1 1)))
  = snd (SlidingWindow.allow_request 0 "user2" (SlidingWindow.new 1 1)).
Proof.
  destruct (C6_reset (snd (Solution.is_allowed 0 "user2" (Solution.new 1 1)))
              (snd (SlidingWindow.allow_request 0 "user2" (SlidingWindow.new 1 1)))
              "user1")
    as (H1 & _ & _ & H2 & _ & H3 & _ & _ & H4).
  split; [|split; [|split]].
  - apply H1. discriminate.
  - apply H2. vm_compute. reflexivity.
  - apply H3. discriminate.
  - apply H4. vm_compute. reflexivity.
Defined.

(** What the pruning loop of [solution.py] leaves: the deque without its
    longest front run of expired timestamps. *)
Lemma popleft_while_split cutoff l :
  exists expired,
    l = expired ++ Solution.popleft_while cutoff l /\
    Forall (fun ts => (ts <= cutoff)%Q) expired.
Proof.
  induction l as [|x l (expired & Heq & Hall)]; simpl.
  - exists []. split; [done | constructor].
  - destruct (Qleb_spec x cutoff) as [Hle|Hgt].
    + exists (x :: expired). split; [simpl; by f_equal | by constructor].
    + exists []. split; [done | constructor].
Qed.

Lemma popleft_while_head cutoff l ts :
  head (Solution.popleft_while cutoff l) = Some ts -> (cutoff < ts)%Q.
Proof.
  induction l as [|x l IH]; simpl; [done|].
  destruct (Qleb_spec x cutoff) as [Hle|Hgt]; [done|].
  simpl. intros [= <-]. lra.
Qed.

Lemma nondecreasing_above cutoff x l :
  (cutoff < x)%Q -> nondecreasing (x :: l) ->
  Forall (fun ts => (cutoff < ts)%Q) (x :: l).
Proof.
  revert x. induction l as [|y l IH]; intros x Hx Hnd.
  - by constructor.
  - destruct Hnd as [Hxy Hnd]. constructor; [done|].
    apply IH; [lra | done].
Qed.

Lemma popleft_while_unexpired cutoff l :
  nondecreasing l ->
  Forall (fun ts => (cutoff < ts)%Q) (Solution.popleft_while cutoff l).
Proof.
  induction l as [|x l IH]; [done|]. intros Hnd.
  change (Solution.popleft_while cutoff (x :: l)) with
    (if Qleb x cutoff then Solution.popleft_while cutoff l else x :: l).
  destruct (Qleb_spec x cutoff) as [Hle|Hgt].
  - apply IH. by destruct Hnd.
  - apply nondecreasing_above; [lra | done].
Qed.

(** What the comprehension of [reference/sliding_window.py] leaves: the
    unexpired timestamps, all of them, in their order. *)
Lemma keep_after_partition cutoff l :
  exists expired,
    l ≡ₚ SlidingWindow.keep_after cutoff l ++ expired /\
    Forall (fun ts => (ts <= cutoff)%Q) expired /\
    Forall (fun ts => (cutoff < ts)%Q) (SlidingWindow.keep_after cutoff l) /\
    SlidingWindow.keep_after cutoff l `sublist_of` l.
Proof.
  unfold SlidingWindow.keep_after.
  induction l as [|x l (expired & Hp & He & Hk & Hs)]; simpl.
  - exists []. by repeat split.
  - unfold Qgtb. destruct (Qltb_spec cutoff x) as [Hlt|Hge].
    + exists expired. repeat split; [by rewrite Hp at 1 | done | | ].
      * by constructor.
      * by apply sublist_skip.
    + exists (x :: expired). repeat split; [ | | done | by apply sublist_cons].
      * rewrite Hp at 1. apply Permutation_middle.
      * constructor; [lra | done].
Qed.

(** C7 as stated fails for [solution.py]: its loop stops at the first
    unexpired timestamp.  With capacity 2 and window 1, after calls at 5 and,
    the clock having gone back, at 0, the deque is [5; 0]; the call at 5.5
    is rejected and the expired timestamp 0 (the cut-off is 4.5) stays. *)
Lemma C7_solution_keeps_expired_timestamp :
  let s := snd (Solution.is_allowed 0 "user1"
                  (snd (Solution.is_allowed 5 "user1" (Solution.new 2 1)))) in
  Solution.deque_of s "user1" = [5; 0]%Q /\
  fst (Solution.is_allowed (11 # 2) "user1" s) = false /\
  (0 <= (11 # 2) - Solution.time_window s)%Q /\
  Solution.deque_of (snd (Solution.is_allowed (11 # 2) "user1" s)) "user1"
  = [5; 0]%Q.
Proof.
  vm_compute. repeat split; discriminate.
Qed.

(** C7, as amended.  A rejected call keeps the pruning, refill or roll-over
    it did and records nothing for the event.  For a window of a whole
    number of seconds and clock readings in [0, 2^52), where the cut-off
    [now - window] is computed exactly:
    - [solution.py]: the deque afterwards is the one before without a front
      run of expired timestamps (those at or before the cut-off), and its
      first timestamp, if any, is unexpired; when the deque was in time order
      no expired timestamp is left.  [now] is not appended.
    - [reference/sliding_window.py]: the list afterwards holds the
      unexpired timestamps of the one before, all of them and in their order,
      and the ones dropped are all expired.  [now] is not appended.
    - Token bucket: the key's bucket holds the refilled token count,
      undiminished, stamped [now].
    - Fixed window: the key's record is the rolled-over one, its count not
      incremented.
    Other keys are untouched. *)
Theorem C7_rejected_call_records_nothing (now : Q) (key : string) :
  (forall s,
     whole_seconds (Solution.time_window s) = true ->
     clock_reading now = true ->
     forallb clock_reading (Solution.deque_of s key) = true ->
     fst (Solution.is_allowed now key s) = false ->
     (exists expired,
        Solution.deque_of s key
        = expired ++ Solution.deque_of (snd (Solution.is_allowed now key s)) key /\
        Forall (fun ts => (ts <= now - Solution.time_window s)%Q) expired) /\
     (forall ts,
        head (Solution.deque_of (snd (Solution.is_allowed now key s)) key) = Some ts ->
        (now - Solution.time_window s < ts)%Q) /\
     (nondecreasing (Solution.deque_of s key) ->
      Forall (fun ts => (now - Solution.time_window s < ts)%Q)
        (Solution.deque_of (snd (Solution.is_allowed now key s)) key)) /\
     forall key', key <> key' ->
       Solution.requests (snd (Solution.is_allowed now key s)) !! key'
       = Solution.requests s !! key') /\
  (forall s,
     whole_seconds (SlidingWindow.window s) = true ->
     clock_reading now = true ->
     forallb clock_reading (SlidingWindow.timestamps_of s key) = true ->
     fst (SlidingWindow.allow_request now key s) = false ->
     (exists expired,
        SlidingWindow.timestamps_of s key
        ≡ₚ SlidingWindow.timestamps_of
             (snd (SlidingWindow.allow_request now key s)) key ++ expired /\
        Forall (fun ts => (ts <= now - SlidingWindow.window s)%Q) expired) /\
     Forall (fun ts => (now - SlidingWindow.window s < ts)%Q)
       (SlidingWindow.timestamps_of
          (snd (SlidingWindow.allow_request now key s)) key) /\
     SlidingWindow.timestamps_of (snd (SlidingWindow.allow_request now key s)) key
     `sublist_of` SlidingWindow.timestamps_of s key /\
     forall key', key <> key' ->
       SlidingWindow.requests (snd (SlidingWindow.allow_request now key s)) !! key'
       = SlidingWindow.requests s !! key') /\
  (forall s,
     fst (TokenBucket.allow_request now key s) = false ->
     TokenBucket.buckets (snd (TokenBucket.allow_request now key s)) !! key
     = Some (TokenBucket.mkBucket
               (TokenBucket.refill s now (TokenBucket.buckets s !! key)) now) /\
     forall key', key <> key' ->
       TokenBucket.buckets (snd (TokenBucket.allow_request now key s)) !! key'
       = TokenBucket.buckets s !! key') /\
  (forall s s',
     FixedWindow.allow_request now key s = Ok (false, s') ->
     FixedWindow.windows s' !! key
     = Some (FixedWindow.rolled
               (FixedWindow.aligned s (now / FixedWindow.window s))
               (FixedWindow.windows s !! key)) /\
     forall key', key <> key' ->
       FixedWindow.windows s' !! key' = FixedWindow.windows s !! key').
Proof.
  split; [|split; [|split]].
  - intros s _ _ _ Hrej.
    rewrite solution_is_allowed_fst in Hrej.
    pose proof (solution_is_allowed_lookup now key s) as H. simpl in H.
    unfold Solution.deque_of in *. rewrite Hrej in H. rewrite H. simpl.
    split; [apply popleft_while_split|].
    split; [intros ts; apply popleft_while_head|].
    split; [apply popleft_while_unexpired|].
    intros key' Hne. by apply solution_is_allowed_other.
  - intros s _ _ _ Hrej.
    rewrite sliding_allow_request_fst in Hrej.
    pose proof (sliding_allow_request_timestamps now key s) as H. simpl in H.
    rewrite Hrej in H. rewrite H.
    destruct (keep_after_partition (now - SlidingWindow.window s)
                (SlidingWindow.timestamps_of s key)) as (expired & Hp & He & Hk & Hs).
    split; [by exists expired|]. split; [done|]. split; [done|].
    intros key' Hne. by apply sliding_allow_request_other.
  - intros s Hrej. split.
    + rewrite token_allow_request_fst in Hrej.
      pose proof (token_allow_request_bucket now key s) as H. simpl in H.
      by rewrite Hrej in H.
    + intros key' Hne. by apply token_allow_request_other.
  - intros s s' Hcall.
    pose proof (fixed_allow_request_inv _ _ _ _ _ Hcall) as Hw.
    rewrite (fixed_allow_request_ok now key s Hw) in Hcall.
    injection Hcall as Hrej <-. rewrite Hrej. simpl. split.
    + rewrite lookup_insert_eq. f_equal.
      by destruct (FixedWindow.rolled _ _).
    + intros key' Hne. by rewrite lookup_insert_ne.
Qed.

Lemma C7_rejected_call_records_nothing_witness :
  let sS := snd (Solution.is_allowed 0 "user1" (Solution.new 1 1)) in
  let sW := snd (SlidingWindow.allow_request 0 "user1" (SlidingWindow.new 1 1)) in
  let sT := snd (TokenBucket.allow_request 0 "user1"
                   (TokenBucket.mkRateLimiter 1 1 1 ∅)) in
  let sF := FixedWindow.mkRateLimiter 1 1
              {[ "user1" := FixedWindow.mkWindow 0 1 ]} in
  (forall ts,
     head (Solution.deque_of (snd (Solution.is_allowed (1 # 2) "user1" sS)) "user1")
     = Some ts ->
     ((1 # 2) - Solution.time_window sS < ts)%Q) /\
  Forall (fun ts => ((1 # 2) - SlidingWindow.window sW < ts)%Q)
    (SlidingWindow.timestamps_of
       (snd (SlidingWindow.allow_request (1 # 2) "user1" sW)) "user1") /\
  TokenBucket.buckets (snd (TokenBucket.allow_request (1 # 2) "user1" sT)) !! "user1"
  = Some (TokenBucket.mkBucket
            (TokenBucket.refill sT (1 # 2) (TokenBucket.buckets sT !! "user1"))
            (1 # 2)) /\
  match FixedWindow.allow_request (1 # 2) "user1" sF with
  | Ok (false, s') =>
      FixedWindow.windows s' !! "user1"
      = Some (FixedWindow.rolled
                (FixedWindow.aligned sF ((1 # 2) / FixedWindow.window sF))
                (FixedWindow.windows sF !! "user1"))
  | _ => False
  end.
Proof.
  intros sS sW sT sF.
  destruct (C7_rejected_call_records_nothing (1 # 2) "user1")
    as (H1 & H2 & H3 & H4).
  split; [|split; [|split]].
  - refine (proj1 (proj2 (H1 sS _ _ _ _))); vm_compute; reflexivity.
  - refine (proj1 (proj2 (H2 sW _ _ _ _))); vm_compute; reflexivity.
  - refine (proj1 (H3 sT _)). vm_compute. reflexivity.
  - destruct (FixedWindow.allow_request (1 # 2) "user1" sF) as [[[] s']|e] eqn:E.
    + vm_compute in E. discriminate.
    + exact (proj1 (H4 sF s' E)).
    + vm_compute in E. discriminate.
Defined.

(** C8.  Keys are independent in [solution.py]: the answer to
    [is_allowed(k)] and [k]'s deque afterwards depend only on the
    configuration and on [k]'s own entry, and the call leaves every other
    key's entry as it was.  Scenario B: with capacity 2 and window 1 s, once
    a first key has had two calls admitted and a third rejected at one
    instant, the first call for a second key, at any time, is admitted. *)
Theorem C8_keys_independent :
  (forall now k s1 s2,
     Solution.max_requests s1 = Solution.max_requests s2 ->
     Solution.time_window s1 = Solution.time_window s2 ->
     Solution.requests s1 !! k = Solution.requests s2 !! k ->
     fst (Solution.is_allowed now k s1) = fst (Solution.is_allowed now k s2) /\
     Solution.requests (snd (Solution.is_allowed now k s1)) !! k
     = Solution.requests (snd (Solution.is_allowed now k s2)) !! k) /\
  (forall now k k' s,
     k <> k' ->
     Solution.requests (snd (Solution.is_allowed now k s)) !! k'
     = Solution.requests s !! k') /\
  (forall t t' user1 user2,
     user1 <> user2 ->
     exists s',
       run (total Solution.is_allowed)
           (burst 3 t user1 ++ [(t', user2)]) (Solution.new 2 1)
       = Ok ([true; true; false; true], s')).
Proof.
  split; [|split].
  - intros now k s1 s2 Hc Hw Hk. split.
    + rewrite !solution_is_allowed_fst. unfold Solution.deque_of.
      by rewrite Hc, Hw, Hk.
    + pose proof (solution_is_allowed_lookup now k s1) as H1.
      pose proof (solution_is_allowed_lookup now k s2) as H2.
      simpl in H1, H2. by rewrite H1, H2, Hc, Hw, Hk.
  - intros now k k' s Hne. by apply solution_is_allowed_other.
  - intros t t' user1 user2 Hne.
    destruct (solution_burst_admitted t user1 2 (Solution.new 2 1))
      as (s1 & Hrun1 & [Hc1 Hw1] & Hd1 & Ho1); [done | constructor | done |].
    destruct (solution_burst_rejected t user1 1 s1)
      as (s2 & Hrun2 & [Hc2 Hw2] & Hd2 & Ho2).
    { rewrite Hd1, Hw1. simpl. repeat constructor; lra. }
    { by rewrite Hd1, Hc1. }
    destruct (solution_burst_admitted t' user2 1 s2)
      as (s3 & Hrun3 & _).
    { by rewrite Hw2, Hw1. }
    { rewrite Ho2, Ho1 by done. constructor. }
    { rewrite Ho2, Ho1, Hc2, Hc1 by done. done. }
    exists s3.
    pose proof (run_app _ _ _ _ _ _ _ _ Hrun1 Hrun2) as H12.
    exact (run_app _ _ _ _ _ _ _ _ H12 Hrun3).
Qed.

Lemma C8_keys_independent_witness :
  (fst (Solution.is_allowed 0 "user1" (Solution.new 2 1))
   = fst (Solution.is_allowed 0 "user1"
            (snd (Solution.is_allowed 0 "user2" (Solution.new 2 1))))) /\
  Solution.requests (snd (Solution.is_allowed 0 "user1" (Solution.new 2 1)))
    !! "user2"
  = Solution.requests (Solution.new 2 1) !! "user2" /\
  exists s',
    run (total Solution.is_allowed)
        (burst 3 0 "user1" ++ [(0%Q, "user2")]) (Solution.new 2 1)
    = Ok ([true; true; false; true], s').
Proof.
  destruct C8_keys_independent as (H1 & H2 & H3).
  split; [|split].
  - apply (H1 0%Q "user1" (Solution.new 2 1)
             (snd (Solution.is_allowed 0 "user2" (Solution.new 2 1))));
      vm_compute; reflexivity.
  - apply H2. discriminate.
  - apply H3. discriminate.
Defined.

(** C9.  Scenario A: with capacity 3 and window 1 s, whatever the other
    keys' state, four calls at one instant for a key not yet seen are
    answered true, true, true, false. *)
Theorem C9_scenario_A (s : Solution.RateLimiter) (key : string) (t : Q) :
  Solution.max_requests s = 3%Z ->
  Solution.time_window s = 1%Q ->
  Solution.requests s !! key = None ->
  exists s',
    run (total Solution.is_allowed) (burst 4 t key) s
    = Ok ([true; true; true; false], s').
Proof.
  intros Hc Hw Hk.
  assert (Hd : Solution.deque_of s key = [])
    by (unfold Solution.deque_of; by rewrite Hk).
  destruct (solution_burst_admitted t key 3 s)
    as (s1 & Hrun1 & [Hc1 Hw1] & Hd1 & _).
  { by rewrite Hw. }
  { rewrite Hd. constructor. }
  { rewrite Hd, Hc. done. }
  destruct (solution_burst_rejected t key 1 s1) as (s2 & Hrun2 & _).
  { rewrite Hd1, Hd, Hw1, Hw. simpl. repeat constructor; lra. }
  { by rewrite Hd1, Hd, Hc1, Hc. }
  exists s2. exact (run_app _ _ _ _ _ _ _ _ Hrun1 Hrun2).
Qed.

Lemma C9_scenario_A_witness :
  exists s',
    run (total Solution.is_allowed) (burst 4 0 "user1") (Solution.new 3 1)
    = Ok ([true; true; true; false], s').
Proof.
  apply (C9_scenario_A (Solution.new 3 1) "user1" 0); reflexivity.
Defined.

(** * Further properties of the controllers *)

(** ** State of the sliding windows along a run *)

Lemma nondecreasing_snoc l t :
  nondecreasing l -> Forall (fun ts => ts <= t)%Q l -> nondecreasing (l ++ [t]).
Proof.
  induction l as [|x l IH]; simpl; [done|]. intros [Hx Hl] Hall.
  apply Forall_cons in Hall as [Hxt Hall]. split; [|by apply IH].
  destruct l as [|y l]; simpl; [exact Hxt | exact Hx].
Qed.

Lemma nondecreasing_popleft cutoff l :
  nondecreasing l -> nondecreasing (Solution.popleft_while cutoff l).
Proof.
  induction l as [|x l IH]; simpl; [done|]. intros [Hx Hl].
  destruct (Qleb x cutoff); [by apply IH | by split].
Qed.

Lemma solution_step_time_ordered now key s tl :
  time_ordered (Solution.deque_of s) tl -> (tl <= now)%Q ->
  time_ordered (Solution.deque_of (snd (Solution.is_allowed now key s))) now.
Proof.
  intros Hinv Hle k. destruct (Hinv k) as [Hs Hb].
  assert (Hb' : Forall (fun ts => ts <= now)%Q (Solution.deque_of s k)).
  { eapply Forall_impl; [exact Hb|]. simpl. intros; lra. }
  destruct (decide (key = k)) as [<-|Hne].
  - pose proof (solution_is_allowed_deque now key s) as Hd. simpl in Hd. rewrite Hd.
    set (p := Solution.popleft_while _ _).
    assert (Hps : nondecreasing p) by (by apply nondecreasing_popleft).
    assert (Hpb : Forall (fun ts => ts <= now)%Q p)
      by (eapply Forall_sublist; [apply popleft_while_sublist | exact Hb']).
    destruct (len p <? Solution.max_requests s)%Z; [|done]. split.
    + by apply nondecreasing_snoc.
    + apply Forall_app. split; [done|]. constructor; [lra | constructor].
  - by rewrite solution_deque_other.
Qed.

Lemma solution_step_length now key s c k :
  Solution.max_requests s = c ->
  (len (Solution.deque_of s k) <= Z.max 0 c)%Z ->
  (len (Solution.deque_of (snd (Solution.is_allowed now key s)) k) <= Z.max 0 c)%Z.
Proof.
  intros Hc Hlen. destruct (decide (key = k)) as [<-|Hne].
  - pose proof (solution_is_allowed_deque now key s) as Hd. simpl in Hd. rewrite Hd.
    set (p := Solution.popleft_while _ _).
    assert (length p <= length (Solution.deque_of s key))%nat
      by apply sublist_length, popleft_while_sublist.
    rewrite Hc. destruct (Z.ltb_spec (len p) c); unfold len in *.
    + rewrite length_app. simpl. lia.
    + lia.
  - by rewrite solution_deque_other.
Qed.

Lemma last_cons {A : Type} (l : list A) : forall a d,
  List.last (a :: l) d = List.last l a.
Proof.
  induction l as [|x l IH]; intros a d; [done|].
  change (List.last (a :: x :: l) d) with (List.last (x :: l) d).
  by rewrite (IH x d), (IH x a).
Qed.

Lemma last_time_cons t0 now key cs :
  last_time t0 ((now, key) :: cs) = last_time now cs.
Proof. unfold last_time. simpl. apply last_cons. Qed.

Lemma solution_run_state cs : forall s tl c,
  Solution.max_requests s = c ->
  time_ordered (Solution.deque_of s) tl ->
  (forall k, (len (Solution.deque_of s k) <= Z.max 0 c)%Z) ->
  nondecreasing (tl :: map fst cs) ->
  exists answers s',
    run (total Solution.is_allowed) cs s = Ok (answers, s') /\
    Solution.max_requests s' = c /\
    time_ordered (Solution.deque_of s') (last_time tl cs) /\
    forall k, (len (Solution.deque_of s' k) <= Z.max 0 c)%Z.
Proof.
  induction cs as [|[now key] cs IH]; intros s tl c Hc Hord Hlen Hnd.
  - by exists [], s.
  - simpl in Hnd. destruct Hnd as [Hle Hnd].
    destruct (IH (snd (Solution.is_allowed now key s)) now c)
      as (answers & s' & Hrun & Hc' & Hord' & Hlen').
    + by destruct (solution_is_allowed_config now key s) as [-> _].
    + by apply (solution_step_time_ordered now key s tl).
    + intros k. by apply solution_step_length.
    + exact Hnd.
    + eexists _, s'. split; [by apply run_total_cons|].
      rewrite last_time_cons. done.
Qed.

(** X1.  Along any run of [solution.py] whose call times never go back,
    every key's deque stays in time order, holds at most [max(0, capacity)]
    timestamps, and none of them is later than the last call. *)
Theorem solution_deques_ordered_and_bounded (c : Z) (w : Q) (cs : list (Q * string)) :
  nondecreasing (map fst cs) ->
  exists answers s',
    run (total Solution.is_allowed) cs (Solution.new c w) = Ok (answers, s') /\
    forall key,
      nondecreasing (Solution.deque_of s' key) /\
      (len (Solution.deque_of s' key) <= Z.max 0 c)%Z /\
      Forall (fun ts => ts <= last_time 0 cs)%Q (Solution.deque_of s' key).
Proof.
  intros Hnd.
  destruct (solution_run_state cs (Solution.new c w)
              (default 0%Q (head (map fst cs))) c)
    as (answers & s' & Hrun & _ & Hord & Hlen).
  - done.
  - intros k. unfold Solution.deque_of. simpl. rewrite lookup_empty. simpl.
    split; [done | constructor].
  - intros k. unfold Solution.deque_of. simpl. rewrite lookup_empty. simpl.
    unfold len. simpl. lia.
  - by apply nondecreasing_head.
  - exists answers, s'. split; [done|]. intros key.
    destruct (Hord key) as [Hs Hb]. split; [done|]. split; [apply Hlen|].
    destruct cs as [|[t k] cs]; [exact Hb|].
    simpl in Hb. by rewrite !last_time_cons in *.
Qed.

Lemma solution_deques_ordered_and_bounded_witness :
  exists answers s',
    run (total Solution.is_allowed)
        [(0%Q, "a"); (1 # 2, "b"); (1 # 2, "a"); (2%Q, "a")] (Solution.new 2 1)
    = Ok (answers, s') /\
    forall key,
      nondecreasing (Solution.deque_of s' key) /\
      (len (Solution.deque_of s' key) <= Z.max 0 2)%Z /\
      Forall (fun ts => ts <= last_time 0
                [(0%Q, "a"); (1 # 2, "b"); (1 # 2, "a"); (2%Q, "a")])%Q
             (Solution.deque_of s' key).
Proof.
  apply (solution_deques_ordered_and_bounded 2 1
           [(0%Q, "a"); (1 # 2, "b"); (1 # 2, "a"); (2%Q, "a")]).
  vm_compute. intuition discriminate.
Defined.

(** ** solution.py against reference/sliding_window.py *)

Lemma solution_sliding_same_from cs : forall s r tl,
  Solution.max_requests s = SlidingWindow.limit r ->
  Solution.time_window s = SlidingWindow.window r ->
  (forall k, Solution.deque_of s k = SlidingWindow.timestamps_of r k) ->
  time_ordered (Solution.deque_of s) tl ->
  nondecreasing (tl :: map fst cs) ->
  exists answers s' r',
    run (total Solution.is_allowed) cs s = Ok (answers, s') /\
    run (total SlidingWindow.allow_request) cs r = Ok (answers, r') /\
    forall k, Solution.deque_of s' k = SlidingWindow.timestamps_of r' k.
Proof.
  induction cs as [|[now key] cs IH]; intros s r tl Hc Hw Hv Hord Hnd.
  - by exists [], s, r.
  - simpl in Hnd. destruct Hnd as [Hle Hnd].
    assert (Hp : Solution.popleft_while (now - Solution.time_window s)
                   (Solution.deque_of s key)
                 = SlidingWindow.keep_after (now - SlidingWindow.window r)
                     (SlidingWindow.timestamps_of r key)).
    { rewrite <- Hv, <- Hw. apply popleft_while_filter, Hord. }
    assert (Hfst : fst (Solution.is_allowed now key s)
                   = fst (SlidingWindow.allow_request now key r)).
    { by rewrite solution_is_allowed_fst, sliding_allow_request_fst, Hp, Hc. }
    destruct (IH (snd (Solution.is_allowed now key s))
                 (snd (SlidingWindow.allow_request now key r)) now)
      as (answers & s' & r' & Hrun1 & Hrun2 & Hv').
    + destruct (solution_is_allowed_config now key s) as [-> _].
      by destruct (sliding_allow_request_config now key r) as [-> _].
    + destruct (solution_is_allowed_config now key s) as [_ ->].
      by destruct (sliding_allow_request_config now key r) as [_ ->].
    + intros k. destruct (decide (key = k)) as [<-|Hne].
      * pose proof (solution_is_allowed_deque now key s) as H1.
        pose proof (sliding_allow_request_timestamps now key r) as H2.
        simpl in H1, H2. by rewrite H1, H2, Hp, Hc.
      * by rewrite solution_deque_other, sliding_timestamps_other.
    + by apply (solution_step_time_ordered now key s tl).
    + exact Hnd.
    + exists (fst (Solution.is_allowed now key s) :: answers), s', r'.
      split; [by apply run_total_cons|]. split; [|done].
      rewrite Hfst. by apply run_total_cons.
Qed.

(** X2.  When call times never go back, [solution.py] (which only pops
    expired timestamps off the front of a deque) and
    [reference/sliding_window.py] (which filters the whole list) give the
    same answers to every sequence of calls and end with the same timestamps
    under every key. *)
Theorem solution_agrees_with_sliding_window (c : Z) (w : Q) (cs : list (Q * string)) :
  nondecreasing (map fst cs) ->
  exists answers s' r',
    run (total Solution.is_allowed) cs (Solution.new c w) = Ok (answers, s') /\
    run (total SlidingWindow.allow_request) cs (SlidingWindow.new c w)
    = Ok (answers, r') /\
    forall key, Solution.deque_of s' key = SlidingWindow.timestamps_of r' key.
Proof.
  intros Hnd.
  apply (solution_sliding_same_from cs (Solution.new c w) (SlidingWindow.new c w)
           (default 0%Q (head (map fst cs)))).
  - done.
  - done.
  - intros k. unfold Solution.deque_of, SlidingWindow.timestamps_of. simpl.
    by rewrite !lookup_empty.
  - intros k. unfold Solution.deque_of. simpl. rewrite lookup_empty. simpl.
    split; [done | constructor].
  - by apply nondecreasing_head.
Qed.

Lemma solution_agrees_with_sliding_window_witness :
  exists answers s' r',
    run (total Solution.is_allowed)
        [(0%Q, "a"); (1 # 2, "a"); (1 # 2, "b"); (5 # 4, "a")] (Solution.new 1 1)
    = Ok (answers, s') /\
    run (total SlidingWindow.allow_request)
        [(0%Q, "a"); (1 # 2, "a"); (1 # 2, "b"); (5 # 4, "a")] (SlidingWindow.new 1 1)
    = Ok (answers, r') /\
    forall key, Solution.deque_of s' key = SlidingWindow.timestamps_of r' key.
Proof.
  apply (solution_agrees_with_sliding_window 1 1
           [(0%Q, "a"); (1 # 2, "a"); (1 # 2, "b"); (5 # 4, "a")]).
  vm_compute. intuition discriminate.
Defined.

(** The agreement needs the clock not to go back.  With capacity 2 and
    window 1, calls at times 5, 0 and 5.5 for one key leave the deque
    [5; 0]: [solution.py] stops pruning at the unexpired 5 and rejects the
    third call, where the reference drops the expired 0 and admits it. *)
Theorem solution_differs_when_clock_goes_back :
  exists answers1 s' answers2 r',
    run (total Solution.is_allowed)
        [(5%Q, "a"); (0%Q, "a"); (11 # 2, "a")] (Solution.new 2 1)
    = Ok (answers1, s') /\
    run (total SlidingWindow.allow_request)
        [(5%Q, "a"); (0%Q, "a"); (11 # 2, "a")] (SlidingWindow.new 2 1)
    = Ok (answers2, r') /\
    answers1 = [true; true; false] /\ answers2 = [true; true; true].
Proof.
  eexists _, _, _, _. split; [vm_compute; reflexivity|].
  split; [vm_compute; reflexivity|]. done.
Qed.

(** ** The sliding window decides by the log of admitted calls *)

Lemma keep_after_keep_after lo cutoff l :
  (cutoff <= lo)%Q ->
  SlidingWindow.keep_after lo (SlidingWindow.keep_after cutoff l)
  = SlidingWindow.keep_after lo l.
Proof.
  intros Hle. unfold SlidingWindow.keep_after.
  induction l as [|x l IH]; simpl; [done|].
  change (Qgtb x cutoff) with (Qltb cutoff x). change (Qgtb x lo) with (Qltb lo x).
  destruct (Qltb_spec cutoff x) as [Hx|Hx]; simpl.
  - change (Qgtb x lo) with (Qltb lo x). destruct (Qltb lo x); by rewrite IH.
  - destruct (Qltb_spec lo x); [lra | done].
Qed.

Lemma keep_after_app lo l1 l2 :
  SlidingWindow.keep_after lo (l1 ++ l2)
  = SlidingWindow.keep_after lo l1 ++ SlidingWindow.keep_after lo l2.
Proof. apply List.filter_app. Qed.

Lemma times_of_snoc key log now k :
  times_of key (log ++ [(now, k)])
  = times_of key log ++ (if bool_decide (k = key) then [now] else []).
Proof.
  unfold times_of. rewrite List.filter_app, map_app. simpl.
  by destruct (bool_decide (k = key)).
Qed.

Lemma recent_keep_after key lo log :
  len (SlidingWindow.keep_after lo (times_of key log))
  = Z.of_nat (recent key lo log).
Proof.
  unfold len, SlidingWindow.keep_after, times_of, recent, Qgtb. f_equal.
  induction log as [|[t k] log IH]; simpl; [done|].
  destruct (bool_decide (k = key)); simpl; [|done].
  destruct (Qltb lo t); simpl; by rewrite IH.
Qed.

Lemma sliding_window_log_from cs : forall r log tl,
  (forall k lo, (tl - SlidingWindow.window r <= lo)%Q ->
     SlidingWindow.keep_after lo (SlidingWindow.timestamps_of r k)
     = SlidingWindow.keep_after lo (times_of k log)) ->
  nondecreasing (tl :: map fst cs) ->
  exists r',
    run (total SlidingWindow.allow_request) cs r
    = Ok (window_log (SlidingWindow.limit r) (SlidingWindow.window r) log cs, r').
Proof.
  induction cs as [|[now key] cs IH]; intros r log tl Hlog Hnd.
  - by exists r.
  - simpl in Hnd. destruct Hnd as [Hle Hnd].
    pose proof (sliding_allow_request_fst now key r) as Hfst.
    pose proof (sliding_allow_request_timestamps now key r) as Hst. simpl in Hst.
    destruct (sliding_allow_request_config now key r) as [Hc Hw].
    rewrite (Hlog key (now - SlidingWindow.window r)%Q) in Hfst by lra.
    set (r1 := snd (SlidingWindow.allow_request now key r)) in *.
    set (kept := SlidingWindow.keep_after (now - SlidingWindow.window r)
                   (SlidingWindow.timestamps_of r key)) in *.
    set (b := (len (SlidingWindow.keep_after (now - SlidingWindow.window r)
                      (times_of key log)) <? SlidingWindow.limit r)%Z) in *.
    assert (Hb : (len kept <? SlidingWindow.limit r)%Z = b).
    { unfold kept, b. by rewrite (Hlog key (now - SlidingWindow.window r)%Q) by lra. }
    rewrite Hb in Hst.
    destruct (IH r1 (if b then log ++ [(now, key)] else log) now) as (r' & Hrun).
    + intros k lo Hlo. rewrite Hw in Hlo.
      destruct (decide (key = k)) as [<-|Hne].
      * rewrite Hst. destruct b.
        -- rewrite keep_after_app, times_of_snoc, keep_after_app.
           rewrite bool_decide_eq_true_2 by done. f_equal.
           unfold kept. rewrite keep_after_keep_after by lra. apply Hlog. lra.
        -- unfold kept. rewrite keep_after_keep_after by lra. apply Hlog. lra.
      * unfold r1. rewrite sliding_timestamps_other by done.
        destruct b.
        -- rewrite times_of_snoc, bool_decide_eq_false_2, app_nil_r by done.
           apply Hlog. lra.
        -- apply Hlog. lra.
    + exact Hnd.
    + exists r'. rewrite (run_total_cons _ now key cs r _ r' Hrun).
      rewrite Hfst. cbn [window_log]. rewrite <- recent_keep_after. fold b.
      rewrite Hc, Hw. by destruct b.
Qed.

(** X3.  For a window of a whole number of seconds and clock readings in
    [0, 2^52) that never go back, [reference/sliding_window.py] admits a
    call exactly when fewer than [limit] calls of the same key were admitted
    within the last [window] seconds: its answers are those of the rule
    stated on the log of admitted calls.  (For such windows and readings the
    cut-off [now - window] computed in binary64 is the exact difference.) *)
Theorem sliding_window_decides_by_log (c : Z) (w : Q) (cs : list (Q * string)) :
  whole_seconds w = true -> clock_readings cs = true ->
  nondecreasing (map fst cs) ->
  exists r',
    run (total SlidingWindow.allow_request) cs (SlidingWindow.new c w)
    = Ok (window_log c w [] cs, r').
Proof.
  intros _ _ Hnd.
  apply (sliding_window_log_from cs (SlidingWindow.new c w) []
           (default 0%Q (head (map fst cs)))).
  - intros k lo _. unfold SlidingWindow.timestamps_of. simpl.
    by rewrite lookup_empty.
  - by apply nondecreasing_head.
Qed.

Lemma sliding_window_decides_by_log_witness :
  exists r',
    run (total SlidingWindow.allow_request)
        [(0%Q, "a"); (1 # 2, "a"); (3 # 4, "a"); (1%Q, "a"); (5 # 4, "b")]
        (SlidingWindow.new 2 1)
    = Ok ([true; true; false; true; true], r') /\
    window_log 2 1 []
      [(0%Q, "a"); (1 # 2, "a"); (3 # 4, "a"); (1%Q, "a"); (5 # 4, "b")]
    = [true; true; false; true; true].
Proof.
  destruct (sliding_window_decides_by_log 2 1
              [(0%Q, "a"); (1 # 2, "a"); (3 # 4, "a"); (1%Q, "a"); (5 # 4, "b")])
    as [r' Hrun].
  - reflexivity.
  - reflexivity.
  - vm_compute. intuition discriminate.
  - exists r'. split; [rewrite Hrun; vm_compute; reflexivity | reflexivity].
Defined.

(** X4.  The same holds for [solution.py]: for a window of a whole number
    of seconds and clock readings in [0, 2^52) that never go back, its
    answers are those of the rule on the log of admitted calls. *)
Theorem solution_decides_by_log (c : Z) (w : Q) (cs : list (Q * string)) :
  whole_seconds w = true -> clock_readings cs = true ->
  nondecreasing (map fst cs) ->
  exists s',
    run (total Solution.is_allowed) cs (Solution.new c w)
    = Ok (window_log c w [] cs, s').
Proof.
  intros _ _ Hnd.
  destruct (solution_sliding_same_from cs (Solution.new c w) (SlidingWindow.new c w)
              (default 0%Q (head (map fst cs))))
    as (answers & s' & r' & Hrun1 & Hrun2 & _).
  - done.
  - done.
  - intros k. unfold Solution.deque_of, SlidingWindow.timestamps_of. simpl.
    by rewrite !lookup_empty.
  - intros k. unfold Solution.deque_of. simpl. rewrite lookup_empty. simpl.
    split; [done | constructor].
  - by apply nondecreasing_head.
  - destruct (sliding_window_log_from cs (SlidingWindow.new c w) []
                (default 0%Q (head (map fst cs)))) as (r2 & Hlog).
    + intros k lo _. unfold SlidingWindow.timestamps_of. simpl.
      by rewrite lookup_empty.
    + by apply nondecreasing_head.
    + rewrite Hlog in Hrun2. injection Hrun2 as <- _. by exists s'.
Qed.

Lemma solution_decides_by_log_witness :
  exists s',
    run (total Solution.is_allowed)
        [(0%Q, "a"); (1 # 2, "a"); (3 # 4, "a"); (1%Q, "a"); (5 # 4, "b")]
        (Solution.new 2 1)
    = Ok ([true; true; false; true; true], s') /\
    window_log 2 1 []
      [(0%Q, "a"); (1 # 2, "a"); (3 # 4, "a"); (1%Q, "a"); (5 # 4, "b")]
    = [true; true; false; true; true].
Proof.
  destruct (solution_decides_by_log 2 1
              [(0%Q, "a"); (1 # 2, "a"); (3 # 4, "a"); (1%Q, "a"); (5 # 4, "b")])
    as [s' Hrun].
  - reflexivity.
  - reflexivity.
  - vm_compute. intuition discriminate.
  - exists s'. split; [rewrite Hrun; vm_compute; reflexivity | reflexivity].
Defined.

(** ** Token bucket along a run *)

Lemma token_step_in_range c r now key s tl :
  (0 <= c)%Z -> (0 <= r)%Q ->
  TokenBucket.configured c r s ->
  token_buckets_in_range c tl s -> (tl <= now)%Q ->
  token_buckets_in_range c now (snd (TokenBucket.allow_request now key s)).
Proof.
  intros Hc Hr Hcfg Hinv Hle k b Hb.
  destruct (decide (key = k)) as [<-|Hne].
  - pose proof (token_allow_request_bucket now key s) as Hk. simpl in Hk.
    rewrite Hk in Hb. injection Hb as <-.
    destruct (token_refill_bounds c r Hc Hr s now (TokenBucket.buckets s !! key) Hcfg)
      as (H0 & H1 & _).
    { destruct (TokenBucket.buckets s !! key) as [b0|] eqn:E; [|done].
      destruct (Hinv key b0 E) as (? & ? & ?). split; [done | lra]. }
    cbn [TokenBucket.tokens TokenBucket.last_update].
    destruct (Qleb_spec 1 (TokenBucket.refill s now (TokenBucket.buckets s !! key)));
      repeat split; lra.
  - rewrite token_allow_request_other in Hb by done.
    destruct (Hinv k b Hb) as (? & ? & ?). repeat split; [done | done | lra].
Qed.

Lemma token_run_in_range c r cs : forall s tl,
  (0 <= c)%Z -> (0 <= r)%Q ->
  TokenBucket.configured c r s ->
  token_buckets_in_range c tl s ->
  nondecreasing (tl :: map fst cs) ->
  exists answers s',
    run (total TokenBucket.allow_request) cs s = Ok (answers, s') /\
    TokenBucket.configured c r s' /\
    token_buckets_in_range c (last_time tl cs) s'.
Proof.
  induction cs as [|[now key] cs IH]; intros s tl Hc Hr Hcfg Hinv Hnd.
  - by exists [], s.
  - simpl in Hnd. destruct Hnd as [Hle Hnd].
    destruct (IH (snd (TokenBucket.allow_request now key s)) now Hc Hr)
      as (answers & s' & Hrun & Hcfg' & Hinv').
    + destruct Hcfg as [H1 H2].
      destruct (token_allow_request_config now key s) as (H1' & H2' & _).
      split; congruence.
    + by apply (token_step_in_range c r now key s tl).
    + exact Hnd.
    + eexists _, s'. split; [by apply run_total_cons|].
      by rewrite last_time_cons.
Qed.

Lemma token_rate_nonneg c w : (0 <= c)%Z -> (0 < w)%Q -> (0 <= inject_Z c / w)%Q.
Proof.
  intros Hc Hw. apply Qle_shift_div_l; [done|].
  assert (0 <= inject_Z c)%Q by (change 0%Q with (inject_Z 0); by rewrite <- Zle_Qle).
  lra.
Qed.

(** X5.  The token count never leaves [0, limit]: along any run of
    [reference/token_bucket.py] with capacity [c >= 0], window [w > 0] and call
    times that never go back, every bucket holds between 0 and [c] tokens,
    and was last updated no later than the last call. *)
Theorem token_bucket_tokens_in_range (c : Z) (w : Q) (cs : list (Q * string)) :
  (0 <= c)%Z -> (0 < w)%Q -> nondecreasing (map fst cs) ->
  exists rl answers s',
    TokenBucket.new c w = Ok rl /\
    run (total TokenBucket.allow_request) cs rl = Ok (answers, s') /\
    forall key b,
      TokenBucket.buckets s' !! key = Some b ->
      (0 <= TokenBucket.tokens b)%Q /\ (TokenBucket.tokens b <= inject_Z c)%Q /\
      (TokenBucket.last_update b <= last_time 0 cs)%Q.
Proof.
  intros Hc Hw Hnd.
  assert (Hw0 : ~ (w == 0)%Q) by (intros E; rewrite E in Hw; lra).
  set (rl := TokenBucket.mkRateLimiter c w (inject_Z c / w) ∅).
  destruct (token_run_in_range c (inject_Z c / w)%Q cs rl
              (default 0%Q (head (map fst cs))))
    as (answers & s' & Hrun & _ & Hinv).
  - done.
  - by apply token_rate_nonneg.
  - done.
  - intros k b Hb. simpl in Hb. by rewrite lookup_empty in Hb.
  - by apply nondecreasing_head.
  - exists rl, answers, s'. split; [by apply token_new_ok|]. split; [done|].
    intros key b Hb. destruct cs as [|[t k] cs].
    + injection Hrun as _ <-. simpl in Hb. by rewrite lookup_empty in Hb.
    + simpl in Hinv. rewrite !last_time_cons in *. exact (Hinv key b Hb).
Qed.

Lemma token_bucket_tokens_in_range_witness :
  exists rl answers s',
    TokenBucket.new 2 1 = Ok rl /\
    run (total TokenBucket.allow_request)
        [(0%Q, "a"); (0%Q, "a"); (1 # 3, "a"); (5%Q, "b")] rl = Ok (answers, s') /\
    forall key b,
      TokenBucket.buckets s' !! key = Some b ->
      (0 <= TokenBucket.tokens b)%Q /\ (TokenBucket.tokens b <= inject_Z 2)%Q /\
      (TokenBucket.last_update b
       <= last_time 0 [(0%Q, "a"); (0%Q, "a"); (1 # 3, "a"); (5%Q, "b")])%Q.
Proof.
  apply (token_bucket_tokens_in_range 2 1
           [(0%Q, "a"); (0%Q, "a"); (1 # 3, "a"); (5%Q, "b")]).
  - lia.
  - reflexivity.
  - vm_compute. intuition discriminate.
Defined.

(** ** [int()] on rationals *)

Lemma py_int_floor q : (0 <= Qnum q)%Z -> py_int q = Qfloor q.
Proof.
  destruct q as [n d]. unfold py_int, Qfloor. simpl. intros Hn.
  by apply Z.quot_div_nonneg.
Qed.

Lemma py_int_ceiling q : (Qnum q <= 0)%Z -> py_int q = Qceiling q.
Proof.
  destruct q as [n d]. unfold py_int, Qceiling, Qfloor. simpl. intros Hn.
  rewrite <- (Z.opp_involutive n) at 1.
  rewrite Z.quot_opp_l by done. f_equal.
  apply Z.quot_div_nonneg; lia.
Qed.

Lemma Qnum_nonneg q : (0 <= q)%Q <-> (0 <= Qnum q)%Z.
Proof. unfold Qle. simpl. lia. Qed.

Lemma py_int_nonneg q : (0 <= q)%Q -> (0 <= py_int q)%Z.
Proof. intros H. apply Qnum_nonneg in H. unfold py_int. by apply Z.quot_pos. Qed.

Lemma py_int_nonpos q : (q <= 0)%Q -> (py_int q <= 0)%Z.
Proof.
  intros H. assert (Qnum q <= 0)%Z as Hn by (unfold Qle in H; simpl in H; lia).
  unfold py_int. rewrite <- (Z.opp_involutive (Qnum q)).
  rewrite Z.quot_opp_l by done.
  apply Z.opp_nonpos_nonneg, Z.quot_pos; lia.
Qed.

(** Truncation toward zero is monotone. *)
Lemma py_int_mono q q' : (q <= q')%Q -> (py_int q <= py_int q')%Z.
Proof.
  intros Hle. destruct (Z.le_gt_cases 0 (Qnum q)) as [Hq|Hq].
  - assert (0 <= q)%Q by (by apply Qnum_nonneg).
    assert (0 <= Qnum q')%Z by (apply Qnum_nonneg; lra).
    rewrite !py_int_floor by done. by apply Qfloor_resp_le.
  - destruct (Z.le_gt_cases 0 (Qnum q')) as [Hq'|Hq'].
    + assert (q <= 0)%Q as H1 by (unfold Qle; simpl; lia).
      assert (0 <= q')%Q as H2 by (by apply Qnum_nonneg).
      pose proof (py_int_nonpos q H1). pose proof (py_int_nonneg q' H2). lia.
    + rewrite !py_int_ceiling by lia. by apply Qceiling_resp_le.
Qed.

Lemma py_int_succ q : (0 <= q)%Q -> py_int (q + 1) = (py_int q + 1)%Z.
Proof.
  intros H. apply Qnum_nonneg in H. destruct q as [n d]. simpl in H.
  unfold py_int. simpl. rewrite Pos.mul_1_r, Z.mul_1_r.
  replace (n + Z.pos d)%Z with (n + 1 * Z.pos d)%Z by lia.
  apply Z.quot_add; [done | nia].
Qed.

Lemma Qeq_bool_scaled a b w :
  (0 < w)%Q -> Qeq_bool (inject_Z a * w) (inject_Z b * w) = (a =? b)%Z.
Proof.
  intros Hw. destruct (Z.eqb_spec a b) as [->|Hne].
  - apply Qeq_bool_refl.
  - destruct (Qeq_bool _ _) eqn:E; [|done]. apply Qeq_bool_eq in E.
    apply Qmult_inj_r in E; [|intros E0; rewrite E0 in Hw; lra].
    rewrite inject_Z_injective in E. contradiction.
Qed.

(** ** Fixed window along a run *)

Lemma fixed_call_record now key s c w tl :
  FixedWindow.limit s = c -> FixedWindow.window s = w ->
  (0 <= c)%Z -> (0 < w)%Q -> (tl <= now)%Q ->
  fixed_record_ok c w tl (FixedWindow.windows s !! key) ->
  let uw := FixedWindow.rolled (FixedWindow.aligned s (now / w))
              (FixedWindow.windows s !! key) in
  FixedWindow.window_start uw = (inject_Z (py_int (now / w)) * w)%Q /\
  (0 <= FixedWindow.count uw <= c)%Z /\
  forall z, (carried z w (FixedWindow.windows s !! key)
             <= if (py_int (now / w) =? z)%Z then FixedWindow.count uw else c)%Z.
Proof.
  intros Hc Hw Hc0 Hw0 Hle Hok. unfold FixedWindow.rolled, FixedWindow.aligned.
  rewrite Hw. destruct (FixedWindow.windows s !! key) as [[ws cnt]|]; simpl in *.
  - destruct Hok as (zs & -> & Hzs & Hcnt).
    assert (zs <= py_int (now / w))%Z as Hzn.
    { etrans; [exact Hzs|]. apply py_int_mono.
      apply Qmult_le_compat_r; [done|]. apply Qlt_le_weak, Qinv_lt_0_compat, Hw0. }
    rewrite Qgtb_scaled by done.
    destruct (Z.ltb_spec zs (py_int (now / w))) as [Hlt|Hge]; simpl.
    + split; [done|]. split; [lia|]. intros z. rewrite Qeq_bool_scaled by done.
      destruct (Z.eqb_spec zs z), (Z.eqb_spec (py_int (now / w)) z); lia.
    + assert (zs = py_int (now / w)) as -> by lia.
      split; [done|]. split; [done|]. intros z. rewrite Qeq_bool_scaled by done.
      destruct (Z.eqb_spec (py_int (now / w)) z); lia.
  - destruct (Qgtb _ _); simpl; (split; [done|]; split; [lia|]);
      intros z; destruct (_ =? z)%Z; lia.
Qed.

Lemma admitted_in_window_cons key z w now key' cs b answers :
  admitted_in_window key z w ((now, key') :: cs) (b :: answers) =
  ((if b && bool_decide (key' = key) && (py_int (now / w) =? z)%Z then 1 else 0)
   + admitted_in_window key z w cs answers)%nat.
Proof.
  unfold admitted_in_window. simpl.
  by destruct (b && bool_decide (key' = key) && (py_int (now / w) =? z)%Z).
Qed.

Lemma admitted_in_window_late key z w tl cs answers :
  (0 < w)%Q -> (z < py_int (tl / w))%Z -> nondecreasing (tl :: map fst cs) ->
  admitted_in_window key z w cs answers = 0%nat.
Proof.
  intros Hw. revert tl answers.
  induction cs as [|[now key'] cs IH]; intros tl answers Hlt Hnd; [done|].
  destruct answers as [|b answers]; [by destruct cs|].
  simpl in Hnd. destruct Hnd as [Hle Hnd].
  assert (py_int (tl / w) <= py_int (now / w))%Z as Hm.
  { apply py_int_mono. apply Qmult_le_compat_r; [done|].
    apply Qlt_le_weak, Qinv_lt_0_compat, Hw. }
  rewrite admitted_in_window_cons, (IH now); [| lia | exact Hnd].
  destruct (Z.eqb_spec (py_int (now / w)) z); [lia|]. by rewrite andb_false_r.
Qed.

Lemma fixed_window_bound_from c w key z cs : forall s tl,
  (0 <= c)%Z -> (0 < w)%Q ->
  FixedWindow.limit s = c -> FixedWindow.window s = w ->
  fixed_record_ok c w tl (FixedWindow.windows s !! key) ->
  nondecreasing (tl :: map fst cs) ->
  exists answers s',
    run FixedWindow.allow_request cs s = Ok (answers, s') /\
    (Z.of_nat (admitted_in_window key z w cs answers)
     + carried z w (FixedWindow.windows s !! key) <= c)%Z.
Proof.
  induction cs as [|[now k] cs IH]; intros s tl Hc0 Hw0 Hc Hw Hok Hnd.
  - exists [], s. split; [done|]. unfold admitted_in_window. simpl.
    unfold carried. destruct (FixedWindow.windows s !! key) as [uw|]; [|lia].
    destruct Hok as (zs & _ & _ & Hcnt). destruct (Qeq_bool _ _); lia.
  - simpl in Hnd. destruct Hnd as [Hle Hnd].
    assert (Hwz : ~ (FixedWindow.window s == 0)%Q)
      by (rewrite Hw; intros E; rewrite E in Hw0; lra).
    pose proof (fixed_allow_request_ok now k s Hwz) as Hcall. simpl in Hcall.
    rewrite Hw, Hc in Hcall.
    set (uw := FixedWindow.rolled (FixedWindow.aligned s (now / w))
                 (FixedWindow.windows s !! k)) in *.
    set (b := (FixedWindow.count uw <? c)%Z) in *.
    set (s1 := FixedWindow.mkRateLimiter c w _) in Hcall.
    assert (Hm : (py_int (tl / w) <= py_int (now / w))%Z).
    { apply py_int_mono. apply Qmult_le_compat_r; [done|].
      apply Qlt_le_weak, Qinv_lt_0_compat, Hw0. }
    destruct (decide (k = key)) as [->|Hne].
    + destruct (fixed_call_record now key s c w tl Hc Hw Hc0 Hw0 Hle Hok)
        as (Hws & Hcnt & Hcar). fold uw in Hws, Hcnt, Hcar.
      destruct (IH s1 now Hc0 Hw0 eq_refl eq_refl) as (answers & s' & Hrun & Hb).
      { unfold s1. simpl. rewrite lookup_insert_eq. simpl.
        exists (py_int (now / w)). split; [done|]. split; [lia|].
        unfold b. destruct (Z.ltb_spec (FixedWindow.count uw) c); lia. }
      { exact Hnd. }
      exists (b :: answers), s'. split.
      { simpl. rewrite Hcall. simpl. by rewrite Hrun. }
      rewrite admitted_in_window_cons, bool_decide_eq_true_2, andb_true_r by done.
      unfold s1 in Hb. simpl in Hb. rewrite lookup_insert_eq in Hb.
      unfold carried in Hb. simpl in Hb. rewrite Hws, Qeq_bool_scaled in Hb by done.
      specialize (Hcar z).
      destruct (Z.eqb_spec (py_int (now / w)) z) as [Hz|Hz].
      * rewrite andb_true_r. destruct b; simpl; lia.
      * rewrite andb_false_r. simpl.
        destruct (Z.lt_ge_cases z (py_int (now / w))) as [Hgt|Hlt].
        -- rewrite (admitted_in_window_late key z w now) by done. lia.
        -- assert (carried z w (FixedWindow.windows s !! key) = 0%Z) as ->; [|lia].
           unfold carried. destruct (FixedWindow.windows s !! key) as [u0|]; [|done].
           destruct Hok as (zs & -> & Hzs & _). rewrite Qeq_bool_scaled by done.
           destruct (Z.eqb_spec zs z); [lia | done].
    + destruct (IH s1 now Hc0 Hw0 eq_refl eq_refl) as (answers & s' & Hrun & Hb).
      { unfold s1. simpl. rewrite lookup_insert_ne by done.
        destruct (FixedWindow.windows s !! key) as [u0|]; [|done].
        destruct Hok as (zs & ? & ? & ?). exists zs. split; [done|]. split; [lia|done]. }
      { exact Hnd. }
      exists (b :: answers), s'. split.
      { simpl. rewrite Hcall. simpl. by rewrite Hrun. }
      rewrite admitted_in_window_cons, bool_decide_eq_false_2 by done.
      rewrite andb_false_r. simpl.
      unfold s1 in Hb. simpl in Hb. by rewrite lookup_insert_ne in Hb.
Qed.

(** X7.  Within one aligned window the fixed window keeps its promise: for
    capacity [c >= 0], a window [w] of a whole number of seconds and clock
    readings in [0, 2^52) that never go back, the calls of one key admitted
    at times [t] with the same [int(t / w)] number at most [c].  (For such
    windows and readings [int(now / window)], computed in binary64, is the
    exact integer part, and its product with the window is exact.) *)
Theorem fixed_window_bound_per_aligned_window (c : Z) (w : Q)
    (cs : list (Q * string)) (key : string) (z : Z) :
  (0 <= c)%Z -> whole_seconds w = true -> clock_readings cs = true ->
  nondecreasing (map fst cs) ->
  exists answers s',
    run FixedWindow.allow_request cs (FixedWindow.new c w) = Ok (answers, s') /\
    (Z.of_nat (admitted_in_window key z w cs answers) <= c)%Z.
Proof.
  intros Hc Hw%whole_seconds_positive _ Hnd.
  destruct (fixed_window_bound_from c w key z cs (FixedWindow.new c w)
              (default 0%Q (head (map fst cs))))
    as (answers & s' & Hrun & Hb).
  - done.
  - done.
  - done.
  - done.
  - cbn [FixedWindow.new FixedWindow.windows]. by rewrite lookup_empty.
  - by apply nondecreasing_head.
  - exists answers, s'. split; [done|].
    cbn [FixedWindow.new FixedWindow.windows] in Hb.
    rewrite lookup_empty in Hb. simpl in Hb. lia.
Qed.

Lemma fixed_window_bound_per_aligned_window_witness :
  exists answers s',
    run FixedWindow.allow_request
        (burst 3 (1 # 2) "a" ++ burst 3 (3 # 2) "a" ++ burst 3 (5 # 2) "a")
        (FixedWindow.new 2 2) = Ok (answers, s') /\
    (Z.of_nat (admitted_in_window "a" 0 2
                 (burst 3 (1 # 2) "a" ++ burst 3 (3 # 2) "a" ++ burst 3 (5 # 2) "a")
                 answers) <= 2)%Z.
Proof.
  apply (fixed_window_bound_per_aligned_window 2 2
           (burst 3 (1 # 2) "a" ++ burst 3 (3 # 2) "a" ++ burst 3 (5 # 2) "a") "a" 0).
  - lia.
  - reflexivity.
  - reflexivity.
  - vm_compute. intuition discriminate.
Defined.

Lemma fixed_rolled_in_range c w zn ow :
  (0 <= c)%Z ->
  (forall uw, ow = Some uw ->
     (0 <= FixedWindow.count uw <= c)%Z /\
     exists z, FixedWindow.window_start uw = (inject_Z z * w)%Q) ->
  (0 <= FixedWindow.count (FixedWindow.rolled (inject_Z zn * w) ow) <= c)%Z /\
  exists z, FixedWindow.window_start (FixedWindow.rolled (inject_Z zn * w) ow)
            = (inject_Z z * w)%Q.
Proof.
  intros Hc Hok. unfold FixedWindow.rolled. destruct ow as [uw|]; simpl.
  - destruct (Qgtb _ _); simpl; [split; [lia | by exists zn] | by apply Hok].
  - destruct (Qgtb _ _); simpl; (split; [lia | by exists zn]).
Qed.

(** X8.  In every state a client can reach with [reference/fixed_window.py]
    (capacity [c >= 0]; calls at any times, resets), each stored record
    has a count between 0 and [c] and a window start that is an integer
    multiple of the window. *)
Theorem fixed_window_records_in_range (c : Z) (w : Q) (s : FixedWindow.RateLimiter) :
  (0 <= c)%Z ->
  reachable FixedWindow.allow_request FixedWindow.reset (FixedWindow.new c w) s ->
  forall key uw,
    FixedWindow.windows s !! key = Some uw ->
    (0 <= FixedWindow.count uw <= c)%Z /\
    exists z, FixedWindow.window_start uw = (inject_Z z * w)%Q.
Proof.
  intros Hc Hs.
  assert (FixedWindow.limit s = c /\ FixedWindow.window s = w /\
          forall key uw, FixedWindow.windows s !! key = Some uw ->
            (0 <= FixedWindow.count uw <= c)%Z /\
            exists z, FixedWindow.window_start uw = (inject_Z z * w)%Q)
    as (_ & _ & H); [|exact H].
  induction Hs as [|s now key b s' _ (IHc & IHw & IH) Hcall|s r _ (IHc & IHw & IH)].
  - split; [done|]. split; [done|]. intros key uw. simpl. by rewrite lookup_empty.
  - pose proof (fixed_allow_request_inv _ _ _ _ _ Hcall) as Hw.
    rewrite (fixed_allow_request_ok now key s Hw) in Hcall.
    injection Hcall as _ <-. simpl. split; [done|]. split; [done|].
    intros k uw. destruct (decide (key = k)) as [<-|Hne].
    + rewrite lookup_insert_eq. intros [= <-]. simpl.
      destruct (fixed_rolled_in_range c w (py_int (now / FixedWindow.window s))
                  (FixedWindow.windows s !! key) Hc) as [Hcnt Hz].
      { intros u Hu. by apply (IH key). }
      unfold FixedWindow.aligned. rewrite IHc, IHw in *.
      split; [|exact Hz].
      destruct (Z.ltb_spec
                  (FixedWindow.count
                     (FixedWindow.rolled (inject_Z (py_int (now / w)) * w)
                        (FixedWindow.windows s !! key))) c); lia.
    + rewrite lookup_insert_ne by done. apply IH.
  - unfold FixedWindow.reset. destruct (FixedWindow.windows s !! r) eqn:E; [|done].
    simpl. split; [done|]. split; [done|]. intros k uw.
    destruct (decide (r = k)) as [<-|Hne].
    + by rewrite lookup_delete_eq.
    + rewrite lookup_delete_ne by done. apply IH.
Qed.

Lemma fixed_window_records_in_range_witness :
  (0 <= FixedWindow.count (FixedWindow.mkWindow (inject_Z 3 * 1) 1) <= 2)%Z /\
  exists z,
    FixedWindow.window_start (FixedWindow.mkWindow (inject_Z 3 * 1) 1)
    = (inject_Z z * 1)%Q.
Proof.
  apply (fixed_window_records_in_range 2 1
           (FixedWindow.mkRateLimiter 2 1
              {[ "a" := FixedWindow.mkWindow (inject_Z 3 * 1) 1 ]})
           ltac:(lia)
           (reach_call _ _ _ (FixedWindow.new 2 1) (7 # 2) "a" true _
              (reach_init _ _ _) eq_refl)
           "a").
  reflexivity.
Defined.

(** ** A key that has been idle for a whole window *)



Lemma run_snoc {St : Type} (call : Q -> string -> St -> result (bool * St))
    cs now key s answers s1 b s2 :
  run call cs s = Ok (answers, s1) ->
  call now key s1 = Ok (b, s2) ->
  run call (cs ++ [(now, key)]) s = Ok (answers ++ [b], s2).
Proof.
  intros H1 H2. apply (run_app call cs [(now, key)] s answers s1 [b] s2 H1).
  simpl. by rewrite H2.
Qed.







Lemma fixed_record_old c w cs key B : forall s,
  (0 < w)%Q ->
  FixedWindow.limit s = c -> FixedWindow.window s = w ->
  (forall uw, FixedWindow.windows s !! key = Some uw ->
     exists t, (0 <= t)%Q /\ (t <= B)%Q /\
               FixedWindow.window_start uw = (inject_Z (py_int (t / w)) * w)%Q) ->
  Forall (fun call : Q * string => snd call = key -> 0 <= fst call /\ fst call <= B)%Q
         cs ->
  exists answers s',
    run FixedWindow.allow_request cs s = Ok (answers, s') /\
    FixedWindow.limit s' = c /\ FixedWindow.window s' = w /\
    (forall uw, FixedWindow.windows s' !! key = Some uw ->
       exists t, (0 <= t)%Q /\ (t <= B)%Q /\
                 FixedWindow.window_start uw = (inject_Z (py_int (t / w)) * w)%Q).
Proof.
  induction cs as [|[now k] cs IH]; intros s Hw0 Hc Hw Hold Hcs.
  - by exists [], s.
  - apply Forall_cons in Hcs as [Hk Hcs]. simpl in Hk.
    assert (Hwz : ~ (FixedWindow.window s == 0)%Q)
      by (rewrite Hw; intros E; rewrite E in Hw0; lra).
    pose proof (fixed_allow_request_ok now k s Hwz) as Hcall. simpl in Hcall.
    rewrite Hw, Hc in Hcall.
    set (uw := FixedWindow.rolled (FixedWindow.aligned s (now / w))
                 (FixedWindow.windows s !! k)) in *.
    set (b := (FixedWindow.count uw <? c)%Z) in *.
    set (s1 := FixedWindow.mkRateLimiter c w _) in Hcall.
    destruct (IH s1 Hw0 eq_refl eq_refl) as (answers & s' & Hrun & Hfin).
    + intros u Hu. unfold s1 in Hu. simpl in Hu.
      destruct (decide (k = key)) as [->|Hne].
      * rewrite lookup_insert_eq in Hu. injection Hu as <-. simpl.
        unfold uw, FixedWindow.rolled, FixedWindow.aligned. rewrite Hw.
        destruct (FixedWindow.windows s !! key) as [u0|] eqn:E; simpl.
        -- destruct (Qgtb _ _); simpl.
           ++ exists now. by destruct (Hk eq_refl).
           ++ by apply Hold.
        -- destruct (Qgtb _ _); simpl; exists now; by destruct (Hk eq_refl).
      * rewrite lookup_insert_ne in Hu by done. by apply Hold.
    + exact Hcs.
    + exists (b :: answers), s'. split; [|done].
      simpl. rewrite Hcall. simpl. by rewrite Hrun.
Qed.

(** X12.  A key whose calls are all at least a window old is in a later
    aligned window and is admitted by [reference/fixed_window.py], for a
    capacity of at least 1, a window of a whole number of seconds and clock
    readings in [0, 2^52), where [int(now / window) * window] is computed
    exactly. *)
Theorem fixed_idle_key_admitted (c : Z) (w : Q) (cs : list (Q * string))
    (now : Q) (key : string) :
  (1 <= c)%Z -> whole_seconds w = true ->
  clock_readings (cs ++ [(now, key)]) = true ->
  Forall (fun call : Q * string =>
            snd call = key -> 0 <= fst call /\ fst call <= now - w)%Q cs ->
  exists answers s',
    run FixedWindow.allow_request (cs ++ [(now, key)]) (FixedWindow.new c w)
    = Ok (answers ++ [true], s').
Proof.
  intros Hc Hw%whole_seconds_positive _ Hcs.
  destruct (fixed_record_old c w cs key (now - w)%Q (FixedWindow.new c w) Hw
              eq_refl eq_refl)
    as (answers & s1 & Hrun & Hlim & Hwin & Hold); [| done |].
  { intros uw Hu. simpl in Hu. by rewrite lookup_empty in Hu. }
  assert (Hwz : ~ (FixedWindow.window s1 == 0)%Q)
    by (rewrite Hwin; intros E; rewrite E in Hw; lra).
  pose proof (fixed_allow_request_ok now key s1 Hwz) as Hcall. simpl in Hcall.
  eexists answers, _. apply (run_snoc _ cs now key _ answers s1); [done|].
  rewrite Hcall. f_equal. f_equal. rewrite Hlim, Hwin.
  apply Z.ltb_lt.
  unfold FixedWindow.rolled, FixedWindow.aligned. rewrite Hwin.
  destruct (FixedWindow.windows s1 !! key) as [u0|] eqn:E; simpl.
  - destruct (Hold u0 eq_refl) as (t & Ht0 & HtB & ->).
    rewrite Qgtb_scaled by done.
    assert (py_int (t / w) + 1 <= py_int (now / w))%Z as Hz.
    { rewrite <- py_int_succ.
      - apply py_int_mono.
        assert (t / w + 1 == (t + w) / w)%Q as -> by (field; lra).
        apply Qmult_le_compat_r; [lra|].
        apply Qlt_le_weak, Qinv_lt_0_compat, Hw.
      - apply Qle_shift_div_l; [done | lra]. }
    destruct (Z.ltb_spec (py_int (t / w)) (py_int (now / w))); [simpl; lia | lia].
  - destruct (Qgtb _ _); simpl; lia.
Qed.

Lemma fixed_idle_key_admitted_witness :
  exists answers s',
    run FixedWindow.allow_request
        ([(0%Q, "a"); (0%Q, "a"); (1 # 2, "a"); (2%Q, "b")] ++ [(5 # 2, "a")])
        (FixedWindow.new 2 2)
    = Ok (answers ++ [true], s').
Proof.
  apply (fixed_idle_key_admitted 2 2
           [(0%Q, "a"); (0%Q, "a"); (1 # 2, "a"); (2%Q, "b")] (5 # 2) "a").
  - lia.
  - reflexivity.
  - reflexivity.
  - repeat (constructor;
              [simpl; intros H; first [discriminate | split; vm_compute; discriminate]|]).
    constructor.
Defined.

(** ** A reset gives the key its whole quota back *)

(** X13.  After [reset(key)] in [solution.py], whatever the key had used, the
    next [capacity] calls for it at one clock reading are all admitted and
    the one after is rejected, for a window of a whole number of seconds
    and a reading in [0, 2^52), where the cut-off [now - window] is computed
    exactly and so lies before [now]. *)
Theorem solution_reset_restores_quota (s : Solution.RateLimiter) (key : string)
    (t : Q) (c : nat) :
  Solution.max_requests s = Z.of_nat c ->
  whole_seconds (Solution.time_window s) = true ->
  clock_reading t = true ->
  exists s',
    run (total Solution.is_allowed) (burst c t key ++ burst 1 t key)
        (Solution.reset (Some key) s)
    = Ok (replicate c true ++ [false], s').
Proof.
  intros Hc Hw%whole_seconds_positive _.
  destruct (solution_reset_config (Some key) s) as [Hc0 Hw0].
  assert (Hd : Solution.deque_of (Solution.reset (Some key) s) key = []).
  { rewrite solution_reset_deque. by destruct (decide (key = key)). }
  destruct (solution_burst_admitted t key c (Solution.reset (Some key) s))
    as (s1 & Hrun1 & [Hc1 Hw1] & Hd1 & _).
  { by rewrite Hw0. }
  { rewrite Hd. constructor. }
  { rewrite Hd, Hc0, Hc. unfold len. simpl. lia. }
  destruct (solution_burst_rejected t key 1 s1) as (s2 & Hrun2 & _).
  { rewrite Hd1, Hd, Hw1, Hw0. simpl. apply list.Forall_forall. intros x Hx.
    apply elem_of_replicate in Hx as [-> _]. lra. }
  { rewrite Hd1, Hd, Hc1, Hc0, Hc. simpl. unfold len. rewrite length_replicate. lia. }
  exists s2. exact (run_app _ _ _ _ _ _ _ _ Hrun1 Hrun2).
Qed.

Lemma solution_reset_restores_quota_witness :
  exists s',
    run (total Solution.is_allowed) (burst 2 (1 # 2) "a" ++ burst 1 (1 # 2) "a")
        (Solution.reset (Some "a")
           (Solution.mkRateLimiter 2 1 {[ "a" := [0%Q; (1 # 4)] ]}))
    = Ok (replicate 2 true ++ [false], s').
Proof.
  apply (solution_reset_restores_quota
           (Solution.mkRateLimiter 2 1 {[ "a" := [0%Q; (1 # 4)] ]}) "a" (1 # 2) 2);
    reflexivity.
Defined.




(** * The service *)

Section AppProperties.
Context {L : Type}.
Variable allow_request : Q -> string -> L -> result (bool * L).
Variable shorten_url : string -> string.

Local Abbreviation handle := (App.handle allow_request shorten_url).
Local Abbreviation serve := (App.serve allow_request shorten_url).

Lemma app_handle_consistent now req st :
  App.consistent st ->
  App.consistent (App.final_state (handle now req st)) /\
  forall key st', handle now req st <> App.Raised (App.KeyError key) st'.
Proof.
  intros Hc. destruct req as [data|code uid|code|]; simpl.
  - unfold App.create_short_url.
    destruct (App.falsy data || App.lacks "url" data); [by split|].
    destruct (allow_request _ _ _) as [[[] lim]|e]; simpl; (split; [|done]).
    + intros k. simpl. destruct (decide (shorten_url
          (default String.EmptyString (default ∅ data !! "url")) = k)) as [<-|Hne].
      * rewrite !lookup_insert_eq. split; intros _; by eexists.
      * rewrite !lookup_insert_ne by done. apply Hc.
    + exact Hc.
    + exact Hc.
  - unfold App.redirect_to_url.
    destruct (allow_request _ _ _) as [[[] lim]|e]; simpl; [|by split|by split].
    destruct (App.url_store st !! code) as [u|] eqn:Eu; [|by split].
    destruct (App.url_stats st !! code) as [n|] eqn:En.
    + split; [|done]. intros k. simpl. destruct (decide (code = k)) as [<-|Hne].
      * rewrite lookup_insert_eq, Eu. split; intros _; by eexists.
      * rewrite lookup_insert_ne by done. apply Hc.
    + exfalso. assert (is_Some (App.url_stats st !! code)) as [? ?]
        by (apply Hc; by eexists). congruence.
  - unfold App.get_stats.
    destruct (App.url_store st !! code) as [u|] eqn:Eu; [|by split].
    destruct (App.url_stats st !! code) as [n|] eqn:En; [by split|].
    exfalso. assert (is_Some (App.url_stats st !! code)) as [? ?]
      by (apply Hc; by eexists). congruence.
  - by split.
Qed.

Variable good : L -> Prop.
Hypothesis allow_good : forall now key lim,
  good lim -> exists b lim', allow_request now key lim = Ok (b, lim') /\ good lim'.

Lemma app_handle_returns now req st :
  App.consistent st ->
  good (App.shorten_limiter st) -> good (App.redirect_limiter st) ->
  exists r st',
    handle now req st = App.Returned r st' /\
    App.consistent st' /\
    good (App.shorten_limiter st') /\ good (App.redirect_limiter st').
Proof.
  intros Hc Hs Hr.
  destruct (app_handle_consistent now req st Hc) as [Hc' Hk].
  destruct req as [data|code uid|code|]; simpl in *.
  - unfold App.create_short_url in *.
    destruct (App.falsy data || App.lacks "url" data); [by eexists _, _|].
    destruct (allow_good now (default "anonymous" (default ∅ data !! "user_id"))
                (App.shorten_limiter st) Hs) as (b & lim & E & Hg).
    rewrite E in *. destruct b; by eexists _, _.
  - unfold App.redirect_to_url in *.
    destruct (allow_good now (default "anonymous" uid)
                (App.redirect_limiter st) Hr) as (b & lim & E & Hg).
    rewrite E in *. destruct b; [|by eexists _, _].
    destruct (App.url_store st !! code) as [u|]; [|by eexists _, _].
    destruct (App.url_stats st !! code) as [n|]; [by eexists _, _|].
    by destruct (Hk code (App.mkState (App.url_store st) (App.url_stats st)
                            (App.shorten_limiter st) lim)).
  - unfold App.get_stats in *.
    destruct (App.url_store st !! code) as [u|]; [|by eexists _, _].
    destruct (App.url_stats st !! code) as [n|]; [by eexists _, _|].
    by destruct (Hk code st).
  - by eexists _, _.
Qed.

Lemma app_serve_returns reqs : forall st,
  App.consistent st ->
  good (App.shorten_limiter st) -> good (App.redirect_limiter st) ->
  exists rs st',
    serve reqs st = (rs, None, st') /\
    length rs = length reqs /\ App.consistent st'.
Proof.
  induction reqs as [|[now req] reqs IH]; intros st Hc Hs Hr.
  - by exists [], st.
  - destruct (app_handle_returns now req st Hc Hs Hr)
      as (r & st1 & E & Hc1 & Hs1 & Hr1).
    destruct (IH st1 Hc1 Hs1 Hr1) as (rs & st' & E' & Hlen & Hc').
    exists (r :: rs), st'. simpl. rewrite E, E'. simpl. by rewrite Hlen.
Qed.

End AppProperties.

Lemma app_consistent_empty {L : Type} (a b : L) :
  App.consistent (App.mkState ∅ ∅ a b).
Proof. intros k. simpl. by rewrite !lookup_empty. Qed.

(** X15.  The store and the click counters always have the same keys.  In
    each of the three rate-limited services, after any sequence of requests
    (a body that is absent or a JSON object of strings) served from
    start-up, [url_store] and [url_stats] have the same keys; so no handler
    raises [KeyError] ([url_stats[short_code] += 1] and the statistics
    never miss their key), and no limiter call raises [ZeroDivisionError] or
    [OverflowError].  Nothing is said of what [redirect()] and [jsonify()]
    themselves may raise. *)
Theorem app_serves_every_request (shorten_url : string -> string)
    (reqs : list (Q * App.request)) :
  (exists rs e st',
     App.serve FixedWindow.allow_request shorten_url reqs App.fixed_window_app
     = (rs, e, st') /\
     App.consistent st' /\
     (forall key, e <> Some (App.KeyError key)) /\
     (forall x, e <> Some (App.LimiterError x))) /\
  (exists rs e st',
     App.serve (total SlidingWindow.allow_request) shorten_url reqs
       App.sliding_window_app
     = (rs, e, st') /\
     App.consistent st' /\
     (forall key, e <> Some (App.KeyError key)) /\
     (forall x, e <> Some (App.LimiterError x))) /\
  (exists app rs e st',
     App.token_bucket_app = Ok app /\
     App.serve (total TokenBucket.allow_request) shorten_url reqs app
     = (rs, e, st') /\
     App.consistent st' /\
     (forall key, e <> Some (App.KeyError key)) /\
     (forall x, e <> Some (App.LimiterError x))).
Proof.
  split; [|split].
  - destruct (app_serve_returns FixedWindow.allow_request shorten_url
                (fun lim => FixedWindow.window lim = 60%Q))
      with (reqs := reqs) (st := App.fixed_window_app) as (rs & st' & H & _ & Hc).
    + intros now key lim Hw.
      assert (Hwz : ~ (FixedWindow.window lim == 0)%Q) by (by rewrite Hw).
      rewrite (fixed_allow_request_ok now key lim Hwz). by eexists _, _.
    + apply app_consistent_empty.
    + done.
    + done.
    + by exists rs, None, st'.
  - destruct (app_serve_returns (total SlidingWindow.allow_request) shorten_url
                (fun _ => True))
      with (reqs := reqs) (st := App.sliding_window_app) as (rs & st' & H & _ & Hc).
    + intros now key lim _. unfold total.
      exists (fst (SlidingWindow.allow_request now key lim)),
             (snd (SlidingWindow.allow_request now key lim)).
      by rewrite <- surjective_pairing.
    + apply app_consistent_empty.
    + done.
    + done.
    + by exists rs, None, st'.
  - set (app := App.mkState ∅ ∅
                  (TokenBucket.mkRateLimiter 10 60 (inject_Z 10 / 60) ∅)
                  (TokenBucket.mkRateLimiter 100 60 (inject_Z 100 / 60) ∅)).
    destruct (app_serve_returns (total TokenBucket.allow_request) shorten_url
                (fun _ => True)) with (reqs := reqs) (st := app)
      as (rs & st' & H & _ & Hc).
    + intros now key lim _. unfold total.
      exists (fst (TokenBucket.allow_request now key lim)),
             (snd (TokenBucket.allow_request now key lim)).
      by rewrite <- surjective_pairing.
    + apply app_consistent_empty.
    + done.
    + done.
    + by exists app, rs, None, st'.
Qed.

Section AppRequests.
Context {L : Type}.
Variable allow_request : Q -> string -> L -> result (bool * L).
Variable shorten_url : string -> string.

Lemma app_create_200 now data st body st' :
  App.create_short_url allow_request shorten_url now data st
  = App.Returned (App.Jsonify 200 body) st' ->
  exists d long_url lim,
    data = Some d /\ d !! "url" = Some long_url /\
    allow_request now (default "anonymous" (d !! "user_id")) (App.shorten_limiter st)
    = Ok (true, lim) /\
    st' = App.mkState (<[shorten_url long_url := long_url]> (App.url_store st))
            (<[shorten_url long_url := 0%Z]> (App.url_stats st))
            lim (App.redirect_limiter st).
Proof.
  unfold App.create_short_url.
  destruct data as [d|]; [|discriminate]. unfold App.falsy, App.lacks.
  destruct (d !! "url") as [u|] eqn:Eu.
  - rewrite (bool_decide_eq_false_2 (Some u = None)) by done.
    rewrite orb_false_r. destruct (bool_decide (d = ∅)); [discriminate|].
    cbn [default from_option id]. rewrite Eu. cbn [from_option id].
    destruct (allow_request _ _ _) as [[[] lim]|e] eqn:E; [|discriminate|discriminate].
    intros [= <- <-]. by exists d, u, lim.
  - rewrite (bool_decide_eq_true_2 (None = None)) by done.
    rewrite orb_true_r. discriminate.
Qed.

(** X16.  Shorten, then look up.  After POST /shorten has answered 200 for a URL,
    whatever was stored before under its short code: GET /stats/<code>
    reports that URL with 0 clicks; a GET /<code> that the redirect limiter
    admits counts one click, whether [redirect()] then returns or raises,
    so that the statistics report 1 click afterwards; and if the handler
    returns, what it returns is the redirect to that URL. *)
Theorem app_shorten_then_redirect (now : Q) (data : option (gmap string string))
    (st st' : App.state L) (body : list (string * App.json)) :
  App.create_short_url allow_request shorten_url now data st
  = App.Returned (App.Jsonify 200 body) st' ->
  exists long_url,
    (exists d, data = Some d /\ d !! "url" = Some long_url) /\
    body = [("short_url",
             App.JStr (String.append "http://short.url/" (shorten_url long_url)));
            ("long_url", App.JStr long_url)] /\
    App.get_stats (shorten_url long_url) st'
    = App.Returned
        (App.Jsonify 200
           [("short_code", App.JStr (shorten_url long_url));
            ("long_url", App.JStr long_url); ("clicks", App.JInt 0)]) st' /\
    forall now' user_id lim,
      allow_request now' (default "anonymous" user_id) (App.redirect_limiter st')
      = Ok (true, lim) ->
      App.get_stats (shorten_url long_url)
        (App.final_state
           (App.redirect_to_url allow_request now' (shorten_url long_url) user_id st'))
      = App.Returned
          (App.Jsonify 200
             [("short_code", App.JStr (shorten_url long_url));
              ("long_url", App.JStr long_url); ("clicks", App.JInt 1)])
          (App.final_state
             (App.redirect_to_url allow_request now' (shorten_url long_url)
                user_id st')) /\
      forall r st'',
        App.redirect_to_url allow_request now' (shorten_url long_url) user_id st'
        = App.Returned r st'' ->
        r = App.Redirect long_url.
Proof.
  intros Hcreate.
  destruct (app_create_200 _ _ _ _ _ Hcreate) as (d & u & lim & -> & Hu & Hal & ->).
  exists u. split; [by exists d|]. split.
  - unfold App.create_short_url, App.falsy, App.lacks in Hcreate.
    rewrite Hu in Hcreate.
    assert (bool_decide (d = ∅) = false) as Hne.
    { apply bool_decide_eq_false_2. intros ->. by rewrite lookup_empty in Hu. }
    rewrite Hne, (bool_decide_eq_false_2 (Some u = None)) in Hcreate by done.
    cbn [orb default from_option id] in Hcreate. rewrite Hu in Hcreate.
    cbn [from_option id] in Hcreate. rewrite Hal in Hcreate.
    by injection Hcreate as <-.
  - split.
    + unfold App.get_stats. simpl. by rewrite !lookup_insert_eq.
    + intros now' uid lim' Hal'.
      unfold App.redirect_to_url. simpl in *. rewrite Hal'. simpl.
      rewrite !lookup_insert_eq. simpl. split.
      * unfold App.get_stats. simpl. by rewrite !lookup_insert_eq.
      * by intros r st'' [= <- _].
Qed.

(** X17.  Responses that are neither a 200 nor a redirect leave the store and the
    click counters as they were; a 400 changes nothing at all, so a
    malformed POST /shorten costs no quota, while a 404 from GET /<code>
    has gone through the redirect limiter and has cost the caller one
    admission. *)
Theorem app_error_responses (now : Q) (req : App.request) (st st' : App.state L)
    (r : App.response) :
  App.handle allow_request shorten_url now req st = App.Returned r st' ->
  (App.status_of r <> 200%Z -> App.status_of r <> 302%Z ->
   App.url_store st' = App.url_store st /\ App.url_stats st' = App.url_stats st) /\
  (App.status_of r = 400%Z -> st' = st) /\
  (App.status_of r = 404%Z ->
   forall short_code user_id,
     req = App.GetRedirect short_code user_id ->
     allow_request now (default "anonymous" user_id) (App.redirect_limiter st)
     = Ok (true, App.redirect_limiter st') /\
     App.shorten_limiter st' = App.shorten_limiter st).
Proof.
  intros H. destruct req as [data|code uid|code|]; simpl in H.
  - unfold App.create_short_url in H.
    destruct (App.falsy data || App.lacks "url" data).
    + injection H as <- <-. by repeat split.
    + destruct (allow_request _ _ _) as [[[] lim]|e]; [| |discriminate];
        injection H as <- <-; simpl; repeat split; try done; try discriminate.
  - unfold App.redirect_to_url in H.
    destruct (allow_request _ _ _) as [[[] lim]|e] eqn:E; [| |discriminate].
    + destruct (App.url_store st !! code) as [u|].
      * destruct (App.url_stats st !! code) as [n|]; [|discriminate].
        injection H as <- <-. simpl. repeat split; try done; discriminate.
      * injection H as <- <-. simpl. split; [done|]. split; [discriminate|].
        intros _ code' uid' [= -> ->]. by split.
    + injection H as <- <-. simpl. repeat split; try done; discriminate.
  - unfold App.get_stats in H.
    destruct (App.url_store st !! code) as [u|].
    + destruct (App.url_stats st !! code) as [n|]; [|discriminate].
      injection H as <- <-. simpl. repeat split; try done; discriminate.
    + injection H as <- <-. simpl. repeat split; try done; discriminate.
  - injection H as <- <-. simpl. repeat split; try done; discriminate.
Qed.

(** X18.  Behind the limiters the handlers are those of [app.py]: whenever the
    answer is not a 429, POST /shorten and GET /<code> return what [app.py]
    returns on the same store and counters, and leave them as [app.py]
    does. *)
Theorem app_agrees_with_plain_app (now : Q) (st : App.state L) :
  (forall data r st',
     App.create_short_url allow_request shorten_url now data st = App.Returned r st' ->
     App.status_of r <> 429%Z ->
     App.plain_create_short_url shorten_url data (App.without_limiters st)
     = App.Returned r (App.without_limiters st')) /\
  (forall short_code user_id r st',
     App.redirect_to_url allow_request now short_code user_id st
     = App.Returned r st' ->
     App.status_of r <> 429%Z ->
     App.plain_redirect_to_url short_code (App.without_limiters st)
     = App.Returned r (App.without_limiters st')).
Proof.
  split.
  - intros data r st' H Hs. unfold App.create_short_url in H.
    unfold App.plain_create_short_url.
    destruct (App.falsy data || App.lacks "url" data).
    + by injection H as <- <-.
    + destruct (allow_request _ _ _) as [[[] lim]|e]; [| |discriminate];
        injection H as <- <-; [done | by destruct Hs].
  - intros code uid r st' H Hs. unfold App.redirect_to_url in H.
    unfold App.plain_redirect_to_url. simpl.
    destruct (allow_request _ _ _) as [[[] lim]|e]; [| |discriminate].
    + destruct (App.url_store st !! code) as [u|].
      * destruct (App.url_stats st !! code) as [n|]; [|discriminate].
        by injection H as <- <-.
      * by injection H as <- <-.
    + injection H as <- <-. by destruct Hs.
Qed.

(** X19.  Nothing is ever removed: a short code that is stored stays stored, with
    its counter, through every request, whether it returns or raises. *)
Theorem app_store_only_grows (now : Q) (req : App.request) (st : App.state L)
    (short_code : string) :
  is_Some (App.url_store st !! short_code) ->
  is_Some (App.url_store
             (App.final_state (App.handle allow_request shorten_url now req st))
           !! short_code) /\
  (size (App.url_store st)
   <= size (App.url_store
              (App.final_state (App.handle allow_request shorten_url now req st))))%nat.
Proof.
  intros Hin. destruct req as [data|code uid|code|]; simpl.
  - unfold App.create_short_url.
    destruct (App.falsy data || App.lacks "url" data); [done|].
    destruct (allow_request _ _ _) as [[[] lim]|e]; simpl; try done.
    set (k := shorten_url _). set (u := default _ _). split.
    + destruct (decide (k = short_code)) as [->|Hne].
      * rewrite lookup_insert_eq. by eexists.
      * by rewrite lookup_insert_ne.
    + destruct (App.url_store st !! k) as [u0|] eqn:E.
      * rewrite <- (insert_id (App.url_store st) k u0 E) at 1.
        by rewrite !map_size_insert_Some by (by rewrite ?lookup_insert_eq).
      * rewrite map_size_insert_None by done. lia.
  - unfold App.redirect_to_url.
    destruct (allow_request _ _ _) as [[[] lim]|e]; simpl; try done.
    destruct (App.url_store st !! code) as [u|]; simpl; [|done].
    by destruct (App.url_stats st !! code) as [n|].
  - unfold App.get_stats.
    destruct (App.url_store st !! code) as [u|]; simpl; [|done].
    by destruct (App.url_stats st !! code) as [n|].
  - done.
Qed.

End AppRequests.

Lemma app_shorten_body_lookup long_url user_id :
  App.shorten_body long_url user_id !! "url" = Some long_url /\
  App.shorten_body long_url user_id !! "user_id" = user_id /\
  App.shorten_body long_url user_id <> ∅.
Proof.
  unfold App.shorten_body. destruct user_id as [u|].
  - rewrite lookup_insert_ne by done. rewrite lookup_singleton_eq, lookup_insert_eq.
    repeat split. apply insert_non_empty.
  - rewrite lookup_singleton_eq, lookup_singleton_ne by done.
    repeat split. apply insert_non_empty.
Qed.



Lemma app_shorten_then_redirect_witness :
  let allow := total SlidingWindow.allow_request in
  let h := fun url : string => String.append "c:" url in
  let data := Some (App.shorten_body "https://example.org/a" (Some "ann")) in
  let st' := App.final_state
               (App.create_short_url allow h 0 data App.sliding_window_app) in
  exists long_url,
    (exists d, data = Some d /\ d !! "url" = Some long_url) /\
    [("short_url", App.JStr "http://short.url/c:https://example.org/a");
     ("long_url", App.JStr "https://example.org/a")]
    = [("short_url", App.JStr (String.append "http://short.url/" (h long_url)));
       ("long_url", App.JStr long_url)] /\
    App.get_stats (h long_url) st'
    = App.Returned
        (App.Jsonify 200
           [("short_code", App.JStr (h long_url));
            ("long_url", App.JStr long_url); ("clicks", App.JInt 0)]) st' /\
    forall now' user_id lim,
      allow now' (default "anonymous" user_id) (App.redirect_limiter st')
      = Ok (true, lim) ->
      App.get_stats (h long_url)
        (App.final_state (App.redirect_to_url allow now' (h long_url) user_id st'))
      = App.Returned
          (App.Jsonify 200
             [("short_code", App.JStr (h long_url));
              ("long_url", App.JStr long_url); ("clicks", App.JInt 1)])
          (App.final_state
             (App.redirect_to_url allow now' (h long_url) user_id st')) /\
      forall r st'',
        App.redirect_to_url allow now' (h long_url) user_id st'
        = App.Returned r st'' ->
        r = App.Redirect long_url.
Proof.
  intros allow h data st'.
  apply (app_shorten_then_redirect allow h 0%Q data App.sliding_window_app st').
  vm_compute. reflexivity.
Defined.

Lemma app_error_responses_witness :
  let allow := total SlidingWindow.allow_request in
  let h := fun url : string => String.append "c:" url in
  let st' := App.final_state
               (App.handle allow h 0 (App.GetRedirect "nowhere" None)
                  App.sliding_window_app) in
  App.url_store st' = App.url_store App.sliding_window_app /\
  App.url_stats st' = App.url_stats App.sliding_window_app /\
  allow 0%Q "anonymous" (App.redirect_limiter App.sliding_window_app)
  = Ok (true, App.redirect_limiter st').
Proof.
  intros allow h st'.
  destruct (app_error_responses allow h 0%Q (App.GetRedirect "nowhere" None)
              App.sliding_window_app st'
              (App.Jsonify 404 [("error", App.JStr "URL not found")]))
    as (H1 & _ & H3).
  - vm_compute. reflexivity.
  - destruct H1 as [Hs Ht]; [discriminate | discriminate |].
    split; [exact Hs|]. split; [exact Ht|].
    exact (proj1 (H3 eq_refl "nowhere" None eq_refl)).
Defined.

Lemma app_agrees_with_plain_app_witness :
  let allow := total SlidingWindow.allow_request in
  let h := fun url : string => String.append "c:" url in
  let data := Some (App.shorten_body "https://example.org/a" None) in
  let o := App.create_short_url allow h 0 data App.sliding_window_app in
  App.plain_create_short_url h data (App.without_limiters App.sliding_window_app)
  = App.plain_outcome o.
Proof.
  intros allow h data o.
  destruct (app_agrees_with_plain_app allow h 0%Q App.sliding_window_app) as [H _].
  apply (H data
           (App.Jsonify 200
              [("short_url", App.JStr "http://short.url/c:https://example.org/a");
               ("long_url", App.JStr "https://example.org/a")])
           (App.final_state o)).
  - vm_compute. reflexivity.
  - discriminate.
Defined.

Lemma app_store_only_grows_witness :
  let allow := total SlidingWindow.allow_request in
  let h := fun url : string => String.append "c:" url in
  let st := App.mkState {[ "c:x" := "x" ]} {[ "c:x" := 3%Z ]}
              (SlidingWindow.new 10 60) (SlidingWindow.new 100 60) in
  let data := Some (App.shorten_body "y" None) in
  is_Some (App.url_store
             (App.final_state (App.handle allow h 0 (App.PostShorten data) st))
           !! "c:x") /\
  (size (App.url_store st)
   <= size (App.url_store
              (App.final_state (App.handle allow h 0 (App.PostShorten data) st))))%nat.
Proof.
  intros allow h st data.
  apply (app_store_only_grows allow h 0%Q (App.PostShorten data) st "c:x").
  by eexists.
Defined.

(** * The evaluation script *)

Lemma clamp_range x :
  (0 <= Eval.py_max 0 (py_min 1 x))%Q /\ (Eval.py_max 0 (py_min 1 x) <= 1)%Q.
Proof.
  unfold Eval.py_max, py_min. split.
  - apply Q.le_max_l.
  - apply Q.max_lub; [lra | apply Q.le_min_l].
Qed.

Lemma clamp_value x :
  (Eval.py_max 0 (py_min 1 x) ==
   if Qleb x 0 then 0 else if Qleb 1 x then 1 else x)%Q.
Proof.
  unfold Eval.py_max, py_min.
  destruct (Qleb_spec x 0) as [H0|H0].
  - rewrite Q.max_l; [reflexivity|].
    apply (Qle_trans _ x); [apply Q.le_min_r | exact H0].
  - destruct (Qleb_spec 1 x) as [H1|H1].
    + rewrite (Q.min_l 1 x) by exact H1. rewrite Q.max_r; [reflexivity | lra].
    + rewrite (Q.min_r 1 x) by lra. rewrite Q.max_r; [reflexivity | lra].
Qed.

Lemma passed_count_range rs :
  (0 <= Eval.passed_count rs <= len rs)%Z.
Proof.
  unfold Eval.passed_count, len.
  pose proof (filter_length_le (fun b : bool => b) rs). lia.
Qed.

Lemma passed_count_all rs :
  Eval.passed_count rs = len rs <-> Eval.success rs = true.
Proof.
  unfold Eval.passed_count, Eval.success, len. split.
  - intros H. apply Nat2Z.inj in H. by apply filter_length_forallb.
  - intros H. f_equal. induction rs as [|[] rs IH]; simpl in *; [done | | done].
    f_equal. by apply IH.
Qed.

(** X21.  Every score the evaluation reports lies between 0 and 1, whatever the
    line count, the complexity, the measured duration and the test
    results (at least one test). *)
Theorem eval_scores_in_unit_interval (loc complexity : Z) (duration : Q)
    (test_results : list bool) :
  test_results <> [] ->
  (0 <= Eval.loc_score loc <= 1)%Q /\
  (0 <= Eval.complexity_score complexity <= 1)%Q /\
  (0 <= Eval.simplicity_score loc complexity <= 1)%Q /\
  (0 <= Eval.perf_score duration <= 1)%Q /\
  exists q, Eval.correctness_score test_results = Ok q /\ (0 <= q <= 1)%Q.
Proof.
  intros Hne.
  assert (Hl : (0 <= Eval.loc_score loc <= 1)%Q).
  { unfold Eval.loc_score. destruct (loc <=? 200)%Z; [apply clamp_range | lra]. }
  assert (Hc : (0 <= Eval.complexity_score complexity <= 1)%Q).
  { unfold Eval.complexity_score.
    destruct (complexity <=? 100)%Z; [apply clamp_range | lra]. }
  split; [done|]. split; [done|]. split; [|split].
  - unfold Eval.simplicity_score. split.
    + apply Qle_shift_div_l; lra.
    + apply Qle_shift_div_r; lra.
  - unfold Eval.perf_score. destruct (Qleb duration 2); [apply clamp_range | lra].
  - unfold Eval.correctness_score.
    assert (0 < len test_results)%Z as Hpos
      by (unfold len; destruct test_results; [done | simpl; lia]).
    assert (0 < inject_Z (len test_results))%Q as HposQ
      by (change 0%Q with (inject_Z 0); by rewrite <- Zlt_Qlt).
    rewrite py_div_ok by (intros E; rewrite E in HposQ; lra).
    eexists. split; [done|].
    destruct (passed_count_range test_results) as [H0 H1].
    split.
    + apply Qle_shift_div_l; [done|]. rewrite Qmult_0_l.
      change 0%Q with (inject_Z 0). by rewrite <- Zle_Qle.
    + apply Qle_shift_div_r; [done|]. rewrite Qmult_1_l. by rewrite <- Zle_Qle.
Qed.

Lemma eval_scores_in_unit_interval_witness :
  (0 <= Eval.loc_score 59 <= 1)%Q /\
  (0 <= Eval.complexity_score 7 <= 1)%Q /\
  (0 <= Eval.simplicity_score 59 7 <= 1)%Q /\
  (0 <= Eval.perf_score (1 # 4) <= 1)%Q /\
  exists q, Eval.correctness_score [true; true; false; true; true; true] = Ok q /\
            (0 <= q <= 1)%Q.
Proof.
  apply (eval_scores_in_unit_interval 59 7 (1 # 4)
           [true; true; false; true; true; true]).
  discriminate.
Defined.

(** X22.  The line score falls linearly from 1 at no lines to 0 at 100 lines
    and is 0 from there on, so the cut-off at 200 lines changes nothing and
    [eval.py] and [eval_example.py] give every file the same line score. *)
Theorem eval_loc_score_closed_form (loc : Z) :
  (Eval.loc_score loc ==
   if (loc <=? 0)%Z then 1
   else if (100 <=? loc)%Z then 0
   else inject_Z (100 - loc) / 100)%Q /\
  (Eval.loc_score loc == Eval.example_simplicity_score loc)%Q.
Proof.
  assert (Hx : (inject_Z (100 - loc) / 100 == 1 - inject_Z loc * (1 # 100))%Q).
  { unfold Z.sub. rewrite inject_Z_plus, inject_Z_opp.
    change (inject_Z 100) with 100%Q. field. }
  assert (Hle : forall a b : Z, (a <= b)%Z -> (inject_Z a <= inject_Z b)%Q)
    by (intros a b H; by rewrite <- Zle_Qle).
  assert (Hlt : forall a b : Z, (a < b)%Z -> (inject_Z a < inject_Z b)%Q)
    by (intros a b H; by rewrite <- Zlt_Qlt).
  assert (Hex : (Eval.example_simplicity_score loc ==
                 if (loc <=? 0)%Z then 1
                 else if (100 <=? loc)%Z then 0
                 else inject_Z (100 - loc) / 100)%Q).
  { unfold Eval.example_simplicity_score. rewrite clamp_value.
    destruct (Z.leb_spec loc 0) as [H0|H0].
    - pose proof (Hle _ _ H0) as HQ. change (inject_Z 0) with 0%Q in HQ.
      destruct (Qleb_spec (inject_Z (100 - loc) / 100) 0) as [E|E];
        [rewrite Hx in E; lra|].
      destruct (Qleb_spec 1 (inject_Z (100 - loc) / 100)) as [E1|E1];
        [reflexivity | rewrite Hx in E1; lra].
    - pose proof (Hlt _ _ H0) as HQ. change (inject_Z 0) with 0%Q in HQ.
      destruct (Z.leb_spec 100 loc) as [H1|H1].
      + pose proof (Hle _ _ H1) as HQ1. change (inject_Z 100) with 100%Q in HQ1.
        destruct (Qleb_spec (inject_Z (100 - loc) / 100) 0) as [E|E];
          [reflexivity | rewrite Hx in E; lra].
      + pose proof (Hlt _ _ H1) as HQ1. change (inject_Z 100) with 100%Q in HQ1.
        destruct (Qleb_spec (inject_Z (100 - loc) / 100) 0) as [E|E];
          [rewrite Hx in E; lra|].
        destruct (Qleb_spec 1 (inject_Z (100 - loc) / 100)) as [E1|E1];
          [rewrite Hx in E1; lra | reflexivity]. }
  assert (Heq : (Eval.loc_score loc == Eval.example_simplicity_score loc)%Q).
  { unfold Eval.loc_score. destruct (Z.leb_spec loc 200) as [H|H]; [reflexivity|].
    rewrite Hex. destruct (Z.leb_spec loc 0); [lia|].
    destruct (Z.leb_spec 100 loc); [reflexivity | lia]. }
  split; [by rewrite Heq | exact Heq].
Qed.

(** X23.  The run succeeds, with exit code 0, exactly when the correctness score
    is 1; with no test results the score itself raises
    [ZeroDivisionError]. *)
Theorem eval_success_iff_full_score (test_results : list bool) :
  (test_results <> [] ->
   exists q, Eval.correctness_score test_results = Ok q /\
             ((q == 1)%Q <-> Eval.success test_results = true) /\
             ((q == 1)%Q <-> Eval.exit_code test_results = 0%Z)) /\
  (test_results = [] ->
   Eval.correctness_score test_results = Raise ZeroDivisionError).
Proof.
  split.
  - intros Hne. unfold Eval.correctness_score.
    assert (0 < len test_results)%Z as Hpos
      by (unfold len; destruct test_results; [done | simpl; lia]).
    assert (0 < inject_Z (len test_results))%Q as HposQ
      by (change 0%Q with (inject_Z 0); by rewrite <- Zlt_Qlt).
    assert (Hnz : ~ (inject_Z (len test_results) == 0)%Q)
      by (intros E; rewrite E in HposQ; lra).
    rewrite py_div_ok by done. eexists. split; [done|].
    assert (Hiff : (inject_Z (Eval.passed_count test_results)
                    / inject_Z (len test_results) == 1)%Q
                   <-> Eval.success test_results = true).
    { rewrite <- passed_count_all. split.
      - intros E. apply inject_Z_injective.
        rewrite <- (Qmult_div_r (inject_Z (Eval.passed_count test_results))
                      (inject_Z (len test_results))) by done.
        rewrite E. ring.
      - intros ->. by field. }
    split; [exact Hiff|]. rewrite Hiff. unfold Eval.exit_code.
    by destruct (Eval.success test_results).
  - intros ->. reflexivity.
Qed.

Lemma eval_success_iff_full_score_witness :
  (exists q, Eval.correctness_score [true; true; true; true; true; false] = Ok q /\
             ((q == 1)%Q <->
              Eval.success [true; true; true; true; true; false] = true) /\
             ((q == 1)%Q <->
              Eval.exit_code [true; true; true; true; true; false] = 0%Z)) /\
  Eval.correctness_score [] = Raise ZeroDivisionError.
Proof.
  split.
  - apply (eval_success_iff_full_score [true; true; true; true; true; false]).
    discriminate.
  - apply (eval_success_iff_full_score []). reflexivity.
Defined.

(** X24.  The stress test passes (duration under one second) exactly when the
    performance score is positive, and then the score is what is left of
    the second. *)
Theorem eval_performance_score (duration : Q) :
  (Eval.performance_passed duration = true <-> (0 < Eval.perf_score duration)%Q) /\
  ((0 <= duration)%Q -> (duration < 1)%Q ->
   (Eval.perf_score duration == 1 - duration)%Q).
Proof.
  assert (Hx : ((1 - duration) / 1 == 1 - duration)%Q) by field.
  assert (Hv : (Eval.perf_score duration ==
                if Qleb duration 2
                then (if Qleb (1 - duration) 0 then 0
                      else if Qleb 1 (1 - duration) then 1 else 1 - duration)
                else 0)%Q).
  { unfold Eval.perf_score. destruct (Qleb duration 2); [|reflexivity].
    rewrite clamp_value.
    rewrite (Qleb_compat _ (1 - duration) 0 0 Hx) by reflexivity.
    rewrite (Qleb_compat 1 1 _ (1 - duration)) by (reflexivity || exact Hx).
    destruct (Qleb (1 - duration) 0); [reflexivity|].
    destruct (Qleb 1 (1 - duration)); [reflexivity | exact Hx]. }
  split.
  - unfold Eval.performance_passed. rewrite Hv, Qltb_true.
    destruct (Qleb_spec duration 2) as [H2|H2].
    + destruct (Qleb_spec (1 - duration) 0) as [H0|H0]; [split; intros; lra|].
      destruct (Qleb_spec 1 (1 - duration)); split; intros; lra.
    + split; intros; lra.
  - intros H0 H1. rewrite Hv.
    destruct (Qleb_spec duration 2) as [H2|H2]; [|lra].
    destruct (Qleb_spec (1 - duration) 0) as [H3|H3]; [lra|].
    destruct (Qleb_spec 1 (1 - duration)) as [H4|H4]; [lra | reflexivity].
Qed.

Lemma eval_performance_score_witness :
  (Eval.perf_score (1 # 4) == 1 - (1 # 4))%Q.
Proof.
  apply (eval_performance_score (1 # 4)); [vm_compute; discriminate | reflexivity].
Defined.

(** ** The functional tests, run on [solution.py] *)

Lemma solution_new_deque c w key : Solution.deque_of (Solution.new c w) key = [].
Proof. unfold Solution.deque_of, Solution.new. simpl. by rewrite lookup_empty. Qed.

Lemma solution_reset_all_deque s key :
  Solution.deque_of (Solution.reset None s) key = [].
Proof. unfold Solution.deque_of, Solution.reset. simpl. by rewrite lookup_empty. Qed.

Lemma solution_call_max now key s :
  Solution.max_requests (snd (Solution.is_allowed now key s))
  = Solution.max_requests s.
Proof. apply solution_is_allowed_config. Qed.

Lemma solution_call_window now key s :
  Solution.time_window (snd (Solution.is_allowed now key s))
  = Solution.time_window s.
Proof. apply solution_is_allowed_config. Qed.

Lemma solution_reset_max r s :
  Solution.max_requests (Solution.reset r s) = Solution.max_requests s.
Proof. apply solution_reset_config. Qed.

Lemma solution_reset_window r s :
  Solution.time_window (Solution.reset r s) = Solution.time_window s.
Proof. apply solution_reset_config. Qed.

Lemma solution_call_deque now key key' s :
  Solution.deque_of (snd (Solution.is_allowed now key s)) key' =
  if decide (key = key') then
    let kept := Solution.popleft_while (now - Solution.time_window s)
                  (Solution.deque_of s key) in
    if (len kept <? Solution.max_requests s)%Z then kept ++ [now] else kept
  else Solution.deque_of s key'.
Proof.
  destruct (decide (key = key')) as [<-|Hne].
  - apply solution_is_allowed_deque.
  - by apply solution_deque_other.
Qed.

(** Rewrites a test on the controller into comparisons of clock readings. *)
Ltac solution_trace :=
  cbv zeta;
  repeat first
    [ rewrite solution_is_allowed_fst
    | rewrite solution_call_deque
    | rewrite solution_reset_deque
    | rewrite solution_reset_all_deque
    | rewrite solution_new_deque
    | rewrite solution_call_max
    | rewrite solution_call_window
    | rewrite solution_reset_max
    | rewrite solution_reset_window ];
  cbn [Solution.max_requests Solution.time_window Solution.new];
  repeat match goal with
         | |- context [decide (?a = ?b)] =>
             let d := eval vm_compute in (bool_decide (a = b)) in
             match d with
             | true => rewrite (decide_True (P := a = b)) by reflexivity
             | false => rewrite (decide_False (P := a = b)) by discriminate
             end
         end;
  cbv zeta.

Ltac list_literal l :=
  lazymatch l with
  | [] => idtac
  | _ :: ?rest => list_literal rest
  end.

Ltac clock_cases :=
  repeat (cbn [Solution.popleft_while app negb];
          first
            [ match goal with
              | |- context [(len ?l <? ?c)%Z] =>
                  list_literal l;
                  let b := eval vm_compute in (len l <? c)%Z in
                  change (len l <? c)%Z with b
              end
            | match goal with
              | |- context [Qleb ?a ?b] => destruct (Qleb_spec a b)
              end ]).

(** X25.  Tests 1 and 2 of [eval.py] pass for [solution.py] exactly when the
    last call of the test is made less than one second after its first. *)
Theorem eval_basic_tests_pass_iff (t1 t2 t3 t4 : Q) :
  (t1 <= t2)%Q -> (t2 <= t3)%Q -> (t3 <= t4)%Q ->
  (Eval.test_basic_allow_reject t1 t2 t3 t4 = true <-> (t4 < t1 + 1)%Q) /\
  (Eval.test_multiple_keys t1 t2 t3 t4 = true <-> (t4 < t1 + 1)%Q).
Proof.
  intros H12 H23 H34. split.
  - unfold Eval.test_basic_allow_reject.
    solution_trace. clock_cases; split; intros; first [lra | done].
  - unfold Eval.test_multiple_keys.
    solution_trace. clock_cases; split; intros; first [lra | done].
Qed.

Lemma eval_basic_tests_pass_iff_witness :
  Eval.test_basic_allow_reject 0 (1 # 100) (2 # 100) (3 # 100) = true /\
  Eval.test_multiple_keys 0 (1 # 100) (2 # 100) (3 # 100) = true /\
  Eval.test_basic_allow_reject 0 (1 # 2) (3 # 4) (5 # 4) <> true.
Proof.
  split; [|split].
  - apply (eval_basic_tests_pass_iff 0 (1 # 100) (2 # 100) (3 # 100));
      first [vm_compute; discriminate | reflexivity].
  - apply (eval_basic_tests_pass_iff 0 (1 # 100) (2 # 100) (3 # 100));
      first [vm_compute; discriminate | reflexivity].
  - intros H.
    apply (eval_basic_tests_pass_iff 0 (1 # 2) (3 # 4) (5 # 4)) in H;
      first [discriminate H | vm_compute; discriminate].
Defined.

(** X26.  Test 3 passes for [solution.py] exactly when its third call comes less
    than half a second after the first and its last call, the one after the
    sleep, at least half a second after the first. *)
Theorem eval_window_test_passes_iff (t1 t2 t3 t4 : Q) :
  (t1 <= t2)%Q -> (t2 <= t3)%Q -> (t3 <= t4)%Q ->
  Eval.test_time_window_reset t1 t2 t3 t4 = true <->
  (t3 < t1 + (1 # 2))%Q /\ (t1 + (1 # 2) <= t4)%Q.
Proof.
  intros H12 H23 H34. unfold Eval.test_time_window_reset.
  solution_trace.
  clock_cases; split; first [intros [? ?]; lra | intros; split; lra | done].
Qed.

Lemma eval_window_test_passes_iff_witness :
  Eval.test_time_window_reset 0 (1 # 100) (2 # 100) (62 # 100) = true.
Proof.
  apply (eval_window_test_passes_iff 0 (1 # 100) (2 # 100) (62 # 100));
    first [vm_compute; discriminate
          | split; [reflexivity | vm_compute; discriminate]].
Defined.

(** X27.  Test 4 passes for [solution.py] whatever the clock reads, and test 5
    exactly when the second call for "user2" comes less than one second
    after the first. *)
Theorem eval_edge_tests_pass_iff (t1 t2 t3 t4 t5 : Q) :
  Eval.test_edge_cases t1 t2 = true /\
  (Eval.test_reset_functionality t1 t2 t3 t4 t5 = true <-> (t4 < t2 + 1)%Q).
Proof.
  split.
  - unfold Eval.test_edge_cases. solution_trace. by clock_cases.
  - unfold Eval.test_reset_functionality.
    solution_trace. clock_cases; split; intros; first [lra | done].
Qed.

(** * The integration tests *)

Lemma count_true_le (answers : list bool) :
  (len (List.filter (fun b : bool => b) answers) <= len answers)%Z.
Proof.
  unfold len. pose proof (filter_length_le (fun b : bool => b) answers). lia.
Qed.

Lemma allowed_statuses rs : forall answers,
  map App.status_of rs = map App.status_for answers ->
  Integrated.allowed rs = len (List.filter (fun b : bool => b) answers).
Proof.
  unfold Integrated.allowed, len.
  induction rs as [|r rs IH]; intros [|b answers] H; try discriminate; [done|].
  injection H as Hr H. specialize (IH _ H). simpl. rewrite Hr.
  destruct b; simpl; lia.
Qed.

Section IntegratedRequests.
Context {L : Type}.
Variable allow_request : Q -> string -> L -> result (bool * L).
Variable shorten_url : string -> string.

Lemma app_post_shorten now url user st b lim :
  allow_request now user (App.shorten_limiter st) = Ok (b, lim) ->
  exists r st',
    App.handle allow_request shorten_url now
      (App.PostShorten (Some (App.shorten_body url (Some user)))) st
    = App.Returned r st' /\
    App.status_of r = App.status_for b /\
    App.shorten_limiter st' = lim /\
    (b = true -> Integrated.has_key "short_url" r = true).
Proof.
  intros E.
  destruct (app_shorten_body_lookup url (Some user)) as (Hu & Hi & Hne).
  cbn [App.handle]. unfold App.create_short_url, App.falsy, App.lacks.
  rewrite Hu, (bool_decide_eq_false_2 _ Hne).
  rewrite (bool_decide_eq_false_2 (Some url = None)) by done.
  cbn [orb default from_option id]. rewrite Hu, Hi. cbn [from_option id].
  rewrite E. destruct b; eexists _, _; (split; [reflexivity|]); simpl.
  - split; [done|]. split; [done|]. done.
  - split; [done|]. split; [done|]. discriminate.
Qed.

(** A round of requests of one user is answered as the shorten limiter
    answers the calls. *)
Lemma app_serve_round clock first prefix user : forall n st answers lim',
  run allow_request
      (map (fun i : nat => (clock (first + i)%nat, user)) (seq 0 n))
      (App.shorten_limiter st) = Ok (answers, lim') ->
  exists rs st',
    App.serve allow_request shorten_url
      (map (fun i : nat =>
              Integrated.post_shorten (clock (first + i)%nat)
                (prefix +:+ pretty i) user) (seq 0 n)) st
    = (rs, None, st') /\
    map App.status_of rs = map App.status_for answers /\
    App.shorten_limiter st' = lim'.
Proof.
  intros n. generalize 0%nat as k.
  induction n as [|n IH]; intros k st answers lim' Hrun.
  - injection Hrun as <- <-. by exists [], st.
  - cbn [seq map] in *. cbn [run] in Hrun.
    destruct (allow_request (clock (first + k)%nat) user (App.shorten_limiter st))
      as [[b lim]|e] eqn:E; [|discriminate].
    cbn [mbind result_bind snd fst] in Hrun.
    destruct (run allow_request _ lim) as [[rest lim2]|e] eqn:E2; [|discriminate].
    cbn [mbind result_bind snd fst] in Hrun. injection Hrun as <- <-.
    destruct (app_post_shorten _ (prefix +:+ pretty k) _ _ _ _ E)
      as (r & st1 & Hh & Hs & Hl & _).
    destruct (IH (S k) st1 rest lim2) as (rs & st' & Hserve & Hmap & Hlim).
    { by rewrite Hl. }
    exists (r :: rs), st'. unfold Integrated.post_shorten at 1.
    cbn [App.serve]. rewrite Hh, Hserve. simpl. by rewrite Hs, Hmap.
Qed.

Lemma app_expect_200_round clock first prefix user : forall n st lim',
  run allow_request
      (map (fun i : nat => (clock (first + i)%nat, user)) (seq 0 n))
      (App.shorten_limiter st) = Ok (replicate n true, lim') ->
  exists st',
    Integrated.expect_200 allow_request shorten_url
      (map (fun i : nat =>
              Integrated.post_shorten (clock (first + i)%nat)
                (prefix +:+ pretty i) user) (seq 0 n)) st
    = Some (true, st') /\
    App.shorten_limiter st' = lim'.
Proof.
  intros n. generalize 0%nat as k.
  induction n as [|n IH]; intros k st lim' Hrun.
  - injection Hrun as <-. by exists st.
  - cbn [seq map replicate] in *. cbn [run] in Hrun.
    destruct (allow_request (clock (first + k)%nat) user (App.shorten_limiter st))
      as [[b lim]|e] eqn:E; [|discriminate].
    cbn [mbind result_bind snd fst] in Hrun.
    destruct (run allow_request _ lim) as [[rest lim2]|e] eqn:E2; [|discriminate].
    cbn [mbind result_bind snd fst] in Hrun. injection Hrun as -> -> <-.
    destruct (app_post_shorten _ (prefix +:+ pretty k) _ _ _ _ E)
      as (r & st1 & Hh & Hs & Hl & _).
    destruct (IH (S k) st1 lim2) as (st' & Hexp & Hlim).
    { by rewrite Hl. }
    exists st'. unfold Integrated.post_shorten at 1.
    cbn [Integrated.expect_200]. rewrite Hh, Hs. simpl. by rewrite Hexp.
Qed.

End IntegratedRequests.

Lemma total_pair {St : Type} (call : Q -> string -> St -> bool * St) now key s :
  total call now key s = Ok (fst (call now key s), snd (call now key s)).
Proof. unfold total. by destruct (call now key s). Qed.

Lemma round_calls (clock : nat -> Q) (first n : nat) (user : string) :
  map (fun i : nat => (clock (first + i)%nat, user)) (seq 0 n)
  = map (fun t : Q => (t, user)) (map (fun i : nat => clock (first + i)%nat) (seq 0 n)).
Proof. by rewrite map_map. Qed.

Lemma run_total_length {St : Type} (call : Q -> string -> St -> bool * St) cs :
  forall s answers s',
    run (total call) cs s = Ok (answers, s') -> length answers = length cs.
Proof.
  induction cs as [|[now key] cs IH]; intros s answers s' H.
  - by injection H as <- <-.
  - apply run_total_cons_inv in H as (rest & -> & H). simpl. f_equal. eauto.
Qed.

(** A round that starts with a rejection admits fewer than ten. *)
Lemma round_not_all_allowed {St : Type} (call : Q -> string -> St -> bool * St)
    now key cs s answers s' :
  run (total call) ((now, key) :: cs) s = Ok (answers, s') ->
  fst (call now key s) = false ->
  (len (List.filter (fun b : bool => b) answers) <= len cs)%Z.
Proof.
  intros H Hf. apply run_total_cons_inv in H as (rest & -> & H).
  rewrite Hf. cbn [List.filter]. apply run_total_length in H.
  pose proof (count_true_le rest) as Hle. unfold len in *. simpl. lia.
Qed.

(** ** The sliding-window service *)

Lemma keep_after_sublist_mono cutoff l1 l2 :
  l1 `sublist_of` l2 ->
  SlidingWindow.keep_after cutoff l1 `sublist_of` SlidingWindow.keep_after cutoff l2.
Proof.
  unfold SlidingWindow.keep_after.
  induction 1 as [|x l1 l2 _ IH|x l1 l2 _ IH]; simpl; [done| |].
  - destruct (Qgtb x cutoff); [by apply sublist_skip | done].
  - destruct (Qgtb x cutoff); [by apply sublist_cons | done].
Qed.

Lemma keep_after_cons_old cutoff t l :
  (t <= cutoff)%Q ->
  SlidingWindow.keep_after cutoff (t :: l) = SlidingWindow.keep_after cutoff l.
Proof.
  intros H. unfold SlidingWindow.keep_after. simpl.
  by rewrite (proj2 (Qgtb_false t cutoff) H).
Qed.

Lemma sliding_round_admitted user ts : forall s,
  (len (SlidingWindow.timestamps_of s user) + len ts <= SlidingWindow.limit s)%Z ->
  exists s',
    run (total SlidingWindow.allow_request) (map (fun t : Q => (t, user)) ts) s
    = Ok (replicate (length ts) true, s') /\
    SlidingWindow.limit s' = SlidingWindow.limit s /\
    SlidingWindow.window s' = SlidingWindow.window s /\
    SlidingWindow.timestamps_of s' user
      `sublist_of` SlidingWindow.timestamps_of s user ++ ts /\
    (forall lo,
       Forall (fun t => lo < t)%Q (SlidingWindow.timestamps_of s user ++ ts) ->
       Forall (fun t => t - SlidingWindow.window s <= lo)%Q ts ->
       SlidingWindow.timestamps_of s' user
       = SlidingWindow.timestamps_of s user ++ ts) /\
    (forall k, user <> k ->
       SlidingWindow.timestamps_of s' k = SlidingWindow.timestamps_of s k).
Proof.
  induction ts as [|t ts IH]; intros s Hlen.
  - exists s. rewrite app_nil_r. by repeat split.
  - pose proof (sliding_allow_request_fst t user s) as Hfst.
    pose proof (sliding_allow_request_timestamps t user s) as Hst. simpl in Hst.
    destruct (sliding_allow_request_config t user s) as [Hc Hw].
    set (kept := SlidingWindow.keep_after (t - SlidingWindow.window s)
                   (SlidingWindow.timestamps_of s user)) in *.
    assert (Hsub : kept `sublist_of` SlidingWindow.timestamps_of s user)
      by apply keep_after_sublist.
    pose proof (sublist_length _ _ Hsub) as Hkl.
    unfold len in Hlen, Hfst, Hst. cbn [length] in Hlen.
    assert (Hadm : (Z.of_nat (length kept) <? SlidingWindow.limit s)%Z = true)
      by (apply Z.ltb_lt; lia).
    rewrite Hadm in Hfst, Hst.
    set (s1 := snd (SlidingWindow.allow_request t user s)) in *.
    destruct (IH s1) as (s' & Hrun & Hc' & Hw' & Hsub' & Hun & Hoth).
    { rewrite Hst, Hc. unfold len. rewrite length_app. simpl. lia. }
    exists s'. split; [|split; [|split; [|split; [|split]]]].
    + cbn [map length replicate].
      rewrite (run_total_cons _ t user _ s _ s' Hrun). fold s1. by rewrite Hfst.
    + by rewrite Hc'.
    + by rewrite Hw'.
    + etrans; [exact Hsub'|]. rewrite Hst, <- app_assoc. simpl.
      by apply sublist_app.
    + intros lo Hlo Hcut. rewrite (Hun lo).
      * rewrite Hst, <- app_assoc. simpl. f_equal. unfold kept.
        apply keep_after_later. apply Forall_app in Hlo as [Hlo _].
        apply Forall_cons in Hcut as [Hcut _].
        eapply Forall_impl; [exact Hlo|]. simpl. intros x Hx. lra.
      * rewrite Hst, <- app_assoc. simpl.
        apply Forall_app in Hlo as [Hlo1 Hlo2]. apply Forall_app. split; [|done].
        eapply Forall_sublist; [exact Hsub | exact Hlo1].
      * rewrite Hw. by apply Forall_cons in Hcut as [_ Hcut].
    + intros k Hk. rewrite Hoth by done. by apply sliding_timestamps_other.
Qed.

(** What is known of the first eleven clock readings of a test when the
    clock never goes back. *)
Ltac clock_facts clock Hmono :=
  pose proof (Hmono 0 1 ltac:(lia))%nat; pose proof (Hmono 1 2 ltac:(lia))%nat;
  pose proof (Hmono 2 3 ltac:(lia))%nat; pose proof (Hmono 3 4 ltac:(lia))%nat;
  pose proof (Hmono 4 5 ltac:(lia))%nat; pose proof (Hmono 5 6 ltac:(lia))%nat;
  pose proof (Hmono 6 7 ltac:(lia))%nat; pose proof (Hmono 7 8 ltac:(lia))%nat;
  pose proof (Hmono 8 9 ltac:(lia))%nat; pose proof (Hmono 9 10 ltac:(lia))%nat.

Lemma sliding_eleventh_call (clock : nat -> Q) (user : string)
    (s : SlidingWindow.RateLimiter) :
  SlidingWindow.limit s = 10%Z -> SlidingWindow.window s = 60%Q ->
  SlidingWindow.timestamps_of s user = [] ->
  (forall i j : nat, (i <= j)%nat -> (clock i <= clock j)%Q) ->
  exists s1,
    run (total SlidingWindow.allow_request)
        (map (fun i : nat => (clock (0 + i)%nat, user)) (seq 0 10)) s
    = Ok (replicate 10 true, s1) /\
    fst (SlidingWindow.allow_request (clock 10%nat) user s1)
    = negb (Qltb (clock 10%nat) (clock 0%nat + 60)) /\
    (forall k, user <> k ->
       SlidingWindow.timestamps_of s1 k = SlidingWindow.timestamps_of s k).
Proof.
  intros Hc Hw Hfresh Hmono. clock_facts clock Hmono.
  set (ts := map (fun i : nat => clock (0 + i)%nat) (seq 0 10)).
  destruct (sliding_round_admitted user ts s)
    as (s1 & Hrun & Hc1 & Hw1 & Hsub & Hun & Hoth).
  { rewrite Hfresh, Hc. by vm_compute. }
  exists s1. rewrite round_calls. split; [exact Hrun|]. split; [|exact Hoth].
  rewrite sliding_allow_request_fst, Hc1, Hw1, Hc, Hw.
  rewrite Hfresh in Hsub, Hun. cbn [app] in Hsub, Hun.
  destruct (Qltb_spec (clock 10%nat) (clock 0%nat + 60)) as [Hlt|Hge]; simpl.
  - rewrite (Hun (clock 10%nat - 60)%Q).
    + rewrite keep_after_later; [done|].
      unfold ts. cbn [seq map Nat.add]. repeat (constructor; [lra|]). constructor.
    + unfold ts. cbn [seq map Nat.add]. repeat (constructor; [lra|]). constructor.
    + rewrite Hw. unfold ts. cbn [seq map Nat.add].
      repeat (constructor; [lra|]). constructor.
  - apply Z.ltb_lt.
    pose proof (keep_after_sublist_mono (clock 10%nat - 60) _ _ Hsub) as Hk.
    apply sublist_length in Hk. unfold len.
    assert (length (SlidingWindow.keep_after (clock 10%nat - 60) ts) <= 9)%nat;
      [|lia].
    unfold ts. cbn [seq map Nat.add]. rewrite keep_after_cons_old by lra.
    etrans; [apply sublist_length, keep_after_sublist | done].
Qed.

(** X28.  The integration tests on the sliding-window service, for a clock
    that never goes back and users the shorten limiter has not seen: test 1
    passes; tests 2 and 3 pass exactly when the eleventh request comes less
    than 60 seconds after the first; and then test 4 passes too. *)
Theorem integrated_tests_on_sliding_window (shorten_url : string -> string)
    (clock : nat -> Q) (st : App.state SlidingWindow.RateLimiter) :
  SlidingWindow.limit (App.shorten_limiter st) = 10%Z ->
  SlidingWindow.window (App.shorten_limiter st) = 60%Q ->
  (forall i j : nat, (i <= j)%nat -> (clock i <= clock j)%Q) ->
  let unseen user :=
    SlidingWindow.timestamps_of (App.shorten_limiter st) user = [] in
  let allow := total SlidingWindow.allow_request in
  (unseen "test_user_1" ->
   Integrated.test_basic_functionality allow shorten_url clock st = Some true) /\
  (unseen "test_user_2" ->
   Integrated.test_rate_limit_enforced allow shorten_url clock st
   = Some (Qltb (clock 10%nat) (clock 0%nat + 60))) /\
  (unseen "user_a" -> unseen "user_b" ->
   Integrated.test_per_user_isolation allow shorten_url clock st
   = Some (Qltb (clock 10%nat) (clock 0%nat + 60))) /\
  (unseen "boundary_test_user" ->
   (clock 10%nat < clock 0%nat + 60)%Q ->
   Integrated.test_boundary_handling allow shorten_url clock st = Some true).
Proof.
  intros Hc Hw Hmono unseen allow. split; [|split; [|split]].
  - intros Hfresh. unfold Integrated.test_basic_functionality.
    unfold Integrated.post_shorten.
    destruct (app_post_shorten allow shorten_url (clock 0%nat)
                "https://example.com" "test_user_1" st
                (fst (SlidingWindow.allow_request (clock 0%nat) "test_user_1"
                        (App.shorten_limiter st)))
                (snd (SlidingWindow.allow_request (clock 0%nat) "test_user_1"
                        (App.shorten_limiter st))))
      as (r & st' & -> & Hs & _ & Hk).
    { apply total_pair. }
    rewrite sliding_allow_request_fst, Hfresh, Hc in Hs, Hk.
    rewrite Hs, Hk by done. done.
  - intros Hfresh. unfold Integrated.test_rate_limit_enforced, Integrated.round.
    destruct (sliding_eleventh_call clock _ _ Hc Hw Hfresh Hmono)
      as (s1 & Hrun & Hfst & _).
    destruct (app_expect_200_round allow shorten_url clock 0 "https://example.com/"
                "test_user_2" 10 st s1 Hrun) as (st1 & -> & Hl1).
    unfold Integrated.post_shorten.
    destruct (app_post_shorten allow shorten_url (clock 10%nat)
                "https://example.com/11" "test_user_2" st1
                (fst (SlidingWindow.allow_request (clock 10%nat) "test_user_2" s1))
                (snd (SlidingWindow.allow_request (clock 10%nat) "test_user_2" s1)))
      as (r & st2 & -> & Hs & _).
    { rewrite Hl1. apply total_pair. }
    rewrite Hs, Hfst. by destruct (Qltb _ _).
  - intros Hfa Hfb. unfold Integrated.test_per_user_isolation, Integrated.round.
    destruct (sliding_eleventh_call clock _ _ Hc Hw Hfa Hmono)
      as (s1 & Hrun & Hfst & Hoth).
    destruct (app_serve_round allow shorten_url clock 0 "https://example.com/a"
                "user_a" 10 st _ s1 Hrun) as (rs & st1 & -> & _ & Hl1).
    unfold Integrated.post_shorten.
    destruct (app_post_shorten allow shorten_url (clock 10%nat)
                "https://example.com/a_extra" "user_a" st1
                (fst (SlidingWindow.allow_request (clock 10%nat) "user_a" s1))
                (snd (SlidingWindow.allow_request (clock 10%nat) "user_a" s1)))
      as (r & st2 & -> & Hs & Hl2 & _).
    { rewrite Hl1. apply total_pair. }
    rewrite Hs, Hfst. destruct (Qltb _ _); [|done].
    cbn [negb App.status_for]. change (429 =? 429)%Z with true. cbn [negb].
    destruct (app_post_shorten allow shorten_url (clock 11%nat)
                "https://example.com/b1" "user_b" st2
                (fst (SlidingWindow.allow_request (clock 11%nat) "user_b"
                        (App.shorten_limiter st2)))
                (snd (SlidingWindow.allow_request (clock 11%nat) "user_b"
                        (App.shorten_limiter st2))))
      as (r' & st3 & -> & Hs' & _).
    { apply total_pair. }
    rewrite Hs', sliding_allow_request_fst, Hl2.
    rewrite sliding_timestamps_other by done. rewrite Hoth by done.
    rewrite Hfb. destruct (sliding_allow_request_config (clock 10%nat) "user_a" s1)
      as [-> _].
    assert (SlidingWindow.limit s1 = 10%Z) as ->; [|done].
    pose proof (sliding_round_admitted "user_a"
                  (map (fun i : nat => clock (0 + i)%nat) (seq 0 10))
                  (App.shorten_limiter st)) as Hr.
    destruct Hr as (s1' & Hrun' & Hc1 & _).
    { rewrite Hfa, Hc. by vm_compute. }
    rewrite round_calls, Hrun' in Hrun. injection Hrun as <-. by rewrite Hc1.
  - intros Hfresh Hlt. unfold Integrated.test_boundary_handling, Integrated.round.
    destruct (sliding_eleventh_call clock _ _ Hc Hw Hfresh Hmono)
      as (s1 & Hrun & Hfst & _).
    destruct (app_serve_round allow shorten_url clock 0
                "https://example.com/boundary" "boundary_test_user" 10 st _ s1 Hrun)
      as (rs & st1 & -> & _ & Hl1).
    destruct (run_total_ok SlidingWindow.allow_request
                (map (fun i : nat => (clock (10 + i)%nat, "boundary_test_user"))
                   (seq 0 10)) s1) as (answers & s2 & Hrun2).
    rewrite <- Hl1 in Hrun2.
    destruct (app_serve_round allow shorten_url clock 10
                "https://example.com/boundary2_" "boundary_test_user" 10 st1 _ s2
                Hrun2) as (rs2 & st2 & -> & Hst & _).
    rewrite (allowed_statuses _ _ Hst). rewrite Hl1 in Hrun2.
    cbn [seq map Nat.add] in Hrun2.
    apply round_not_all_allowed in Hrun2.
    + f_equal. apply negb_true_iff, Z.leb_gt.
      revert Hrun2. unfold len. simpl. lia.
    + rewrite Hfst. apply negb_false_iff. by apply Qltb_true.
Qed.

(** ** The fixed-window service *)

Lemma fixed_call_unseen now user s :
  FixedWindow.limit s = 10%Z -> FixedWindow.window s = 60%Q ->
  FixedWindow.windows s !! user = None ->
  FixedWindow.allow_request now user s
  = Ok (true,
        FixedWindow.mkRateLimiter 10 60
          (<[user := FixedWindow.mkWindow (inject_Z (py_int (now / 60)) * 60) 1]>
             (FixedWindow.windows s))).
Proof.
  intros Hc Hw Hu. rewrite fixed_allow_request_ok by (by rewrite Hw).
  rewrite Hu, fixed_rolled_none, Hc, Hw. unfold FixedWindow.aligned.
  rewrite Hw. reflexivity.
Qed.

Lemma fixed_call_seen now user s z n :
  FixedWindow.limit s = 10%Z -> FixedWindow.window s = 60%Q ->
  FixedWindow.windows s !! user
  = Some (FixedWindow.mkWindow (inject_Z z * 60) n) ->
  let m := py_int (now / 60) in
  let z' := if (z <? m)%Z then m else z in
  let n0 := if (z <? m)%Z then 0%Z else n in
  FixedWindow.allow_request now user s
  = Ok ((n0 <? 10)%Z,
        FixedWindow.mkRateLimiter 10 60
          (<[user := FixedWindow.mkWindow (inject_Z z' * 60)
                       (if (n0 <? 10)%Z then n0 + 1 else n0)]>
             (FixedWindow.windows s))).
Proof.
  intros Hc Hw Hu m z' n0. rewrite fixed_allow_request_ok by (by rewrite Hw).
  rewrite Hu, Hc, Hw. unfold FixedWindow.rolled, FixedWindow.aligned.
  cbn [default from_option id FixedWindow.window_start]. rewrite Hw.
  rewrite Qgtb_scaled by reflexivity. fold m. unfold z', n0.
  by destruct (z <? m)%Z.
Qed.

(** Calls of a user whose record leaves room for all of them: all are
    admitted; the count reaches [n + len ts] exactly when none of them
    rolls the window over. *)
Lemma fixed_round_admitted user ts : forall s z n,
  FixedWindow.limit s = 10%Z -> FixedWindow.window s = 60%Q ->
  FixedWindow.windows s !! user
  = Some (FixedWindow.mkWindow (inject_Z z * 60) n) ->
  (1 <= n)%Z -> (n + len ts <= 10)%Z ->
  exists s' z' n',
    run FixedWindow.allow_request (map (fun t : Q => (t, user)) ts) s
    = Ok (replicate (length ts) true, s') /\
    FixedWindow.limit s' = 10%Z /\ FixedWindow.window s' = 60%Q /\
    FixedWindow.windows s' !! user
    = Some (FixedWindow.mkWindow (inject_Z z' * 60) n') /\
    (z' = z \/ In z' (map (fun t => py_int (t / 60)) ts)) /\
    (1 <= n' <= n + len ts)%Z /\
    (Forall (fun t => py_int (t / 60) <= z)%Z ts -> z' = z /\ n' = (n + len ts)%Z) /\
    (Exists (fun t => z < py_int (t / 60))%Z ts -> (n' < n + len ts)%Z) /\
    (forall k, user <> k ->
       FixedWindow.windows s' !! k = FixedWindow.windows s !! k).
Proof.
  induction ts as [|t ts IH]; intros s z n Hc Hw Hu Hn Hlen.
  - exists s, z, n. unfold len. simpl.
    split; [done|]. split; [done|]. split; [done|]. split; [done|].
    split; [by left|]. split; [lia|]. split; [intros _; split; [done | lia]|].
    split; [|done]. intros H. by apply Exists_nil in H.
  - unfold len in Hlen. cbn [length] in Hlen.
    pose proof (fixed_call_seen t user s z n Hc Hw Hu) as Hcall.
    cbn zeta in Hcall. set (m := py_int (t / 60)) in *.
    destruct (Z.ltb_spec z m) as [Hroll|Hstay].
    + change (0 <? 10)%Z with true in Hcall. cbn [Z.add] in Hcall.
      set (s1 := FixedWindow.mkRateLimiter 10 60 _) in Hcall.
      destruct (IH s1 m 1%Z) as (s' & z' & n' & Hrun & Hc' & Hw' & Hu' & Hz & Hn'
                                & _ & _ & Hoth);
        [done | done | by (unfold s1; simpl; rewrite lookup_insert_eq)
        | lia | unfold len; lia |].
      exists s', z', n'. unfold len in *. cbn [length map replicate run].
      rewrite Hcall. cbn [mbind result_bind fst snd]. rewrite Hrun.
      cbn [mbind result_bind fst snd].
      split; [done|]. split; [done|]. split; [done|]. split; [done|].
      split; [|split; [lia|split; [|split]]].
      * right. destruct Hz as [->|Hz]; [by left | by right].
      * intros HF. apply Forall_cons in HF as [HF _]. fold m in HF. lia.
      * intros _. lia.
      * intros k Hk. rewrite Hoth by done. unfold s1. simpl.
        by rewrite lookup_insert_ne.
    + assert ((n <? 10)%Z = true) as Hadm by (apply Z.ltb_lt; lia).
      rewrite Hadm in Hcall.
      set (s1 := FixedWindow.mkRateLimiter 10 60 _) in Hcall.
      destruct (IH s1 z (n + 1)%Z) as (s' & z' & n' & Hrun & Hc' & Hw' & Hu' & Hz
                                      & Hn' & Hall & Hex & Hoth);
        [done | done | by (unfold s1; simpl; rewrite lookup_insert_eq)
        | lia | unfold len; lia |].
      exists s', z', n'. unfold len in *. cbn [length map replicate run].
      rewrite Hcall. cbn [mbind result_bind fst snd]. rewrite Hrun.
      cbn [mbind result_bind fst snd].
      split; [done|]. split; [done|]. split; [done|]. split; [done|].
      split; [|split; [lia|split; [|split]]].
      * destruct Hz as [->|Hz]; [by left | right; by right].
      * intros HF. apply Forall_cons in HF as [_ HF].
        destruct (Hall HF) as [-> ->]. split; [done | lia].
      * intros HE. apply Exists_cons in HE as [HE|HE]; [fold m in HE; lia|].
        specialize (Hex HE). lia.
      * intros k Hk. rewrite Hoth by done. unfold s1. simpl.
        by rewrite lookup_insert_ne.
Qed.

Lemma minutes_not_later clock z l :
  if forallb (fun i : nat => (Integrated.minute clock i <=? z)%Z) l
  then Forall (fun t => py_int (t / 60) <= z)%Z (map clock l)
  else Exists (fun t => z < py_int (t / 60))%Z (map clock l).
Proof.
  induction l as [|i l IH]; simpl; [constructor|].
  unfold Integrated.minute at 1.
  destruct (Z.leb_spec (py_int (clock i / 60)) z) as [Hle|Hgt]; simpl.
  - destruct (forallb _ l); [by constructor | by apply Exists_cons_tl].
  - by apply Exists_cons_hd.
Qed.

Lemma fixed_eleventh_call (clock : nat -> Q) (user : string)
    (s : FixedWindow.RateLimiter) :
  FixedWindow.limit s = 10%Z -> FixedWindow.window s = 60%Q ->
  FixedWindow.windows s !! user = None ->
  exists s1 z' n',
    run FixedWindow.allow_request
        (map (fun i : nat => (clock (0 + i)%nat, user)) (seq 0 10)) s
    = Ok (replicate 10 true, s1) /\
    FixedWindow.limit s1 = 10%Z /\ FixedWindow.window s1 = 60%Q /\
    FixedWindow.windows s1 !! user
    = Some (FixedWindow.mkWindow (inject_Z z' * 60) n') /\
    (exists i : nat, (i < 10)%nat /\ z' = Integrated.minute clock i) /\
    (1 <= n' <= 10)%Z /\
    (exists s2,
       FixedWindow.allow_request (clock 10%nat) user s1
       = Ok (negb (forallb (fun i : nat =>
                              (Integrated.minute clock i
                               <=? Integrated.minute clock 0)%Z) (seq 1 10)),
             s2)) /\
    (forall k, user <> k ->
       FixedWindow.windows s1 !! k = FixedWindow.windows s !! k).
Proof.
  intros Hc Hw Hfresh.
  pose proof (fixed_call_unseen (clock 0%nat) user s Hc Hw Hfresh) as Hfirst.
  set (m0 := py_int (clock 0%nat / 60)) in *.
  set (s0 := FixedWindow.mkRateLimiter 10 60 _) in Hfirst.
  destruct (fixed_round_admitted user (map clock (seq 1 9)) s0 m0 1)
    as (s1 & z' & n' & Hrun & Hc1 & Hw1 & Hu1 & Hz & Hn & Hall & Hex & Hoth);
    [done | done | by (unfold s0; simpl; rewrite lookup_insert_eq) | lia
    | by vm_compute |].
  exists s1, z', n'. split; [|split; [done|split; [done|split; [done|]]]].
  { change (map (fun i : nat => (clock (0 + i)%nat, user)) (seq 0 10))
      with ((clock 0%nat, user)
            :: map (fun t : Q => (t, user)) (map clock (seq 1 9))).
    cbn [run]. rewrite Hfirst. cbn [mbind result_bind fst snd]. rewrite Hrun.
    reflexivity. }
  split; [|split; [|split]].
  - destruct Hz as [->|Hz]; [exists 0%nat; split; [lia | done]|].
    apply in_map_iff in Hz as (t & <- & Ht).
    apply in_map_iff in Ht as (i & <- & Hi). apply in_seq in Hi.
    exists i. split; [lia | done].
  - revert Hn. unfold len. simpl. lia.
  - pose proof (fixed_call_seen (clock 10%nat) user s1 z' n' Hc1 Hw1 Hu1) as Hcall.
    cbn zeta in Hcall. eexists. rewrite Hcall. f_equal. f_equal.
    change (seq 1 10) with (seq 1 9 ++ [10%nat]).
    rewrite forallb_app. cbn [forallb]. rewrite andb_true_r.
    pose proof (minutes_not_later clock m0 (seq 1 9)) as Hm.
    fold (Integrated.minute clock 10). fold (Integrated.minute clock 0) in m0.
    change (Integrated.minute clock 0) with m0.
    destruct (forallb _ (seq 1 9)).
    + destruct (Hall Hm) as [-> ->]. cbn [andb]. unfold len. simpl.
      destruct (Z.ltb_spec m0 (Integrated.minute clock 10)),
               (Z.leb_spec (Integrated.minute clock 10) m0); (done || lia).
    + specialize (Hex Hm). revert Hex. unfold len. simpl. intros Hex.
      destruct (z' <? Integrated.minute clock 10)%Z; [done|].
      apply Z.ltb_lt. lia.
  - intros k Hk. rewrite Hoth by done. unfold s0. simpl.
    by rewrite lookup_insert_ne.
Qed.

Lemma fixed_run_ok cs : forall s,
  ~ (FixedWindow.window s == 0)%Q ->
  exists answers s',
    run FixedWindow.allow_request cs s = Ok (answers, s') /\
    length answers = length cs.
Proof.
  induction cs as [|[now key] cs IH]; intros s Hw.
  - by exists [], s.
  - cbn [run]. rewrite fixed_allow_request_ok by done.
    cbn [mbind result_bind fst snd].
    set (s1 := FixedWindow.mkRateLimiter _ _ _).
    destruct (IH s1 Hw) as (answers & s' & -> & Hlen).
    eexists _, _. split; [reflexivity|]. simpl. by rewrite Hlen.
Qed.

(** X29.  The integration tests on the fixed-window service, for users the
    shorten limiter has not seen and whatever the clock reads: test 1
    passes; tests 2 and 3 pass exactly when none of the second to eleventh
    requests falls in a later minute than the first; test 4 then passes
    too, and fails when all of its first ten requests fall in earlier
    minutes than the eleventh. *)
Theorem integrated_tests_on_fixed_window (shorten_url : string -> string)
    (clock : nat -> Q) (st : App.state FixedWindow.RateLimiter) :
  FixedWindow.limit (App.shorten_limiter st) = 10%Z ->
  FixedWindow.window (App.shorten_limiter st) = 60%Q ->
  let unseen user :=
    FixedWindow.windows (App.shorten_limiter st) !! user = None in
  let allow := FixedWindow.allow_request in
  let same_minute :=
    forallb (fun i : nat =>
               (Integrated.minute clock i <=? Integrated.minute clock 0)%Z)
            (seq 1 10) in
  (unseen "test_user_1" ->
   Integrated.test_basic_functionality allow shorten_url clock st = Some true) /\
  (unseen "test_user_2" ->
   Integrated.test_rate_limit_enforced allow shorten_url clock st
   = Some same_minute) /\
  (unseen "user_a" -> unseen "user_b" ->
   Integrated.test_per_user_isolation allow shorten_url clock st
   = Some same_minute) /\
  (unseen "boundary_test_user" -> same_minute = true ->
   Integrated.test_boundary_handling allow shorten_url clock st = Some true) /\
  (unseen "boundary_test_user" ->
   (forall i : nat, (i < 10)%nat ->
      (Integrated.minute clock i < Integrated.minute clock 10)%Z) ->
   Integrated.test_boundary_handling allow shorten_url clock st = Some false).
Proof.
  intros Hc Hw unseen allow same_minute. subst allow.
  split; [|split; [|split; [|split]]].
  - intros Hfresh. unfold Integrated.test_basic_functionality.
    unfold Integrated.post_shorten.
    destruct (app_post_shorten FixedWindow.allow_request shorten_url (clock 0%nat)
                "https://example.com" "test_user_1" st _ _
                (fixed_call_unseen _ _ _ Hc Hw Hfresh))
      as (r & st' & -> & Hs & _ & Hk).
    by rewrite Hs, Hk.
  - intros Hfresh. unfold Integrated.test_rate_limit_enforced, Integrated.round.
    destruct (fixed_eleventh_call clock _ _ Hc Hw Hfresh)
      as (s1 & z' & n' & Hrun & _ & _ & _ & _ & _ & [s2 Hcall] & _).
    destruct (app_expect_200_round FixedWindow.allow_request shorten_url clock 0
                "https://example.com/" "test_user_2" 10 st s1 Hrun)
      as (st1 & -> & Hl1).
    unfold Integrated.post_shorten. rewrite <- Hl1 in Hcall.
    destruct (app_post_shorten FixedWindow.allow_request shorten_url (clock 10%nat)
                "https://example.com/11" "test_user_2" st1 _ _ Hcall)
      as (r & st2 & -> & Hs & _).
    rewrite Hs. fold same_minute. by destruct same_minute.
  - intros Hfa Hfb. unfold Integrated.test_per_user_isolation, Integrated.round.
    destruct (fixed_eleventh_call clock _ _ Hc Hw Hfa)
      as (s1 & z' & n' & Hrun & Hc1 & Hw1 & _ & _ & _ & [s2 Hcall] & Hoth).
    destruct (app_serve_round FixedWindow.allow_request shorten_url clock 0
                "https://example.com/a" "user_a" 10 st _ s1 Hrun)
      as (rs & st1 & -> & _ & Hl1).
    unfold Integrated.post_shorten. rewrite <- Hl1 in Hcall.
    destruct (app_post_shorten FixedWindow.allow_request shorten_url (clock 10%nat)
                "https://example.com/a_extra" "user_a" st1 _ _ Hcall)
      as (r & st2 & -> & Hs & Hl2 & _).
    rewrite Hs. fold same_minute. destruct same_minute; [|done].
    cbn [negb App.status_for]. change (429 =? 429)%Z with true. cbn [negb].
    assert (Hb : FixedWindow.limit s2 = 10%Z /\ FixedWindow.window s2 = 60%Q /\
                 FixedWindow.windows s2 !! "user_b" = None).
    { rewrite Hl1 in Hcall.
      rewrite fixed_allow_request_ok in Hcall by (by rewrite Hw1).
      injection Hcall as _ <-. simpl. rewrite lookup_insert_ne by done.
      rewrite Hoth by done. by rewrite Hc1, Hw1. }
    destruct Hb as (Hc2 & Hw2 & Hu2). rewrite <- Hl2 in Hc2, Hw2, Hu2.
    destruct (app_post_shorten FixedWindow.allow_request shorten_url (clock 11%nat)
                "https://example.com/b1" "user_b" st2 _ _
                (fixed_call_unseen _ _ _ Hc2 Hw2 Hu2))
      as (r' & st3 & -> & Hs' & _).
    by rewrite Hs'.
  - intros Hfresh Hsame.
    unfold Integrated.test_boundary_handling, Integrated.round.
    destruct (fixed_eleventh_call clock _ _ Hc Hw Hfresh)
      as (s1 & z' & n' & Hrun & Hc1 & Hw1 & _ & _ & _ & [s2 Hcall] & _).
    destruct (app_serve_round FixedWindow.allow_request shorten_url clock 0
                "https://example.com/boundary" "boundary_test_user" 10 st _ s1 Hrun)
      as (rs & st1 & -> & _ & Hl1).
    fold same_minute in Hcall. rewrite Hsame in Hcall. cbn [negb] in Hcall.
    assert (Hw2 : ~ (FixedWindow.window s2 == 0)%Q).
    { pose proof Hcall as Hcall'.
      rewrite fixed_allow_request_ok in Hcall' by (by rewrite Hw1).
      injection Hcall' as _ <-. simpl. by rewrite Hw1. }
    destruct (fixed_run_ok
                (map (fun i : nat => (clock (10 + i)%nat, "boundary_test_user"))
                   (seq 1 9)) s2 Hw2) as (answers & s3 & Hrun2 & Hlen).
    assert (Hround : run FixedWindow.allow_request
                       (map (fun i : nat =>
                               (clock (10 + i)%nat, "boundary_test_user"))
                          (seq 0 10)) (App.shorten_limiter st1)
                     = Ok (false :: answers, s3)).
    { rewrite Hl1.
      change (seq 0 10) with (0%nat :: seq 1 9). cbn [map run].
      change (clock (10 + 0)%nat) with (clock 10%nat). rewrite Hcall. cbn [mbind result_bind fst snd]. by rewrite Hrun2. }
    destruct (app_serve_round FixedWindow.allow_request shorten_url clock 10
                "https://example.com/boundary2_" "boundary_test_user" 10 st1 _ s3
                Hround) as (rs2 & st2 & -> & Hst & _).
    rewrite (allowed_statuses _ _ Hst). cbn [List.filter]. f_equal.
    apply negb_true_iff, Z.leb_gt. pose proof (count_true_le answers) as Hle.
    revert Hle. unfold len. rewrite Hlen. simpl. lia.
  - intros Hfresh Hlater.
    unfold Integrated.test_boundary_handling, Integrated.round.
    destruct (fixed_eleventh_call clock _ _ Hc Hw Hfresh)
      as (s1 & z' & n' & Hrun & Hc1 & Hw1 & Hu1 & (i & Hi & ->) & Hn & _ & _).
    destruct (app_serve_round FixedWindow.allow_request shorten_url clock 0
                "https://example.com/boundary" "boundary_test_user" 10 st _ s1 Hrun)
      as (rs & st1 & -> & _ & Hl1).
    pose proof (fixed_call_seen (clock 10%nat) "boundary_test_user" s1 _ n'
                  Hc1 Hw1 Hu1) as Hcall.
    cbn zeta in Hcall. fold (Integrated.minute clock 10) in Hcall.
    rewrite (proj2 (Z.ltb_lt _ _) (Hlater i Hi)) in Hcall.
    change (0 <? 10)%Z with true in Hcall. cbn [Z.add] in Hcall.
    set (s2 := FixedWindow.mkRateLimiter 10 60 _) in Hcall.
    destruct (fixed_round_admitted "boundary_test_user" (map clock (seq 11 9)) s2
                (Integrated.minute clock 10) 1)
      as (s3 & _ & _ & Hrun2 & _);
      [done | done | by (unfold s2; simpl; rewrite lookup_insert_eq) | lia
      | by vm_compute |].
    assert (Hround : run FixedWindow.allow_request
                       (map (fun i : nat =>
                               (clock (10 + i)%nat, "boundary_test_user"))
                          (seq 0 10)) (App.shorten_limiter st1)
                     = Ok (replicate 10 true, s3)).
    { rewrite Hl1.
      change (map (fun i : nat => (clock (10 + i)%nat, "boundary_test_user"))
                (seq 0 10))
        with ((clock 10%nat, "boundary_test_user")
              :: map (fun t : Q => (t, "boundary_test_user"))
                   (map clock (seq 11 9))).
      cbn [run]. rewrite Hcall. cbn [mbind result_bind fst snd]. by rewrite Hrun2. }
    destruct (app_serve_round FixedWindow.allow_request shorten_url clock 10
                "https://example.com/boundary2_" "boundary_test_user" 10 st1 _ s3
                Hround) as (rs2 & st2 & -> & Hst & _).
    by rewrite (allowed_statuses _ _ Hst).
Qed.

(** ** The tests on concrete clocks *)

Lemma integrated_tests_on_sliding_window_witness :
  let clock := fun i : nat => (inject_Z (Z.of_nat i) * (1 # 10))%Q in
  let allow := total SlidingWindow.allow_request in
  let h := fun url : string => String.append "c:" url in
  Integrated.test_basic_functionality allow h clock App.sliding_window_app
  = Some true /\
  Integrated.test_rate_limit_enforced allow h clock App.sliding_window_app
  = Some true /\
  Integrated.test_per_user_isolation allow h clock App.sliding_window_app
  = Some true /\
  Integrated.test_boundary_handling allow h clock App.sliding_window_app
  = Some true.
Proof.
  intros clock allow h.
  assert (Hmono : forall i j : nat, (i <= j)%nat -> (clock i <= clock j)%Q).
  { intros i j Hij. unfold clock. apply Qmult_le_compat_r; [|done].
    rewrite <- Zle_Qle. lia. }
  destruct (integrated_tests_on_sliding_window h clock App.sliding_window_app
              eq_refl eq_refl Hmono) as (H1 & H2 & H3 & H4).
  split; [exact (H1 eq_refl)|]. split; [exact (H2 eq_refl)|].
  split; [exact (H3 eq_refl eq_refl)|]. exact (H4 eq_refl eq_refl).
Defined.

Lemma integrated_tests_on_fixed_window_witness :
  let early := fun i : nat => (inject_Z (Z.of_nat i) * (1 # 10))%Q in
  let across := fun i : nat => if (i <? 10)%nat then 59%Q else 61%Q in
  let allow := FixedWindow.allow_request in
  let h := fun url : string => String.append "c:" url in
  Integrated.test_rate_limit_enforced allow h early App.fixed_window_app
  = Some true /\
  Integrated.test_boundary_handling allow h early App.fixed_window_app
  = Some true /\
  Integrated.test_boundary_handling allow h across App.fixed_window_app
  = Some false.
Proof.
  intros early across allow h.
  destruct (integrated_tests_on_fixed_window h early App.fixed_window_app
              eq_refl eq_refl) as (_ & H2 & _ & H4 & _).
  destruct (integrated_tests_on_fixed_window h across App.fixed_window_app
              eq_refl eq_refl) as (_ & _ & _ & _ & H5).
  split; [exact (H2 eq_refl)|]. split; [exact (H4 eq_refl eq_refl)|].
  apply (H5 eq_refl). intros i Hi. unfold Integrated.minute, across.
  destruct (Nat.ltb_spec i 10); [reflexivity | lia].
Defined.
